(** * SurgiTrack backend: the frame-processing pipeline of [backend/server.py]

    A shallow embedding of the detector thread (tracker state machine,
    marker-detector adapter, decimated main loop, console-logging debounce)
    and of the two request handlers that validate their body.

    Conventions of the embedding.
    - Python [int] is [Z].  A float is the rational number it stands for,
      of type [Q]; [Py.f32] and [Py.f64] round to the nearest float32 and
      float64 (ties to even; overflow is out of reach of the values at hand),
      and the arithmetic on marker corners, marker centers and smoothed
      centers is rounded with them operation by operation.  The confidence
      of a track is a quotient [k/n] with [n <= 10], compared with the
      literal [0.4]; correctly rounded division makes that comparison agree
      with the comparison of the exact quotients, so these are kept exact,
      and so are the landmark products of the hand boxes, the frame rate
      and the scale of a hand region.
    - Python [dict] is stdpp's [gmap], Python [set] is [gset].  A [dict] is
      iterated in the order of [map_to_list] and not in insertion order; the
      loops over a [dict] treat each key on its own, and no statement below
      depends on the order.
    - The OpenCV, MediaPipe and PostgreSQL calls are operations of the
      classes [Detector.Vision] and [Api.Postgres]; the statements hold for
      every instance. *)

From Stdlib Require Import ZArith QArith Qround Qpower Qabs Lqa Lia Ascii String.
From stdpp Require Import gmap strings list fin_maps.

Local Open Scope Z_scope.
Local Set Warnings "-clear-no-such-hyp".

(** ** Configuration constants of [detector_thread] *)

Module Config.

Definition HAND_ROI_PADDING : Z := 120.

Definition TOOL_MARKERS : gmap Z string :=
  list_to_map
    [ (20, "scalpel"%string);           (21, "artery_forceps"%string);
      (22, "iris_scissors"%string);     (23, "operating_scissors"%string);
      (24, "tweezers"%string);          (25, "aspirator"%string);
      (26, "bending_shear"%string);     (27, "circular_spoon"%string);
      (28, "core_needle"%string);       (29, "fine_needle"%string);
      (30, "rongeur_forceps_1"%string); (31, "rongeur_forceps_2"%string);
      (32, "stripping"%string);         (33, "wire_grabbing_pliers"%string) ].

Definition DETECTION_HISTORY_SIZE : nat := 10.
Definition MIN_CONFIDENCE_THRESHOLD : Q := 4 # 10.
Definition MAX_LOST_FRAMES : Z := 25.
Definition POSITION_SMOOTHING : Q := 3 # 10.
Definition MIN_MARKER_PERIMETER : Q := 15 # 1.

Definition UPSCALE_TARGET : Z := 380.
Definition HAND_EVERY_N : Z := 3.
Definition ARUCO_EVERY_N : Z := 2.
Definition MEDIAPIPE_SCALE : Q := 1 # 2.

Definition REPRINT_AFTER : Q := 10 # 1.

End Config.

(** ** Small Python primitives *)

Module Py.

(** [a >= b] and [a > b] on floats. *)
Definition Qgeb (a b : Q) : bool := Qle_bool b a.
Definition Qgtb (a b : Q) : bool := negb (Qle_bool a b).
Definition Qltb (a b : Q) : bool := negb (Qle_bool b a).

(** [int(x)] on a float: truncation towards zero. *)
Definition int (x : Q) : Z := if Qle_bool 0 x then Qfloor x else Qceiling x.

(** [sum(xs)] on a sequence of ints. *)
Definition sum (xs : list Z) : Z := foldr Z.add 0 xs.

(** [collections.deque(maxlen=n).append(x)]: when the deque is full the
    element at the opposite end is discarded. *)
Definition deque_append (maxlen : nat) (dq : list Z) (x : Z) : list Z :=
  if (length dq =? maxlen)%nat then tail dq ++ [x] else dq ++ [x].

(** [max(a, b)] and [min(a, b)] on floats: the first argument is kept unless
    the second is strictly beyond it. *)
Definition max (a b : Q) : Q := if Qgtb b a then b else a.
Definition min (a b : Q) : Q := if Qltb b a then b else a.

(** Rounding to the nearest integer, ties to even. *)
Definition rint (x : Q) : Z :=
  let f := Qfloor x in
  let r := (x - inject_Z f)%Q in
  if Qltb r (1 # 2) then f
  else if Qgtb r (1 # 2) then f + 1
  else if Z.even f then f else f + 1.

(** [floor(log2(abs(x)))] of a number that is not zero. *)
Definition ilog2 (x : Q) : Z :=
  let e := Z.log2 (Z.abs (Qnum x)) - Z.log2 (Zpos (Qden x)) in
  if Qle_bool (2 ^ e) (Qabs x) then e else e - 1.

(** Rounding to the nearest binary float with [prec] significant bits and
    least normal exponent [emin], ties to even: the number is rounded to a
    multiple of the spacing of the floats around it, which below
    [2 ^ emin] is the spacing of the subnormal floats.  Infinities are not
    modelled: pixel coordinates and their quotients by a scale of at least
    1 are far below the largest float. *)
Definition fround (prec emin : Z) (x : Q) : Q :=
  if Qeq_bool x 0 then 0%Q
  else
    let ulp := (2 ^ (Z.max (ilog2 x) emin - prec + 1))%Q in
    Qred (inject_Z (rint (x / ulp)) * ulp).

(** The result of an operation on [np.float32] and on [float] values. *)
Definition f32 : Q → Q := fround 24 (-126).
Definition f64 : Q → Q := fround 53 (-1022).

(** [round(x, 3)]; the confidences it is applied to are quotients [k/n] with
    [n <= 10], which are never half-way between two multiples of 0.001. *)
Definition round3 (x : Q) : Q := Qfloor (x * 1000 + (1 # 2)) # 1000.

(** [list(d.keys())] and [d.values()]. *)
Definition keys {V} (d : gmap Z V) : list Z := (map_to_list d).*1.
Definition values {V} (d : gmap Z V) : list V := (map_to_list d).*2.

End Py.

(** ** Tracking classes *)

(** A marker's corner polygon: an array of shape (4, 2). *)
Record Quad := { c0 : Q * Q; c1 : Q * Q; c2 : Q * Q; c3 : Q * Q }.

Definition quad_map (f : Q * Q → Q * Q) (q : Quad) : Quad :=
  {| c0 := f (c0 q); c1 := f (c1 q); c2 := f (c2 q); c3 := f (c3 q) |}.

(** The dict that [detect_aruco_in_hand_roi] appends to [detected_tools]. *)
Record Detection := {
  det_id : Z;
  det_name : string;
  det_corners : Quad;
  det_center : Z * Z
}.

Module TrackedTool.

Import Config.

Record t := {
  id : Z;
  name : string;
  center : Q * Q;
  corners : Quad;
  last_seen_frame : Z;
  frames_lost : Z;
  detection_history : list Z;
  smoothed_center : Q * Q;
  confidence : Q
}.

(** [np.array(center, dtype=float)] on a pair of ints. *)
Definition to_float (c : Z * Z) : Q * Q := (inject_Z c.1, inject_Z c.2).

(** [sum(self.detection_history) / len(self.detection_history)]; it is only
    evaluated right after an [append], on a deque that is not empty. *)
Definition mean (h : list Z) : Q := Py.sum h # Pos.of_nat (length h).

Definition init (tool_id : Z) (tool_name : string) (c : Z * Z) (cs : Quad) : t :=
  {| id := tool_id;
     name := tool_name;
     center := to_float c;
     corners := cs;
     last_seen_frame := 0;
     frames_lost := 0;
     detection_history := Py.deque_append DETECTION_HISTORY_SIZE [] 1;
     smoothed_center := to_float c;
     confidence := 1 |}.

(** [POSITION_SMOOTHING * self.smoothed_center
     + (1 - POSITION_SMOOTHING) * np.array(center)], one coordinate after
    the other: two products and a sum of floats; the constant is the float
    of the literal [0.3]. *)
Definition smooth (s : Q * Q) (c : Z * Z) : Q * Q :=
  let a := Py.f64 POSITION_SMOOTHING in
  let b := Py.f64 (1 - a) in
  (Py.f64 (Py.f64 (a * s.1) + Py.f64 (b * inject_Z c.1)),
   Py.f64 (Py.f64 (a * s.2) + Py.f64 (b * inject_Z c.2)))%Q.

Definition update (self : t) (c : Z * Z) (cs : Quad) (current_frame : Z) : t :=
  let h := Py.deque_append DETECTION_HISTORY_SIZE (detection_history self) 1 in
  {| id := id self;
     name := name self;
     center := to_float c;
     corners := cs;
     last_seen_frame := current_frame;
     frames_lost := 0;
     detection_history := h;
     smoothed_center := smooth (smoothed_center self) c;
     confidence := mean h |}.

Definition predict (self : t) (current_frame : Z) : t :=
  let h := Py.deque_append DETECTION_HISTORY_SIZE (detection_history self) 0 in
  {| id := id self;
     name := name self;
     center := center self;
     corners := corners self;
     last_seen_frame := last_seen_frame self;
     frames_lost := current_frame - last_seen_frame self;
     detection_history := h;
     smoothed_center := smoothed_center self;
     confidence := mean h |}.

Definition is_valid (self : t) : bool :=
  (frames_lost self <=? MAX_LOST_FRAMES) &&
  Py.Qgeb (confidence self) MIN_CONFIDENCE_THRESHOLD.

Definition get_display_center (self : t) : Z * Z :=
  (Py.int (smoothed_center self).1, Py.int (smoothed_center self).2).

End TrackedTool.

Module ToolTracker.

Record t := {
  tracked_tools : gmap Z TrackedTool.t;
  frame_count : Z
}.

Definition init : t := {| tracked_tools := ∅; frame_count := 0 |}.

(** Body of the first loop of [update]: one detected tool. *)
Definition observe (fc : Z) (acc : gmap Z TrackedTool.t * gset Z) (tool : Detection)
  : gmap Z TrackedTool.t * gset Z :=
  let tool_id := det_id tool in
  (match acc.1 !! tool_id with
   | Some tr =>
       <[tool_id := TrackedTool.update tr (det_center tool) (det_corners tool) fc]> acc.1
   | None =>
       <[tool_id := TrackedTool.init tool_id (det_name tool) (det_center tool)
                      (det_corners tool)]> acc.1
   end,
   {[tool_id]} ∪ acc.2).

(** Body of the second loop of [update]: one key of the dict.  [predict]
    mutates the track in place, then the entry is deleted when the track is
    no longer valid. *)
Definition sweep (fc : Z) (seen_ids : gset Z) (tools : gmap Z TrackedTool.t) (tool_id : Z)
  : gmap Z TrackedTool.t :=
  if decide (tool_id ∈ seen_ids) then tools
  else match tools !! tool_id with
       | Some tr =>
           let tr' := TrackedTool.predict tr fc in
           let tools' := <[tool_id := tr']> tools in
           if TrackedTool.is_valid tr' then tools' else delete tool_id tools'
       | None => tools
       end.

Definition update (self : t) (detected_tools : list Detection) : t :=
  let fc := frame_count self + 1 in
  let acc := foldl (observe fc) (tracked_tools self, ∅) detected_tools in
  {| tracked_tools := foldl (sweep fc acc.2) acc.1 (Py.keys acc.1);
     frame_count := fc |}.

Definition get_stable_tools (self : t) : list TrackedTool.t :=
  filter (λ tr, TrackedTool.is_valid tr = true) (Py.values (tracked_tools self)).

(** The tracker after a sequence of [update] calls, one list of detected
    tools per call. *)
Definition run (self : t) (calls : list (list Detection)) : t :=
  foldl update self calls.

End ToolTracker.

(** ** Marker-detector adapter *)

Module Detector.

Import Config.

(** A numpy image: its shape and its pixel contents, which stay opaque. *)
Record Image (Px : Type) := { rows : Z; cols : Z; px : Px }.
Arguments rows {Px} _.
Arguments cols {Px} _.
Arguments px {Px} _.

(** One hand's landmark set as MediaPipe returns it (21 points, never empty),
    in normalised coordinates. *)
Record Hand := { lm_first : Q * Q; lm_rest : list (Q * Q) }.

(** [hand_bbox = [x, y, w, h]]. *)
Record BBox := { bx : Z; by_ : Z; bw : Z; bh : Z }.

Record HandInfo := { bbox : BBox; landmarks : Hand }.

(** The OpenCV and MediaPipe calls of the detector thread.  Their results on
    pixel contents are not specified here; the shapes are. *)
Class Vision (Px : Type) := {
  slice_px : Px → Z → Z → Z → Z → Px;
  gray_px : Px → Px;
  rgb_px : Px → Px;
  resize_px : Px → Q → Q → Px;
  GaussianBlur_px : Px → Px;
  CLAHE_px : Px → Px;
  (** [run_aruco]: [ids.flatten()] paired with [corners[i][0]], an array of
      float32 numbers; no entry when [ids is None]. *)
  run_aruco : Image Px → list (Z * Quad);
  (** [cv2.arcLength(q, True)]. *)
  arcLength : Quad → Q;
  (** [hands.process(img).multi_hand_landmarks], empty when it is [None]. *)
  hands_process : Image Px → list Hand
}.

Section Adapter.
Context {Px : Type} `{Vision Px}.

(** A slice bound [i] of an axis of length [n], as numpy normalises it. *)
Definition slice_bound (n i : Z) : Z :=
  if i <? 0 then Z.max 0 (i + n) else Z.min i n.

Definition slice_len (n start stop : Z) : Z :=
  Z.max 0 (slice_bound n stop - slice_bound n start).

(** [frame[y:y+h, x:x+w]]. *)
Definition crop (frame : Image Px) (y h x w : Z) : Image Px :=
  {| rows := slice_len (rows frame) y (y + h);
     cols := slice_len (cols frame) x (x + w);
     px := slice_px (px frame)
             (slice_bound (rows frame) y) (slice_bound (rows frame) (y + h))
             (slice_bound (cols frame) x) (slice_bound (cols frame) (x + w)) |}.

(** [img.size] of a three-channel frame. *)
Definition size (img : Image Px) : Z := rows img * cols img * 3.

Definition cvtColor_gray (img : Image Px) : Image Px :=
  {| rows := rows img; cols := cols img; px := gray_px (px img) |}.

Definition cvtColor_rgb (img : Image Px) : Image Px :=
  {| rows := rows img; cols := cols img; px := rgb_px (px img) |}.

(** [cvRound]: to the nearest integer, ties to even. *)
Definition cvRound (x : Q) : Z :=
  let f := Qfloor x in
  let r := (x - inject_Z f)%Q in
  if Py.Qltb r (1 # 2) then f
  else if Py.Qgtb r (1 # 2) then f + 1
  else if Z.even f then f else f + 1.

(** [cv2.resize(img, None, fx=fx, fy=fy, interpolation=cv2.INTER_LINEAR)]. *)
Definition resize (img : Image Px) (fx fy : Q) : Image Px :=
  {| rows := cvRound (fy * inject_Z (rows img));
     cols := cvRound (fx * inject_Z (cols img));
     px := resize_px (px img) fx fy |}.

Definition GaussianBlur (img : Image Px) : Image Px :=
  {| rows := rows img; cols := cols img; px := GaussianBlur_px (px img) |}.

Definition CLAHE_apply (img : Image Px) : Image Px :=
  {| rows := rows img; cols := cols img; px := CLAHE_px (px img) |}.

(** [(marker_corners / base_scale) + [x, y]], one corner.  The corners are
    a float32 array: the scale is cast to float32 and the quotient is a
    float32; adding the list of two ints makes the sum a float64.
    [base_scale] is the exact quotient, which the program holds rounded to a
    float. *)
Definition to_full_frame (base_scale : Q) (x y : Z) (p : Q * Q) : Q * Q :=
  let s := Py.f32 (Py.f64 base_scale) in
  (Py.f64 (Py.f32 (p.1 / s) + inject_Z x),
   Py.f64 (Py.f32 (p.2 / s) + inject_Z y))%Q.

(** [np.mean(q[:, 0])] and [np.mean(q[:, 1])]: the four float64 values are
    added one after the other and the sum is divided by their number. *)
Definition mean4 (a b c d : Q) : Q :=
  Py.f64 (Py.f64 (Py.f64 (Py.f64 (a + b) + c) + d) / 4).

Definition mean_x (q : Quad) : Q := mean4 (c0 q).1 (c1 q).1 (c2 q).1 (c3 q).1.
Definition mean_y (q : Quad) : Q := mean4 (c0 q).2 (c1 q).2 (c2 q).2 (c3 q).2.

(** Body of the loop over [ids.flatten()]: [None] where the source says
    [continue]. *)
Definition candidate (base_scale : Q) (x y : Z) (entry : Z * Quad) : option Detection :=
  let mid := entry.1 in
  match TOOL_MARKERS !! mid with
  | None => None
  | Some tool_name =>
      let marker_corners := entry.2 in
      if Py.Qltb (arcLength marker_corners) MIN_MARKER_PERIMETER then None
      else
        let full_frame_corners := quad_map (to_full_frame base_scale x y) marker_corners in
        Some {| det_id := mid;
                det_name := tool_name;
                det_corners := full_frame_corners;
                det_center := (Py.int (mean_x full_frame_corners),
                               Py.int (mean_y full_frame_corners)) |}
  end.

(** The scale and the image handed to the blur, from the gray region. *)
Definition upscale (gray : Image Px) : Q * Image Px :=
  let h_roi := rows gray in
  let w_roi := cols gray in
  if (w_roi <? UPSCALE_TARGET) || (h_roi <? UPSCALE_TARGET) then
    let base_scale :=
      Py.max (inject_Z UPSCALE_TARGET / inject_Z w_roi)
             (inject_Z UPSCALE_TARGET / inject_Z h_roi) in
    (base_scale, resize gray base_scale base_scale)
  else (1%Q, gray).

Definition detect_aruco_in_hand_roi (frame : Image Px) (hand_bbox : BBox)
  : list Detection :=
  let x := bx hand_bbox in
  let y := by_ hand_bbox in
  let hand_roi := crop frame y (bh hand_bbox) x (bw hand_bbox) in
  if size hand_roi =? 0 then []
  else
    let gray := cvtColor_gray hand_roi in
    let scaled := upscale gray in
    let processed := CLAHE_apply (GaussianBlur scaled.2) in
    omap (candidate scaled.1 x y) (run_aruco processed).

Definition hand_box (frame_H frame_W : Z) (hand_landmarks : Hand) : HandInfo :=
  let xs := (λ lm : Q * Q, lm.1 * inject_Z frame_W)%Q in
  let ys := (λ lm : Q * Q, lm.2 * inject_Z frame_H)%Q in
  let x0 := xs (lm_first hand_landmarks) in
  let y0 := ys (lm_first hand_landmarks) in
  let x_coords := xs <$> lm_rest hand_landmarks in
  let y_coords := ys <$> lm_rest hand_landmarks in
  let x_min := Z.max 0 (Py.int (foldl Py.min x0 x_coords) - HAND_ROI_PADDING) in
  let y_min := Z.max 0 (Py.int (foldl Py.min y0 y_coords) - HAND_ROI_PADDING) in
  let x_max := Z.min frame_W (Py.int (foldl Py.max x0 x_coords) + HAND_ROI_PADDING) in
  let y_max := Z.min frame_H (Py.int (foldl Py.max y0 y_coords) + HAND_ROI_PADDING) in
  {| bbox := {| bx := x_min; by_ := y_min; bw := x_max - x_min; bh := y_max - y_min |};
     landmarks := hand_landmarks |}.

Definition get_hand_bounding_boxes (frame_H frame_W : Z) (hand_landmarks_list : list Hand)
  : list HandInfo :=
  hand_box frame_H frame_W <$> hand_landmarks_list.

End Adapter.

End Detector.

(** ** Main loop of the detector thread *)

Module Pipeline.

Import Config Detector.

(** An entry of [active_tools_json] and of [pending_events]. *)
Record ToolJson := {
  tj_id : Z;
  tj_name : string;
  tj_confidence : Q;
  tj_status : string
}.

Definition tool_json (tool : TrackedTool.t) : ToolJson :=
  {| tj_id := TrackedTool.id tool;
     tj_name := TrackedTool.name tool;
     tj_confidence := Py.round3 (TrackedTool.confidence tool);
     tj_status := if 0 <? TrackedTool.frames_lost tool then "tracking" else "detected" |}.

(** Console-logging state: [last_printed], [last_seen_time] and
    [pending_events]. *)
Record Logging := {
  last_printed : gmap Z Q;
  last_seen_time : gmap Z Q;
  pending_events : list ToolJson
}.

Definition Logging_init : Logging :=
  {| last_printed := ∅; last_seen_time := ∅; pending_events := [] |}.

(** Body of [for tool in stable_tools]. *)
Definition announce (now : Q) (lg : Logging) (tool : TrackedTool.t) : Logging :=
  let tid := TrackedTool.id tool in
  let seen := <[tid := now]> (last_seen_time lg) in
  match last_printed lg !! tid with
  | None =>
      {| last_printed := <[tid := now]> (last_printed lg);
         last_seen_time := seen;
         pending_events := pending_events lg ++ [tool_json tool] |}
  | Some _ =>
      {| last_printed := last_printed lg;
         last_seen_time := seen;
         pending_events := pending_events lg |}
  end.

(** Body of [for tid in list(last_printed.keys())]. *)
Definition forget (now : Q) (current_ids : gset Z) (lg : Logging) (tid : Z) : Logging :=
  if decide (tid ∈ current_ids) then lg
  else match last_seen_time lg !! tid with
       | Some seen =>
           if Py.Qgtb (now - seen) REPRINT_AFTER then
             {| last_printed := delete tid (last_printed lg);
                last_seen_time := delete tid (last_seen_time lg);
                pending_events := pending_events lg |}
           else lg
       | None => lg
       end.

(** The console-logging block of one cycle. *)
Definition console_logging (lg : Logging) (now : Q) (stable_tools : list TrackedTool.t)
  : Logging :=
  let current_ids : gset Z := list_to_set (TrackedTool.id <$> stable_tools) in
  let lg1 := foldl (announce now) lg stable_tools in
  foldl (forget now current_ids) lg1 (Py.keys (last_printed lg1)).

(** The value written to [latest_data], without the clock readings ([fps],
    [timestamp]). *)
Record Snapshot := {
  hands : nat;
  tools : list ToolJson;
  events : list ToolJson
}.

Record Loop := {
  frame_count : Z;
  cached_hand_boxes : list HandInfo;
  tracker : ToolTracker.t;
  logging : Logging
}.

Definition Loop_init : Loop :=
  {| frame_count := 0; cached_hand_boxes := []; tracker := ToolTracker.init;
     logging := Logging_init |}.

Section Cycle.
Context {Px : Type} `{Vision Px}.

(** Hand detection, every [HAND_EVERY_N] frames. *)
Definition hand_detection (frame_count : Z) (cached : list HandInfo) (frame : Image Px)
  : list HandInfo :=
  if frame_count `mod` HAND_EVERY_N =? 0 then
    let small := resize frame MEDIAPIPE_SCALE MEDIAPIPE_SCALE in
    let rgb_small := cvtColor_rgb small in
    get_hand_bounding_boxes (rows frame) (cols frame) (hands_process rgb_small)
  else cached.

(** [all_detected_tools] of a cycle that runs the marker detector. *)
Definition all_detected_tools (frame : Image Px) (hand_boxes : list HandInfo)
  : list Detection :=
  hand_boxes ≫= (λ hand_info, detect_aruco_in_hand_roi frame (bbox hand_info)).

(** What the cycle hands to [tracker.update]: nothing on the frames that
    the test on [ARUCO_EVERY_N] skips. *)
Definition aruco_detection (frame_count : Z) (frame : Image Px) (hand_boxes : list HandInfo)
  : option (list Detection) :=
  if frame_count `mod` ARUCO_EVERY_N =? 0
  then Some (all_detected_tools frame hand_boxes)
  else None.

(** One iteration of [while True] that got a frame; [now] is the reading of
    [time.time()] in the console-logging block. *)
Definition cycle (st : Loop) (frame : Image Px) (now : Q) : Loop * Snapshot :=
  let frame_count := frame_count st + 1 in
  let hand_boxes := hand_detection frame_count (cached_hand_boxes st) frame in
  let tracker :=
    match aruco_detection frame_count frame hand_boxes with
    | Some detected => ToolTracker.update (tracker st) detected
    | None => tracker st
    end in
  let stable_tools := ToolTracker.get_stable_tools tracker in
  let lg := console_logging (logging st) now stable_tools in
  ({| frame_count := frame_count;
      cached_hand_boxes := hand_boxes;
      tracker := tracker;
      logging := {| last_printed := last_printed lg;
                    last_seen_time := last_seen_time lg;
                    pending_events := [] |} |},
   {| hands := length hand_boxes;
      tools := tool_json <$> stable_tools;
      events := pending_events lg |}).

(** What one iteration of [while True] finds. *)
Inductive Tick :=
  | CameraOff
  | ReadFailed
  | Captured (frame : Image Px) (now : Q).

(** One iteration: the new loop state and what it writes to [latest_data]
    ([Some None] is the empty dict written while the camera is off). *)
Definition iteration (st : Loop) (tk : Tick) : Loop * option (option Snapshot) :=
  match tk with
  | CameraOff => (st, Some None)
  | ReadFailed => (st, None)
  | Captured frame now => let r := cycle st frame now in (r.1, Some (Some r.2))
  end.

End Cycle.

(** The console-logging state after a timeline of cycles, each given by its
    clock reading and its stable tools; [pending_events] is cleared after
    every cycle as [cycle] does. *)
Definition log_cycle (lg : Logging) (c : Q * list TrackedTool.t) : Logging :=
  let lg' := console_logging lg c.1 c.2 in
  {| last_printed := last_printed lg';
     last_seen_time := last_seen_time lg';
     pending_events := [] |}.

Definition log_run (timeline : list (Q * list TrackedTool.t)) : Logging :=
  foldl log_cycle Logging_init timeline.

(** The events published by cycle [c] when it comes after [timeline]. *)
Definition events_at (timeline : list (Q * list TrackedTool.t)) (c : Q * list TrackedTool.t)
  : list ToolJson :=
  pending_events (console_logging (log_run timeline) c.1 c.2).

(** How many of the events are about marker [tid]. *)
Definition count_events (tid : Z) (evs : list ToolJson) : nat :=
  length (filter (λ e, tj_id e = tid) evs).

Definition valid_in (tid : Z) (c : Q * list TrackedTool.t) : Prop :=
  tid ∈ TrackedTool.id <$> c.2.

#[global] Instance valid_in_dec (tid : Z) (c : Q * list TrackedTool.t) :
  Decision (valid_in tid c).
Proof. unfold valid_in. apply _. Defined.

End Pipeline.

(** ** Request handlers that validate their body *)

Module Api.

(** A decoded JSON value; [JNull] is Python's [None]. *)
#[warnings="-register-all"]
Inductive JSON :=
  | JNull
  | JBool (b : bool)
  | JInt (n : Z)
  | JFloat (x : Q)
  | JStr (s : string)
  | JList (l : list JSON)
  | JDict (d : list (string * JSON)).

(** What a handler call ends with: a response, or an exception that leaves
    the handler. *)
Inductive Outcome :=
  | JSONResponse (content : JSON) (status_code : Z)
  | Raised (exc : string).

(** A row of [test_results] as [RETURNING *] gives it. *)
Record TestRow := {
  row_id : Z;
  row_procedure_id : Z;
  row_marks : Z;
  row_total_stages : Z;
  row_completed_at : string
}.

(** The two INSERT statements run under [get_db]: the committed database,
    or [None] when the statement raises and the transaction is rolled back. *)
Class Postgres (DB : Type) := {
  insert_test_result : DB → JSON → JSON → JSON → option (DB * TestRow);
  insert_contact_message : DB → string → string → string → option DB
}.

(** [body.get(key)] and [body.get(key, "")]. *)
Definition get (body : gmap string JSON) (key : string) : JSON :=
  default JNull (body !! key).
Definition get_or_empty (body : gmap string JSON) (key : string) : JSON :=
  default (JStr "") (body !! key).

Definition is_None (v : JSON) : bool :=
  match v with JNull => true | _ => false end.

(** A Python [str] is a sequence of code points; a [string] holds its UTF-8
    encoding.  The characters for which [str.isspace()] holds, which
    [str.strip()] removes at both ends, as they are encoded: U+0009 to
    U+000D, U+001C to U+0020, U+0085, U+00A0, U+1680, U+2000 to U+200A,
    U+2028, U+2029, U+202F, U+205F and U+3000. *)
Definition WHITESPACE : list (list ascii) :=
  map (map ascii_of_nat)
    [ [9]; [10]; [11]; [12]; [13]; [28]; [29]; [30]; [31]; [32];
      [194; 133]; [194; 160];
      [225; 154; 128];
      [226; 128; 128]; [226; 128; 129]; [226; 128; 130]; [226; 128; 131];
      [226; 128; 132]; [226; 128; 133]; [226; 128; 134]; [226; 128; 135];
      [226; 128; 136]; [226; 128; 137]; [226; 128; 138];
      [226; 128; 168]; [226; 128; 169]; [226; 128; 175];
      [226; 129; 159];
      [227; 128; 128] ]%nat.

(** The bytes are the encoding of a white-space character. *)
Definition is_space (w : list ascii) : bool := bool_decide (w ∈ WHITESPACE).

(** The white-space characters at the front of a sequence of bytes are
    dropped.  [enc] says how the bytes of a character lie in the sequence: in
    the order of the encoding at the front of a string, in the opposite order
    at the front of a reversed string.  In UTF-8 a character that ends a
    string is found from the last bytes alone. *)
Fixpoint strip_front (enc : list ascii → list ascii) (s : list ascii) : list ascii :=
  match s with
  | a :: r1 =>
      if is_space (enc [a]) then strip_front enc r1
      else match r1 with
           | b :: r2 =>
               if is_space (enc [a; b]) then strip_front enc r2
               else match r2 with
                    | c :: r3 =>
                        if is_space (enc [a; b; c]) then strip_front enc r3 else s
                    | [] => s
                    end
           | [] => s
           end
  | [] => []
  end.

Definition lstrip (s : list ascii) : list ascii := strip_front id s.

Definition rstrip (s : list ascii) : list ascii :=
  reverse (strip_front reverse (reverse s)).

(** [s.strip()]. *)
Definition str_strip (s : string) : string :=
  string_of_list_ascii (rstrip (lstrip (list_ascii_of_string s))).

(** [v.strip()]: only a [str] has the method. *)
Definition strip (v : JSON) : string + string :=
  match v with
  | JStr s => inl (str_strip s)
  | _ => inr "AttributeError"%string
  end.

Section Handlers.
Context {DB : Type} `{Postgres DB}.

Definition save_test_result (db : DB) (body : gmap string JSON) : DB * Outcome :=
  let proc_id := get body "procedureId" in
  let marks := get body "marks" in
  let total := get body "totalStages" in
  if is_None proc_id || is_None marks || is_None total then
    (db, JSONResponse
           (JDict [("message"%string,
                    JStr "Missing fields: procedureId, marks, totalStages")]) 400)
  else
    match insert_test_result db proc_id marks total with
    | Some (db', row) =>
        (db', JSONResponse
                (JDict [("id"%string, JInt (row_id row));
                        ("procedureId"%string, JInt (row_procedure_id row));
                        ("marks"%string, JInt (row_marks row));
                        ("totalStages"%string, JInt (row_total_stages row));
                        ("completedAt"%string, JStr (row_completed_at row))]) 201)
    | None => (db, Raised "psycopg2.Error")
    end.

Definition create_contact (db : DB) (body : gmap string JSON) : DB * Outcome :=
  match strip (get_or_empty body "name") with
  | inr exc => (db, Raised exc)
  | inl name =>
  match strip (get_or_empty body "email") with
  | inr exc => (db, Raised exc)
  | inl email =>
  match strip (get_or_empty body "message") with
  | inr exc => (db, Raised exc)
  | inl message =>
      if bool_decide (name = ""%string) || bool_decide (email = ""%string)
         || bool_decide (message = ""%string) then
        (db, JSONResponse
               (JDict [("message"%string, JStr "name, email and message are required")])
               400)
      else
        match insert_contact_message db name email message with
        | Some db' => (db', JSONResponse (JDict [("success"%string, JBool true)]) 201)
        | None => (db, Raised "psycopg2.Error")
        end
  end end end.

End Handlers.

End Api.

(** ** Vocabulary of the statements *)

(** A tracker cycle as one track sees it: the id was detected ([Hit], with
    the arguments of [TrackedTool.update]) or it was not ([Miss], with the
    argument of [TrackedTool.predict]). *)
Inductive Obs :=
  | Hit (c : Z * Z) (cs : Quad) (current_frame : Z)
  | Miss (current_frame : Z).

Definition apply_obs (tr : TrackedTool.t) (o : Obs) : TrackedTool.t :=
  match o with
  | Hit c cs current_frame => TrackedTool.update tr c cs current_frame
  | Miss current_frame => TrackedTool.predict tr current_frame
  end.

Definition obs_bit (o : Obs) : Z :=
  match o with Hit _ _ _ => 1 | Miss _ => 0 end.

(** The number of hits in a history. *)
Definition hits (h : list Z) : nat := length (filter (λ b, b = 1) h).

(** The last [DETECTION_HISTORY_SIZE] entries of a sequence. *)
Definition window (l : list Z) : list Z :=
  drop (length l - Config.DETECTION_HISTORY_SIZE)%nat l.

(** A history as the tracker builds them: hits and misses only. *)
Definition bits (h : list Z) : Prop := Forall (λ b, b = 0 ∨ b = 1) h.

(** What every track of the tracker satisfies: its history is a non-empty
    deque of hits and misses within [maxlen], and its confidence is the mean
    of that history. *)
Record well_formed (tr : TrackedTool.t) : Prop := {
  wf_bits : bits (TrackedTool.detection_history tr);
  wf_nonempty : TrackedTool.detection_history tr ≠ [];
  wf_length : (length (TrackedTool.detection_history tr) ≤ Config.DETECTION_HISTORY_SIZE)%nat;
  wf_confidence : TrackedTool.confidence tr = TrackedTool.mean (TrackedTool.detection_history tr)
}.

(** What the first loop of [ToolTracker.update] does to the entry of key
    [k], one detected tool at a time. *)
Definition observe_track (fc k : Z) (o : option TrackedTool.t) (tool : Detection)
  : option TrackedTool.t :=
  if decide (det_id tool = k) then
    Some match o with
         | Some tr => TrackedTool.update tr (det_center tool) (det_corners tool) fc
         | None => TrackedTool.init k (det_name tool) (det_center tool) (det_corners tool)
         end
  else o.

(** What the second loop does to the entry of a key that was not seen. *)
Definition sweep_track (fc : Z) (o : option TrackedTool.t) : option TrackedTool.t :=
  match o with
  | Some tr =>
      let tr' := TrackedTool.predict tr fc in
      if TrackedTool.is_valid tr' then Some tr' else None
  | None => None
  end.

(** What every entry of the tracker's dict satisfies between two calls. *)
Definition track_ok (tr : TrackedTool.t) : Prop :=
  well_formed tr ∧ TrackedTool.is_valid tr = true.

Definition tracker_ok (self : ToolTracker.t) : Prop :=
  map_Forall (λ _, track_ok) (ToolTracker.tracked_tools self).

(** Fixtures. *)
Definition quad0 : Quad :=
  {| c0 := (0, 0)%Q; c1 := (1, 0)%Q; c2 := (1, 1)%Q; c3 := (0, 1)%Q |}.

Definition det (i : Z) (c : Z * Z) : Detection :=
  {| det_id := i; det_name := default ""%string (Config.TOOL_MARKERS !! i);
     det_corners := quad0; det_center := c |}.

(** The tracker in which marker 20 was first detected at cycle 25: 24 cycles
    without any detection, then one cycle that detects it. *)
Definition created_at_25 : ToolTracker.t :=
  ToolTracker.run ToolTracker.init (replicate 24 [] ++ [[det 20 (5, 5)]]).

(** The reading of "the later detection is the cycle's single observation":
    a cycle in which two regions report the same marker leaves that marker's
    track as a cycle that reports only the later detection does. *)
Definition single_observation_per_id : Prop :=
  ∀ (self : ToolTracker.t) (d1 d2 : Detection),
    det_id d1 = det_id d2 →
    ToolTracker.tracked_tools (ToolTracker.update self [d1; d2]) !! det_id d2
    = ToolTracker.tracked_tools (ToolTracker.update self [d2]) !! det_id d2.

(** The track that the first of two detections of a marker leaves behind. *)
Definition after_first (self : ToolTracker.t) (d1 : Detection) : TrackedTool.t :=
  match ToolTracker.tracked_tools self !! det_id d1 with
  | Some tr =>
      TrackedTool.update tr (det_center d1) (det_corners d1)
        (ToolTracker.frame_count self + 1)
  | None => TrackedTool.init (det_id d1) (det_name d1) (det_center d1) (det_corners d1)
  end.

(** The history of a track that may not exist yet. *)
Definition history_of (o : option TrackedTool.t) : list Z :=
  from_option TrackedTool.detection_history [] o.

(** What one call of [ToolTracker.update] makes the track of marker [k]
    record: a hit for every detection of [k] among the call's detections,
    one miss when there is none. *)
Definition cycle_record (k : Z) (detected_tools : list Detection) : list Z :=
  match filter (λ d, det_id d = k) detected_tools with
  | [] => [0]
  | ds => (λ _, 1) <$> ds
  end.

(** Everything the track of [k] records over a sequence of calls. *)
Definition recorded (k : Z) (calls : list (list Detection)) : list Z :=
  mjoin (cycle_record k <$> calls).

(** A tracker [self] does not track marker [k], and [k] is tracked after
    each call of a sequence of calls on it: the first call creates its track
    and no call drops it, so the track has seen as many cycles as there are
    calls. *)
Definition tracked_throughout (self : ToolTracker.t) (k : Z)
    (calls : list (list Detection)) : Prop :=
  ToolTracker.tracked_tools self !! k = None
  ∧ ∀ n, (0 < n ≤ length calls)%nat →
      is_Some (ToolTracker.tracked_tools (ToolTracker.run self (take n calls)) !! k).

(** The reading of "confidence = hits / min(cyclesSeen, windowSize)" in
    which a cycle is a call of [ToolTracker.update]. *)
Definition confidence_counts_cycles : Prop :=
  ∀ (self : ToolTracker.t) (calls : list (list Detection)) (k : Z) (tr : TrackedTool.t),
    tracked_throughout self k calls →
    ToolTracker.tracked_tools (ToolTracker.run self calls) !! k = Some tr →
    (TrackedTool.confidence tr
     == Z.of_nat (hits (TrackedTool.detection_history tr))
        # Pos.of_nat (Nat.min (length calls) Config.DETECTION_HISTORY_SIZE))%Q.

(** A cycle that detects marker 20 in two hand regions, then a cycle that
    does not detect it. *)
Definition seen_twice_then_missed : list (list Detection) :=
  [[det 20 (1, 1); det 20 (2, 2)]; []].

(** The scale [base_scale] of a hand region and the image handed to the
    marker detector for it, as [detect_aruco_in_hand_roi] computes them. *)
Definition region_scale {Px} `{Detector.Vision Px}
    (frame : Detector.Image Px) (hand_bbox : Detector.BBox) : Q :=
  (Detector.upscale
     (Detector.cvtColor_gray
        (Detector.crop frame (Detector.by_ hand_bbox) (Detector.bh hand_bbox)
           (Detector.bx hand_bbox) (Detector.bw hand_bbox)))).1.

Definition region_input {Px} `{Detector.Vision Px}
    (frame : Detector.Image Px) (hand_bbox : Detector.BBox) : Detector.Image Px :=
  Detector.CLAHE_apply
    (Detector.GaussianBlur
       (Detector.upscale
          (Detector.cvtColor_gray
             (Detector.crop frame (Detector.by_ hand_bbox) (Detector.bh hand_bbox)
                (Detector.bx hand_bbox) (Detector.bw hand_bbox)))).2).

(** One coordinate of a corner, mapped back to the frame: in exact
    arithmetic, and as the program computes it on its float32 corners (the
    scale cast to float32, a float32 quotient, a float64 sum). *)
Definition exact_coord (s : Q) (o : Z) (v : Q) : Q := (v / s + inject_Z o)%Q.

Definition float_coord (s : Q) (o : Z) (v : Q) : Q :=
  Py.f64 (Py.f32 (v / Py.f32 (Py.f64 s)) + inject_Z o).

(** The floating-point tolerance of a mapped coordinate: about a millionth
    of the distance from the origin of the region, a rounding of the sum,
    and the least spacing of the float32 numbers. *)
Definition coord_tolerance (s : Q) (o : Z) (v : Q) : Q :=
  (2 ^ (-20) * Qabs (v / s) + 2 ^ (-53) * Qabs (inject_Z o) + 2 ^ (-149))%Q.

(** A published coordinate [r] of a region-local coordinate [v]: it is the
    float the program computes, it is the exact value within the tolerance,
    and the forward transform (subtract the origin, multiply by the scale)
    gives [v] back within the tolerance scaled by [s]. *)
Record mapped_coord (s : Q) (o : Z) (r v : Q) : Prop := {
  mapped_value : r = float_coord s o v;
  mapped_near : (Qabs (r - exact_coord s o v) <= coord_tolerance s o v)%Q;
  mapped_back : (Qabs ((r - inject_Z o) * s - v) <= s * coord_tolerance s o v)%Q
}.

Definition mapped_point (s : Q) (x y : Z) (pub loc : Q * Q) : Prop :=
  mapped_coord s x pub.1 loc.1 ∧ mapped_coord s y pub.2 loc.2.

(** The reading of C6 with equality of numbers: every published corner is
    the region-local corner divided by the scale plus the origin. *)
Definition exact_point (s : Q) (x y : Z) (pub loc : Q * Q) : Prop :=
  (pub.1 == exact_coord s x loc.1 ∧ pub.2 == exact_coord s y loc.2)%Q.

Definition corners_exact : Prop :=
  ∀ (Px : Type) (V : Detector.Vision Px) (frame : Detector.Image Px)
    (hand_bbox : Detector.BBox) (d : Detection),
    d ∈ Detector.detect_aruco_in_hand_roi frame hand_bbox →
    let s := region_scale frame hand_bbox in
    let x := Detector.bx hand_bbox in
    let y := Detector.by_ hand_bbox in
    ∃ entry, entry ∈ Detector.run_aruco (region_input frame hand_bbox)
      ∧ det_id d = entry.1
      ∧ exact_point s x y (c0 (det_corners d)) (c0 entry.2)
      ∧ exact_point s x y (c1 (det_corners d)) (c1 entry.2)
      ∧ exact_point s x y (c2 (det_corners d)) (c2 entry.2)
      ∧ exact_point s x y (c3 (det_corners d)) (c3 entry.2).

(** A stand-in for the vision libraries: pixel contents are ignored, the hand
    oracle always reports one hand at the middle of the frame, and the marker
    oracle always reports a registered marker, an unregistered one and a
    registered one that is too small; the perimeter of a polygon is taken to
    be four times its first side, which is right for the axis-parallel
    squares used here. *)
Definition square (x y side : Q) : Quad :=
  {| c0 := (x, y); c1 := (x + side, y)%Q;
     c2 := (x + side, y + side)%Q; c3 := (x, y + side)%Q |}.

Definition fake_vision : Detector.Vision unit :=
  {| Detector.slice_px := λ _ _ _ _ _, ();
     Detector.gray_px := λ _, ();
     Detector.rgb_px := λ _, ();
     Detector.resize_px := λ _ _ _, ();
     Detector.GaussianBlur_px := λ _, ();
     Detector.CLAHE_px := λ _, ();
     Detector.run_aruco := λ _,
       [(20, square 100 100 40); (99, square 10 10 40); (21, square 50 50 2)];
     Detector.arcLength := λ q, (4 * ((c1 q).1 - (c0 q).1))%Q;
     Detector.hands_process := λ _,
       [{| Detector.lm_first := (1 # 2, 1 # 2)%Q; Detector.lm_rest := [] |}] |}.

Definition frame0 : Detector.Image unit :=
  {| Detector.rows := 480; Detector.cols := 640; Detector.px := () |}.

Definition bbox0 : Detector.BBox :=
  {| Detector.bx := 200; Detector.by_ := 120; Detector.bw := 240; Detector.bh := 240 |}.

(** The same vision libraries with another marker oracle. *)
Definition with_markers {Px} (V : Detector.Vision Px)
    (oracle : Detector.Image Px → list (Z * Quad)) : Detector.Vision Px :=
  {| Detector.slice_px := Detector.slice_px;
     Detector.gray_px := Detector.gray_px;
     Detector.rgb_px := Detector.rgb_px;
     Detector.resize_px := Detector.resize_px;
     Detector.GaussianBlur_px := Detector.GaussianBlur_px;
     Detector.CLAHE_px := Detector.CLAHE_px;
     Detector.run_aruco := oracle;
     Detector.arcLength := Detector.arcLength;
     Detector.hands_process := Detector.hands_process |}.

(** The reading of "on a cycle that does not run the marker detector the
    tracker records a miss for every track": the tracker ends the cycle as
    after an [update] without detections. *)
Definition miss_recorded_on_skipped_cycles : Prop :=
  ∀ (Px : Type) (V : Detector.Vision Px) (st : Pipeline.Loop)
    (frame : Detector.Image Px) (now : Q),
    (Pipeline.frame_count st + 1) `mod` Config.ARUCO_EVERY_N ≠ 0 →
    Pipeline.tracker (Pipeline.cycle st frame now).1
    = ToolTracker.update (Pipeline.tracker st) [].

(** The loop after its first four frames, with the stand-in libraries:
    frame 3 finds the hand, frame 4 detects marker 20 in its region. *)
Definition after_four_frames : Pipeline.Loop :=
  foldl (λ st now, (Pipeline.cycle (H := fake_vision) st frame0 now).1)
    Pipeline.Loop_init [1; 2; 3; 4]%Q.

(** A cycle of the console-logging timeline. *)
Abbreviation LogCycle := (Q * list TrackedTool.t)%type.

Definition log_from (lg : Pipeline.Logging) (timeline : list LogCycle) : Pipeline.Logging :=
  foldl Pipeline.log_cycle lg timeline.

(** The entries of one marker id in [last_printed] and [last_seen_time]. *)
Definition log_entry (lg : Pipeline.Logging) (tid : Z) : option Q * option Q :=
  (Pipeline.last_printed lg !! tid, Pipeline.last_seen_time lg !! tid).

(** What the second loop of the logging block does to the entries of an id
    that is not in the valid set. *)
Definition forget_entry (now : Q) (e : option Q * option Q) : option Q * option Q :=
  match e.2 with
  | Some seen => if Py.Qgtb (now - seen) Config.REPRINT_AFTER then (None, None) else e
  | None => e
  end.

(** What a cycle of the logging block does to the entries of an id. *)
Definition step_entry (now : Q) (present : bool) (e : option Q * option Q)
  : option Q * option Q :=
  if present then (Some (default now e.1), Some now)
  else match e.1 with
       | Some _ => forget_entry now e
       | None => e
       end.

(** The reading of "absent for at least the reprint window, after which the
    next appearance emits exactly one new event". *)
Definition reannounced_after_window : Prop :=
  ∀ (pre : list LogCycle) (c1 : LogCycle) (mid : list LogCycle) (c2 : LogCycle) (tid : Z),
    Pipeline.valid_in tid c1 →
    Forall (λ c, ¬ Pipeline.valid_in tid c) mid →
    Pipeline.valid_in tid c2 →
    Exists (λ c : LogCycle, (Config.REPRINT_AFTER <= c.1 - c1.1)%Q) mid →
    Pipeline.count_events tid (Pipeline.events_at (pre ++ c1 :: mid) c2) = 1%nat.

(** A valid track of marker 20, and a timeline: valid at t = 0, absent at
    t = 1, ..., 10, valid again at t = 11. *)
Definition tool20 : TrackedTool.t := TrackedTool.init 20 "scalpel" (5, 5) quad0.

Definition absent_1_to_10 : list LogCycle :=
  (λ n : nat, (inject_Z (Z.of_nat n), [])) <$> seq 1 10.

Definition absent_1_to_11 : list LogCycle :=
  (λ n : nat, (inject_Z (Z.of_nat n), [])) <$> seq 1 11.

(** The loop after its first three frames, with the stand-in libraries. *)
Definition after_three_frames : Pipeline.Loop :=
  foldl (λ st now, (Pipeline.cycle (H := fake_vision) st frame0 now).1)
    Pipeline.Loop_init [1; 2; 3]%Q.

(** The fields a contact request supplies are strings. *)
Definition supplies_strings (body : gmap string Api.JSON) : Prop :=
  ∀ key v, key ∈ ["name"; "email"; "message"]%string →
    body !! key = Some v → ∃ s, v = Api.JStr s.

(** A contact request that supplies a number as its name and nothing else. *)
Definition contact_with_numeric_name : gmap string Api.JSON :=
  {[ "name"%string := Api.JInt 5 ]}.

(** ** Vocabulary of the further properties *)

(** A tracker call that detects marker [k], and one that does not. *)
Definition detects (k : Z) (detected_tools : list Detection) : Prop :=
  k ∈ det_id <$> detected_tools.

(** The entry of a marker that has just been missed [j] times in a row:
    gone, or a valid track whose history ends with [j] misses. *)
Definition missed (j : nat) (o : option TrackedTool.t) : Prop :=
  ∀ tr, o = Some tr →
    track_ok tr ∧ ∃ h, TrackedTool.detection_history tr = h ++ replicate j 0.

(** The entry of a marker whose history is the window over a sequence that
    ends with at least [m] hits. *)
Definition counted (m : nat) (o : option TrackedTool.t) : Prop :=
  (∀ tr, o = Some tr → well_formed tr)
  ∧ ∃ l m', (m ≤ m')%nat ∧ history_of o = window (l ++ replicate m' 1).

(** A track last refreshed at tracker cycle [F] with a full history of hits,
    and missed [j] times since. *)
Record fading (F : Z) (j : nat) (tr : TrackedTool.t) : Prop := {
  fading_history :
    TrackedTool.detection_history tr = replicate (10 - j) 1 ++ replicate j 0;
  fading_seen : TrackedTool.last_seen_frame tr = F;
  fading_lost : TrackedTool.frames_lost tr = Z.of_nat j;
  fading_confidence :
    TrackedTool.confidence tr = TrackedTool.mean (TrackedTool.detection_history tr)
}.

(** The detections of marker [k] among a cycle's detections. *)
Definition detections_of (k : Z) (detected_tools : list Detection) : list Detection :=
  filter (λ d, det_id d = k) detected_tools.

(** A detection that carries a registered marker id and its registry name. *)
Definition registered_detection (d : Detection) : Prop :=
  Config.TOOL_MARKERS !! det_id d = Some (det_name d).

(** A tracker whose every entry is filed under its own id, which is a
    registered marker id, with the registry name. *)
Definition registered_tracker (self : ToolTracker.t) : Prop :=
  map_Forall (λ k tr, TrackedTool.id tr = k
                      ∧ Config.TOOL_MARKERS !! k = Some (TrackedTool.name tr))
    (ToolTracker.tracked_tools self).

(** The loop after a sequence of captured frames, each with the clock
    reading of its logging block. *)
Definition loop_run {Px} `{Detector.Vision Px} (frames : list (Detector.Image Px * Q))
  : Pipeline.Loop :=
  foldl (λ st fn, (Pipeline.cycle st fn.1 fn.2).1) Pipeline.Loop_init frames.

(** An observation that, when it is a hit, reports the center [c]. *)
Definition aimed_at (c : Z * Z) (o : Obs) : Prop :=
  match o with Hit c' _ _ => c' = c | Miss _ => True end.

(** The number of hits among observations. *)
Definition count_hits (obs : list Obs) : nat :=
  length (filter (λ o, obs_bit o = 1) obs).

(** A smoothed coordinate [s'] that is closer to the reported coordinate
    [c] than [s] was by the factor [r], up to what the rounding of the
    floats adds. *)
Definition settled (r : Q) (c : Z) (s' s : Q) : Prop :=
  (Qabs (s' - inject_Z c)
   <= r * Qabs (s - inject_Z c) + 2 ^ (-49) * Qabs (inject_Z c) + 2 ^ (-1071))%Q.

(** A hand whose landmarks are all inside the image, in normalised
    coordinates. *)
Definition normalised (hand : Detector.Hand) : Prop :=
  Forall (λ lm : Q * Q, (0 <= lm.1 <= 1 ∧ 0 <= lm.2 <= 1)%Q)
    (Detector.lm_first hand :: Detector.lm_rest hand).

(** A box that lies in a frame of the given size. *)
Definition in_frame (frame_H frame_W : Z) (b : Detector.BBox) : Prop :=
  0 ≤ Detector.bx b ∧ 0 ≤ Detector.by_ b
  ∧ 0 ≤ Detector.bw b ∧ 0 ≤ Detector.bh b
  ∧ Detector.bx b + Detector.bw b ≤ frame_W
  ∧ Detector.by_ b + Detector.bh b ≤ frame_H.

(** A box that contains the pixel position of a landmark. *)
Definition covers (frame_H frame_W : Z) (b : Detector.BBox) (lm : Q * Q) : Prop :=
  (inject_Z (Detector.bx b) <= lm.1 * inject_Z frame_W
   <= inject_Z (Detector.bx b + Detector.bw b))%Q
  ∧ (inject_Z (Detector.by_ b) <= lm.2 * inject_Z frame_H
     <= inject_Z (Detector.by_ b + Detector.bh b))%Q.

Definition hand0 : Detector.Hand :=
  {| Detector.lm_first := (1 # 2, 1 # 2)%Q;
     Detector.lm_rest := [(2 # 5, 3 # 5)%Q; (1 # 1, 0 # 1)%Q] |}.

(** Bytes that are the encodings of white-space characters and nothing
    else (no byte at all is such a sequence). *)
Inductive blank_bytes : list ascii → Prop :=
  | blank_nil : blank_bytes []
  | blank_cons (w l : list ascii) :
      w ∈ Api.WHITESPACE → blank_bytes l → blank_bytes (w ++ l).

(** A string made of white space only (the empty string is one). *)
Definition blank (s : string) : Prop := blank_bytes (list_ascii_of_string s).

(** A string that is not empty and neither starts nor ends with a
    white-space character. *)
Definition trimmed (s : string) : Prop :=
  s ≠ ""%string
  ∧ ∀ w, w ∈ Api.WHITESPACE →
      ¬ w `prefix_of` list_ascii_of_string s ∧ ¬ w `suffix_of` list_ascii_of_string s.

(** [t] is [s] without the white space at its two ends, and is not empty. *)
Definition stripped (s t : string) : Prop :=
  trimmed t
  ∧ ∃ pre post, blank_bytes pre ∧ blank_bytes post
      ∧ list_ascii_of_string s = pre ++ list_ascii_of_string t ++ post.

(** U+00A0, U+2003 and U+3000 as they are encoded. *)
Definition nbsp : string := string_of_list_ascii (map ascii_of_nat [194; 160]%nat).
Definition em_space : string :=
  string_of_list_ascii (map ascii_of_nat [226; 128; 131]%nat).
Definition ideographic_space : string :=
  string_of_list_ascii (map ascii_of_nat [227; 128; 128]%nat).

(** A stand-in for the database: the contact messages it holds. *)
Definition fake_postgres : Api.Postgres (list (string * string * string)) :=
  {| Api.insert_test_result := λ _ _ _ _, None;
     Api.insert_contact_message := λ db name email message,
       Some (db ++ [(name, email, message)]) |}.

Definition contact_padded : gmap string Api.JSON :=
  {[ "name"%string := Api.JStr (nbsp +:+ " Ada " +:+ em_space);
     "email"%string := Api.JStr "ada@example.org";
     "message"%string := Api.JStr ("hello " +:+ ideographic_space) ]}.

Definition contact_blank_name : gmap string Api.JSON :=
  {[ "name"%string := Api.JStr (" " +:+ nbsp +:+ em_space);
     "email"%string := Api.JStr "ada@example.org";
     "message"%string := Api.JStr "hello" ]}.

(** ** The WebSocket feed and the frame-rate display *)

Module Stream.

Import Pipeline.

(** [{t['id'] for t in data.get('tools', [])}]. *)
Definition tool_ids (data : Snapshot) : gset Z := list_to_set (tj_id <$> tools data).

(** [bool(data.get('events'))]. *)
Definition has_events (data : Snapshot) : bool :=
  match events data with [] => false | _ => true end.

(** One turn of the loop of [ws_detection]: [latest_data] is [None] for the
    empty dict that is there before the first cycle and while the camera is
    off.  The result is the new [last_tool_ids] and what [ws.send_json]
    sends, if anything. *)
Definition ws_poll (last_tool_ids : gset Z) (latest_data : option Snapshot)
  : gset Z * option Snapshot :=
  match latest_data with
  | Some data =>
      let current_ids := tool_ids data in
      if has_events data || bool_decide (current_ids ≠ last_tool_ids)
      then (current_ids, Some data)
      else (last_tool_ids, None)
  | None => (last_tool_ids, None)
  end.

(** The connection after a sequence of turns: [last_tool_ids] and the
    messages sent so far, in order. *)
Definition ws_turn (st : gset Z * list Snapshot) (latest_data : option Snapshot)
  : gset Z * list Snapshot :=
  let r := ws_poll st.1 latest_data in
  (r.1, st.2 ++ from_option (λ data, [data]) [] r.2).

Definition ws_run (polls : list (option Snapshot)) : gset Z * list Snapshot :=
  foldl ws_turn (∅, []) polls.

(** The tool ids a client shows when it keeps the tools of the last
    message it received. *)
Definition shown (sent : list Snapshot) : gset Z := from_option tool_ids ∅ (last sent).

(** [fps = 1.0 / max(current_time - last_time, 1e-5)]. *)
Definition fps (current_time last_time : Q) : Q :=
  (1 / Py.max (current_time - last_time) (1 # 100000))%Q.

(** [fps_history = deque(maxlen=30)] and its [append]. *)
Definition FPS_HISTORY_SIZE : nat := 30.

Definition fps_append (fps_history : list Q) (x : Q) : list Q :=
  if (length fps_history =? FPS_HISTORY_SIZE)%nat
  then tail fps_history ++ [x] else fps_history ++ [x].

(** [float(np.mean(fps_history))]. *)
Definition mean (xs : list Q) : Q :=
  (foldr Qplus 0 xs / inject_Z (Z.of_nat (length xs)))%Q.

(** The frame-rate part of a cycle: the state is [fps_history] and
    [last_time], the input the reading of [time.time()], the result the new
    state and [avg_fps]. *)
Definition fps_cycle (st : list Q * Q) (current_time : Q) : (list Q * Q) * Q :=
  let fps_history := fps_append st.1 (fps current_time st.2) in
  ((fps_history, current_time), mean fps_history).

(** [avg_fps] of the last of a sequence of cycles, [None] before the first. *)
Definition fps_run (last_time : Q) (readings : list Q) : (list Q * Q) * option Q :=
  foldl (λ acc t, let r := fps_cycle acc.1 t in (r.1, Some r.2))
    (([], last_time), None) readings.

(** A frame rate that is positive and at most [1 / 1e-5]. *)
Definition sane (x : Q) : Prop := (0 < x ∧ x <= 100000)%Q.

End Stream.

(** ** The chat relay *)

Module Chat.

Import Api.

Definition MODELS : list string :=
  ["gemini-2.0-flash"; "gemini-2.0-flash-lite"; "gemini-1.5-flash"]%string.

Definition DEFAULT_SYSTEM : string := "You are SurgiBot, a surgical assistant AI.".

Definition nl : string := String "010"%char EmptyString.

(** The answer given without an API key; it starts with a warning sign,
    U+26A0 U+FE0F. *)
Definition NO_KEY_RESPONSE : string :=
  (string_of_list_ascii (map ascii_of_nat [226; 154; 160; 239; 184; 143]%nat)
   +:+ " No Gemini API key found." +:+ nl +:+ nl
   +:+ "Add GEMINI_API_KEY=your-key to backend/.env" +:+ nl
   +:+ "Get a FREE key at: aistudio.google.com")%string.

(** The external parts of [chat]: one request to a model (the text of the
    first candidate, or the message that the [except] clauses keep in
    [last_error]) and the conversion of a value that is not a [str] inside an
    f-string. *)
Class Gemini := {
  generate : string → string → JSON → JSON + string;
  repr : JSON → string
}.

(** Truth value of a decoded JSON value. *)
Definition truthy (v : JSON) : bool :=
  match v with
  | JNull => false
  | JBool b => b
  | JInt n => negb (n =? 0)
  | JFloat x => negb (Qeq_bool x 0)
  | JStr s => negb (bool_decide (s = ""%string))
  | JList l => match l with [] => false | _ => true end
  | JDict d => match d with [] => false | _ => true end
  end.

(** [m[key]] on a decoded value: only an object can be indexed by a string;
    the keys of a decoded object are distinct. *)
Definition subscript (m : JSON) (key : string) : JSON + string :=
  match m with
  | JDict d =>
      match list_find (λ kv : string * JSON, kv.1 = key) d with
      | Some (_, kv) => inl kv.2
      | None => inr "KeyError"%string
      end
  | _ => inr "TypeError"%string
  end.

Definition turn (role : string) (text : JSON) : JSON :=
  JDict [("role"%string, JStr role);
         ("parts"%string, JList [JDict [("text"%string, text)]])].

(** [role == "user"]. *)
Definition is_user (role : JSON) : bool :=
  match role with JStr s => bool_decide (s = "user"%string) | _ => false end.

(** What [messages[:-1]] and [messages[-1]] work on: a list; the empty
    string passes as an empty list.  A longer string fails when its first
    character is indexed by a key, and so does every other value when it is
    sliced (a dict with KeyError from Python 3.12 on). *)
Definition sequence (messages : JSON) : list JSON + string :=
  match messages with
  | JList ms => inl ms
  | JStr EmptyString => inl []
  | _ => inr "TypeError"%string
  end.

(** One iteration of [for m in messages[:-1]]. *)
Definition earlier_turn (m : JSON) : JSON + string :=
  match subscript m "role" with
  | inr exc => inr exc
  | inl role =>
      match subscript m "content" with
      | inr exc => inr exc
      | inl content =>
          inl (turn (if is_user role then "user" else "model") content)
      end
  end.

Fixpoint earlier_turns (ms : list JSON) : list JSON + string :=
  match ms with
  | [] => inl []
  | m :: rest =>
      match earlier_turn m with
      | inr exc => inr exc
      | inl t =>
          match earlier_turns rest with
          | inr exc => inr exc
          | inl ts => inl (t :: ts)
          end
      end
  end.

Section Handler.
Context `{Gemini}.

(** A value inside an f-string. *)
Definition fmt (v : JSON) : string :=
  match v with JStr s => s | _ => repr v end.

(** The request body sent to every model, or the exception that building it
    raises: each message but the last needs a role and a content, the last
    a content. *)
Definition payload (body : gmap string JSON) : JSON + string :=
  let messages := default (JList []) (body !! "messages"%string) in
  let system := default (JStr DEFAULT_SYSTEM) (body !! "system"%string) in
  let context := default (JStr "") (body !! "context"%string) in
  match sequence messages with
  | inr exc => inr exc
  | inl ms =>
      match earlier_turns (removelast ms) with
      | inr exc => inr exc
      | inl contents =>
          match (match last ms with
                 | Some m => subscript m "content"
                 | None => inl (JStr "")
                 end) with
          | inr exc => inr exc
          | inl last_text =>
              let final :=
                if truthy context
                then JStr ("[Live OR data: " +:+ fmt context +:+ "]" +:+ nl +:+ nl
                           +:+ fmt last_text)
                else last_text in
              inl (JDict
                     [("system_instruction"%string,
                       JDict [("parts"%string, JList [JDict [("text"%string, system)]])]);
                      ("contents"%string, JList (contents ++ [turn "user" final]));
                      ("generationConfig"%string,
                       JDict [("maxOutputTokens"%string, JInt 512);
                              ("temperature"%string, JFloat (7 # 10))])])
          end
      end
  end.

(** [for model_name in MODELS]: the first answer is returned; when every
    model fails, the last error is reported. *)
Fixpoint try_models (api_key : string) (request : JSON) (models : list string)
    (last_error : string) : Outcome :=
  match models with
  | [] =>
      JSONResponse
        (JDict [("response"%string,
                 JStr ("All models failed. Last error: " +:+ last_error))]) 200
  | model_name :: rest =>
      match generate model_name api_key request with
      | inl text => JSONResponse (JDict [("response"%string, text)]) 200
      | inr err => try_models api_key request rest err
      end
  end.

(** [chat]; [key_env] is [os.environ.get("GEMINI_API_KEY", "")]. *)
Definition chat (key_env : string) (body : gmap string JSON) : Outcome :=
  let api_key := str_strip key_env in
  if bool_decide (api_key = ""%string) then
    JSONResponse (JDict [("response"%string, JStr NO_KEY_RESPONSE)]) 200
  else
    match payload body with
    | inr exc => Raised exc
    | inl request => try_models api_key request MODELS ""
    end.

End Handler.

End Chat.

(** Stand-ins for the service: one whose first model is over its quota and
    whose other models answer, and one where every model fails with its own
    name as the error. *)
Definition fake_gemini : Chat.Gemini :=
  {| Chat.generate := λ model_name _ _,
       if bool_decide (model_name = "gemini-2.0-flash"%string)
       then inr "quota exceeded"%string
       else inl (Api.JStr model_name);
     Chat.repr := λ _, ""%string |}.

Definition down_gemini : Chat.Gemini :=
  {| Chat.generate := λ model_name _ _, inr model_name;
     Chat.repr := λ _, ""%string |}.

Definition message (role content : string) : Api.JSON :=
  Api.JDict [("role"%string, Api.JStr role); ("content"%string, Api.JStr content)].

Definition chat_body : gmap string Api.JSON :=
  {[ "messages"%string :=
       Api.JList [message "user" "hi"; message "assistant" "hello";
                  message "user" "which tool is next?"];
     "context"%string := Api.JStr "Scalpel" ]}.

(** A history with a message that has no content. *)
Definition chat_body_broken : gmap string Api.JSON :=
  {[ "messages"%string :=
       Api.JList [Api.JDict [("role"%string, Api.JStr "user")];
                  message "user" "which tool is next?"] ]}.

(** The model fails on this request. *)
Definition fails `{Chat.Gemini} (api_key : string) (request : Api.JSON)
    (model_name : string) : Prop :=
  ∃ err, Chat.generate model_name api_key request = inr err.

(** A turn of the conversation that is sent with one of the two roles the
    service knows. *)
Definition role_known (t : Api.JSON) : Prop :=
  Chat.subscript t "role" = inl (Api.JStr "user")
  ∨ Chat.subscript t "role" = inl (Api.JStr "model").

(** A message that [chat] can read as an earlier turn. *)
Definition readable (m : Api.JSON) : Prop :=
  (∃ role, Chat.subscript m "role" = inl role)
  ∧ (∃ content, Chat.subscript m "content" = inl content).

(** ** Rounding to a binary float *)

Module FloatFacts.

Lemma rint_error (y : Q) : (Qabs (inject_Z (Py.rint y) - y) <= 1 # 2)%Q.
Proof.
  unfold Py.rint. cbv zeta.
  pose proof (Qfloor_le y) as Hlo. pose proof (Qlt_floor y) as Hhi.
  rewrite inject_Z_plus in Hhi. change (inject_Z 1) with 1%Q in Hhi.
  apply Qabs_Qle_condition.
  destruct (Py.Qltb (y - inject_Z (Qfloor y)) (1 # 2)) eqn:E1.
  { unfold Py.Qltb in E1. apply negb_true_iff in E1.
    assert (¬ (1 # 2 <= y - inject_Z (Qfloor y))%Q) as H1
      by (intros H; apply Qle_bool_iff in H; congruence).
    apply Qnot_le_lt in H1. split; lra. }
  unfold Py.Qltb in E1. apply negb_false_iff, Qle_bool_iff in E1.
  destruct (Py.Qgtb (y - inject_Z (Qfloor y)) (1 # 2)) eqn:E2.
  { rewrite inject_Z_plus. change (inject_Z 1) with 1%Q. split; lra. }
  unfold Py.Qgtb in E2. apply negb_false_iff, Qle_bool_iff in E2.
  destruct (Z.even (Qfloor y)).
  - split; lra.
  - rewrite inject_Z_plus. change (inject_Z 1) with 1%Q. split; lra.
Qed.

Lemma pow2_pos (e : Z) : (0 < 2 ^ e)%Q.
Proof. apply Qpower_0_lt. done. Qed.

Lemma pow2_plus (a b : Z) : (2 ^ (a + b) == 2 ^ a * 2 ^ b)%Q.
Proof. apply Qpower_plus. done. Qed.

Lemma pow2_inject (a : Z) : 0 ≤ a → (inject_Z (2 ^ a) == 2 ^ a)%Q.
Proof. intros Ha. by rewrite Zpower_Qpower. Qed.

Lemma ilog2_lower (x : Q) : ¬ (x == 0)%Q → (2 ^ Py.ilog2 x <= Qabs x)%Q.
Proof.
  intros Hx. unfold Py.ilog2. cbv zeta.
  set (n := Z.abs (Qnum x)). set (d := Zpos (Qden x)).
  destruct (Qle_bool _ _) eqn:E; [by apply Qle_bool_iff|]. clear E.
  assert (0 < n) as Hn.
  { unfold n. destruct x as [xn xd]. unfold Qeq in Hx. simpl in *. lia. }
  assert (0 < d) as Hd by (unfold d; lia).
  pose proof (Z.log2_spec n Hn) as [Ha _].
  pose proof (Z.log2_spec d Hd) as [_ Hb].
  pose proof (Z.log2_nonneg n) as Ha0. pose proof (Z.log2_nonneg d) as Hb0.
  set (a := Z.log2 n) in *. set (b := Z.log2 d) in *.
  assert (Qabs x == inject_Z n / inject_Z d)%Q as ->.
  { destruct x as [xn xd]. unfold n, d. simpl. apply Qmake_Qdiv. }
  assert (0 < inject_Z d)%Q as Hdq
    by (change 0%Q with (inject_Z 0); rewrite <- Zlt_Qlt; done).
  apply Qle_shift_div_l; [done|].
  replace (a - b - 1) with (a + - Z.succ b) by lia.
  rewrite pow2_plus, Qpower_opp.
  assert (inject_Z d <= 2 ^ Z.succ b)%Q as Hdb.
  { rewrite <- pow2_inject by lia. rewrite <- Zle_Qle. lia. }
  assert (2 ^ a <= inject_Z n)%Q as Han.
  { rewrite <- pow2_inject by lia. by rewrite <- Zle_Qle. }
  pose proof (pow2_pos (Z.succ b)) as Hp. pose proof (pow2_pos a) as Hpa.
  apply Qle_trans with (2 ^ a)%Q; [|done].
  apply Qle_trans with (2 ^ a * / 2 ^ Z.succ b * 2 ^ Z.succ b)%Q.
  - apply Qmult_le_l; [|done].
    apply Qmult_lt_0_compat; [done|]. by apply Qinv_lt_0_compat.
  - rewrite <- Qmult_assoc, (Qmult_comm (/ _)), Qmult_inv_r, Qmult_1_r.
    + apply Qle_refl.
    + intros H0. rewrite H0 in Hp. by apply Qlt_irrefl in Hp.
Qed.

(** The error of a rounding: half a unit in the last place. *)
Lemma fround_error (prec emin : Z) (x : Q) :
  (Qabs (Py.fround prec emin x - x) <= 2 ^ (- prec) * Qabs x + 2 ^ (emin - prec))%Q.
Proof.
  pose proof (pow2_pos (- prec)) as Hu. pose proof (pow2_pos (emin - prec)) as He.
  pose proof (Qabs_nonneg x) as Hax.
  replace (emin - prec) with (emin + - prec) in * by lia.
  unfold Py.fround. destruct (Qeq_bool x 0) eqn:E.
  { apply Qeq_bool_iff in E. rewrite E. simpl.
    rewrite Qmult_0_r, Qplus_0_l. by apply Qlt_le_weak. }
  assert (¬ (x == 0)%Q) as Hx by (intros H; apply Qeq_bool_iff in H; congruence).
  cbv zeta. rewrite Qred_correct.
  set (E' := Z.max (Py.ilog2 x) emin).
  assert (0 < 2 ^ (E' - prec + 1))%Q as Hulp by apply pow2_pos.
  assert ((1 # 2) * 2 ^ (E' - prec + 1) == 2 ^ (E' + - prec))%Q as Hhalf.
  { replace (E' - prec + 1) with ((E' + - prec) + 1) by lia.
    rewrite (pow2_plus (E' + - prec) 1). change (2 ^ 1)%Q with 2%Q. field. }
  set (ulp := (2 ^ (E' - prec + 1))%Q) in *.
  assert (¬ (ulp == 0)%Q) as Hulp0 by (intros H; rewrite H in Hulp; by apply Qlt_irrefl in Hulp).
  assert (inject_Z (Py.rint (x / ulp)) * ulp - x
          == (inject_Z (Py.rint (x / ulp)) - x / ulp) * ulp)%Q as -> by (field; done).
  rewrite Qabs_Qmult, (Qabs_pos ulp) by (by apply Qlt_le_weak).
  pose proof (rint_error (x / ulp)) as Hr.
  apply Qle_trans with ((1 # 2) * ulp)%Q;
    [apply Qmult_le_compat_r; [done | by apply Qlt_le_weak]|].
  rewrite Hhalf. rewrite !pow2_plus.
  pose proof (pow2_pos emin) as Hem. pose proof (pow2_pos (Py.ilog2 x)) as Hil.
  pose proof (ilog2_lower x Hx) as Hl.
  assert (2 ^ E' <= Qabs x + 2 ^ emin)%Q as Hmax.
  { destruct (Z.max_spec (Py.ilog2 x) emin) as [[_ Hm]|[_ Hm]]; fold E' in Hm; rewrite Hm.
    - set (a := (2 ^ emin)%Q) in *. lra.
    - set (a := (2 ^ emin)%Q) in *. set (b := (2 ^ Py.ilog2 x)%Q) in *. lra. }
  rewrite (Qmult_comm (2 ^ (- prec))), <- Qmult_plus_distr_l.
  apply Qmult_le_compat_r; [done | by apply Qlt_le_weak].
Qed.

(** Two forms of the triangle inequality. *)
Lemma Qabs_sub_triangle (a b c : Q) : (Qabs (a - c) <= Qabs (a - b) + Qabs (b - c))%Q.
Proof.
  assert (a - c == (a - b) + (b - c))%Q as -> by ring. apply Qabs_triangle.
Qed.

Lemma Qabs_bound (a b : Q) : (Qabs a <= Qabs (a - b) + Qabs b)%Q.
Proof.
  assert (a == (a - b) + b)%Q as E by ring. rewrite E at 1. apply Qabs_triangle.
Qed.

(** The two formats, with their constants written out. *)
Lemma f32_error (x : Q) :
  (Qabs (Py.f32 x - x) <= (1 # 16777216) * Qabs x + 2 ^ (-150))%Q.
Proof.
  pose proof (fround_error 24 (-126) x) as H.
  assert (2 ^ (-24) == 1 # 16777216)%Q as E by (by vm_compute).
  rewrite E in H. exact H.
Qed.

Lemma f64_error (x : Q) :
  (Qabs (Py.f64 x - x) <= (1 # 9007199254740992) * Qabs x + 2 ^ (-1075))%Q.
Proof.
  pose proof (fround_error 53 (-1022) x) as H.
  assert (2 ^ (-53) == 1 # 9007199254740992)%Q as E by (by vm_compute).
  rewrite E in H. exact H.
Qed.

(** The least spacings of the two formats, against each other. *)
Lemma eta_small :
  (0 < 2 ^ (-1075) ∧ 2 ^ (-1075) <= (1 # 4) * 2 ^ (-150)
   ∧ 0 < 2 ^ (-150) ∧ 2 ^ (-150) <= 1 # 1125899906842624)%Q.
Proof.
  split; [apply pow2_pos|]. split; [|split; [apply pow2_pos|]].
  - unfold Qle. vm_compute. discriminate.
  - unfold Qle. vm_compute. discriminate.
Qed.

End FloatFacts.


(** * Properties *)

(** ** The detection history and the confidence of a track *)

Module TrackedToolFacts.

Import Config.

Lemma Zpos_of_nat (n : nat) : n ≠ 0%nat → Z.pos (Pos.of_nat n) = Z.of_nat n.
Proof.
  intros Hn. rewrite <- positive_nat_Z, Nat2Pos.id by done. done.
Qed.

Lemma sum_app (h k : list Z) : Py.sum (h ++ k) = Py.sum h + Py.sum k.
Proof. unfold Py.sum. induction h as [|b h IH]; simpl; lia. Qed.

Lemma sum_hits (h : list Z) : bits h → Py.sum h = Z.of_nat (hits h).
Proof.
  unfold bits, hits, Py.sum. induction 1 as [|b h Hb _ IH]; [done|].
  rewrite filter_cons. simpl. rewrite IH.
  destruct Hb as [-> | ->]; case_decide; simpl; lia.
Qed.

Lemma hits_le_length (h : list Z) : (hits h ≤ length h)%nat.
Proof. apply length_filter. Qed.

Lemma bits_app (h k : list Z) : bits h → bits k → bits (h ++ k).
Proof. apply Forall_app_2. Qed.

Lemma bits_tail (h : list Z) : bits h → bits (tail h).
Proof. destruct 1; [constructor | done]. Qed.

Lemma bits_drop (n : nat) (h : list Z) : bits h → bits (drop n h).
Proof. apply Forall_drop. Qed.

Lemma deque_append_bits (h : list Z) (b : Z) :
  bits h → b = 0 ∨ b = 1 → bits (Py.deque_append DETECTION_HISTORY_SIZE h b).
Proof.
  intros Hh Hb. unfold Py.deque_append.
  assert (bits [b]) by (by apply Forall_singleton).
  destruct (_ =? _)%nat; apply bits_app; auto using bits_tail.
Qed.

Lemma deque_append_length (h : list Z) (b : Z) :
  (length h ≤ DETECTION_HISTORY_SIZE)%nat →
  length (Py.deque_append DETECTION_HISTORY_SIZE h b)
  = Nat.min (S (length h)) DETECTION_HISTORY_SIZE.
Proof.
  unfold DETECTION_HISTORY_SIZE. intros Hle. unfold Py.deque_append.
  destruct (Nat.eqb_spec (length h) 10) as [E|E].
  - rewrite length_app. destruct h; simpl in *; [done | lia].
  - rewrite length_app. simpl. lia.
Qed.

(** The deque keeps the last [DETECTION_HISTORY_SIZE] entries. *)
Lemma deque_append_window (l : list Z) (b : Z) :
  Py.deque_append DETECTION_HISTORY_SIZE (window l) b = window (l ++ [b]).
Proof.
  unfold Py.deque_append, window, DETECTION_HISTORY_SIZE.
  rewrite length_drop, length_app. simpl.
  destruct (Nat.eqb_spec (length l - (length l - 10)) 10) as [E|E].
  - assert (10 ≤ length l)%nat as Hle by lia.
    replace (length l + 1 - 10)%nat with (S (length l - 10)) by lia.
    rewrite drop_app_le by lia. f_equal.
    generalize (length l - 10)%nat as n. clear.
    induction l as [|x l IH]; intros [|n]; simpl; auto using drop_0.
  - assert (length l < 10)%nat as Hlt by lia.
    replace (length l - 10)%nat with 0%nat by lia.
    replace (length l + 1 - 10)%nat with 0%nat by lia.
    by rewrite !drop_0.
Qed.

Lemma window_length (l : list Z) :
  length (window l) = Nat.min (length l) DETECTION_HISTORY_SIZE.
Proof. unfold window. rewrite length_drop. lia. Qed.

Lemma window_bits (l : list Z) : bits l → bits (window l).
Proof. apply bits_drop. Qed.

(** The mean of a history of hits and misses is the share of hits. *)
Lemma mean_hits (h : list Z) :
  bits h → TrackedTool.mean h = (Z.of_nat (hits h) # Pos.of_nat (length h)).
Proof. intros Hh. unfold TrackedTool.mean. by rewrite sum_hits. Qed.

Lemma mean_range (h : list Z) :
  bits h → h ≠ [] → (0 <= TrackedTool.mean h <= 1)%Q.
Proof.
  intros Hh Hne. rewrite mean_hits by done.
  pose proof (hits_le_length h) as Hle.
  assert (length h ≠ 0%nat) as Hlen by (by destruct h).
  unfold Qle. simpl. rewrite Zpos_of_nat by done. lia.
Qed.

(** Appending a hit to the deque does not lower the mean. *)
Lemma mean_hit_mono (h : list Z) :
  bits h → (length h ≤ DETECTION_HISTORY_SIZE)%nat →
  (TrackedTool.mean h <= TrackedTool.mean (Py.deque_append DETECTION_HISTORY_SIZE h 1))%Q.
Proof.
  unfold DETECTION_HISTORY_SIZE. intros Hh Hlen. unfold Py.deque_append.
  destruct (Nat.eqb_spec (length h) 10) as [E|E].
  - destruct Hh as [|b h Hb Hh]; [done|]. simpl in *.
    unfold TrackedTool.mean, Qle. simpl. rewrite sum_app, length_app. simpl.
    replace (length h + 1)%nat with (S (length h)) by lia.
    destruct Hb as [-> | ->]; nia.
  - unfold TrackedTool.mean, Qle. simpl. rewrite sum_app, length_app. simpl.
    pose proof (hits_le_length h) as Hle. rewrite sum_hits by done.
    destruct (decide (length h = 0%nat)) as [Z0|NZ].
    + destruct h; [|done]. done.
    + rewrite !Zpos_of_nat by lia. nia.
Qed.

Lemma deque_append_nonempty (h : list Z) (b : Z) :
  Py.deque_append DETECTION_HISTORY_SIZE h b ≠ [].
Proof.
  unfold Py.deque_append. destruct (_ =? _)%nat; intros E;
    by apply app_eq_nil in E as [_ ?].
Qed.

Lemma deque_append_length_le (h : list Z) (b : Z) :
  (length h ≤ DETECTION_HISTORY_SIZE)%nat →
  (length (Py.deque_append DETECTION_HISTORY_SIZE h b) ≤ DETECTION_HISTORY_SIZE)%nat.
Proof. intros Hle. rewrite deque_append_length by done. lia. Qed.

Lemma well_formed_init tool_id tool_name c cs :
  well_formed (TrackedTool.init tool_id tool_name c cs).
Proof.
  split; simpl; [| done | vm_compute; lia | done].
  by apply Forall_singleton; right.
Qed.

Lemma well_formed_update tr c cs current_frame :
  well_formed tr → well_formed (TrackedTool.update tr c cs current_frame).
Proof.
  intros [Hb Hn Hl Hc]. split; simpl;
    auto using deque_append_bits, deque_append_nonempty, deque_append_length_le.
Qed.

Lemma well_formed_predict tr current_frame :
  well_formed tr → well_formed (TrackedTool.predict tr current_frame).
Proof.
  intros [Hb Hn Hl Hc]. split; simpl;
    auto using deque_append_bits, deque_append_nonempty, deque_append_length_le.
Qed.

Lemma well_formed_apply_obs tr o : well_formed tr → well_formed (apply_obs tr o).
Proof. destruct o; simpl; auto using well_formed_update, well_formed_predict. Qed.

Lemma well_formed_run tr obs : well_formed tr → well_formed (foldl apply_obs tr obs).
Proof.
  revert tr. induction obs as [|o obs IH]; simpl; auto using well_formed_apply_obs.
Qed.

Lemma history_apply_obs tr o :
  TrackedTool.detection_history (apply_obs tr o)
  = Py.deque_append DETECTION_HISTORY_SIZE (TrackedTool.detection_history tr) (obs_bit o).
Proof. by destruct o. Qed.

(** The history of a track is the window over everything it has recorded:
    the hit of its creation, then one entry per later cycle. *)
Lemma history_run tool_id tool_name c cs (obs : list Obs) :
  TrackedTool.detection_history
    (foldl apply_obs (TrackedTool.init tool_id tool_name c cs) obs)
  = window (1 :: (obs_bit <$> obs)).
Proof.
  induction obs as [|o obs IH] using rev_ind; [done|].
  rewrite foldl_app. simpl. rewrite history_apply_obs, IH, deque_append_window.
  by rewrite fmap_app.
Qed.

(** Whatever the sequence of [update] and [predict] calls after its creation,
    a track's confidence is the number of hits in its history divided by
    min(n, 10), where n counts the creation and the calls; the history is
    the last 10 entries of what the track recorded. *)
Lemma confidence_of_calls tool_id tool_name c cs (obs : list Obs) :
  let tr := foldl apply_obs (TrackedTool.init tool_id tool_name c cs) obs in
  let cycles_seen := S (length obs) in
  TrackedTool.detection_history tr = window (1 :: (obs_bit <$> obs)) ∧
  TrackedTool.confidence tr
  = (Z.of_nat (hits (TrackedTool.detection_history tr))
     # Pos.of_nat (Nat.min cycles_seen DETECTION_HISTORY_SIZE)) ∧
  (0 <= TrackedTool.confidence tr <= 1)%Q.
Proof.
  intros tr cycles_seen.
  pose proof (well_formed_run _ obs (well_formed_init tool_id tool_name c cs))
    as [Hb Hn Hl Hc]. fold tr in Hb, Hn, Hl, Hc.
  assert (TrackedTool.detection_history tr = window (1 :: (obs_bit <$> obs)))
    as Hh by apply history_run.
  split; [done|]. rewrite Hc. split.
  - rewrite mean_hits by done. do 2 f_equal.
    rewrite Hh, window_length. simpl. by rewrite length_fmap.
  - by apply mean_range.
Qed.

(** Evaluations: a track that is created and then missed twice, and a deque
    that is full. *)
Example history_after_two_misses :
  let tr := foldl apply_obs (TrackedTool.init 20 "scalpel" (5, 5) quad0) [Miss 2; Miss 3] in
  TrackedTool.detection_history tr = [1; 0; 0]
  ∧ TrackedTool.confidence tr = (1 # 3)%Q
  ∧ TrackedTool.is_valid tr = false.
Proof. vm_compute. repeat split. Qed.

Example deque_append_full :
  Py.deque_append DETECTION_HISTORY_SIZE [1; 0; 0; 1; 1; 1; 0; 1; 1; 1] 0
  = [0; 0; 1; 1; 1; 0; 1; 1; 1; 0].
Proof. reflexivity. Qed.

End TrackedToolFacts.

(** ** The tracker, one key at a time *)

Module ToolTrackerFacts.

Import Config.

Section PerKey.
Variable fc : Z.

Lemma observe_fold_seen (dets : list Detection) (acc : gmap Z TrackedTool.t * gset Z) :
  (foldl (ToolTracker.observe fc) acc dets).2 = list_to_set (det_id <$> dets) ∪ acc.2.
Proof.
  revert acc. induction dets as [|d dets IH]; intros acc; simpl.
  - set_solver.
  - rewrite IH. simpl. set_solver.
Qed.

Lemma observe_lookup (acc : gmap Z TrackedTool.t * gset Z) (d : Detection) (k : Z) :
  (ToolTracker.observe fc acc d).1 !! k = observe_track fc k (acc.1 !! k) d.
Proof.
  unfold ToolTracker.observe, observe_track. simpl.
  destruct (decide (det_id d = k)) as [<- | Hne].
  - destruct (acc.1 !! det_id d); by rewrite lookup_insert_eq.
  - destruct (acc.1 !! det_id d); by rewrite lookup_insert_ne.
Qed.

Lemma observe_fold_lookup (dets : list Detection) (acc : gmap Z TrackedTool.t * gset Z)
    (k : Z) :
  (foldl (ToolTracker.observe fc) acc dets).1 !! k
  = foldl (observe_track fc k) (acc.1 !! k) dets.
Proof.
  revert acc. induction dets as [|d dets IH]; intros acc; simpl; [done|].
  by rewrite IH, observe_lookup.
Qed.

(** Detections of other markers leave the entry alone. *)
Lemma observe_track_others (dets : list Detection) (k : Z) (o : option TrackedTool.t) :
  k ∉ det_id <$> dets → foldl (observe_track fc k) o dets = o.
Proof.
  revert o. induction dets as [|d dets IH]; intros o Hk; simpl; [done|].
  rewrite fmap_cons, not_elem_of_cons in Hk. destruct Hk as [Hd Hk].
  unfold observe_track at 2. rewrite decide_False by done. by apply IH.
Qed.

Lemma sweep_lookup (seen : gset Z) (tools : gmap Z TrackedTool.t) (a k : Z) :
  ToolTracker.sweep fc seen tools a !! k
  = if decide (a = k)
    then (if decide (k ∈ seen) then tools !! k else sweep_track fc (tools !! k))
    else tools !! k.
Proof.
  unfold ToolTracker.sweep, sweep_track.
  destruct (decide (a = k)) as [-> | Hne].
  - destruct (decide (k ∈ seen)); [done|].
    destruct (tools !! k) as [tr|] eqn:E; simpl; [|done].
    destruct (TrackedTool.is_valid _).
    + by rewrite lookup_insert_eq.
    + by rewrite lookup_delete_eq.
  - destruct (decide (a ∈ seen)); [done|].
    destruct (tools !! a) as [tr|] eqn:E; simpl; [|done].
    destruct (TrackedTool.is_valid _).
    + by rewrite lookup_insert_ne.
    + by rewrite lookup_delete_ne, lookup_insert_ne.
Qed.

Lemma sweep_fold_lookup (seen : gset Z) (ks : list Z) (tools : gmap Z TrackedTool.t)
    (k : Z) :
  NoDup ks →
  foldl (ToolTracker.sweep fc seen) tools ks !! k
  = if decide (k ∈ ks)
    then (if decide (k ∈ seen) then tools !! k else sweep_track fc (tools !! k))
    else tools !! k.
Proof.
  intros Hnd. revert tools.
  induction Hnd as [|a ks Ha Hnd IH]; intros tools; cbn [foldl].
  - rewrite decide_False; [done | apply not_elem_of_nil].
  - rewrite IH, sweep_lookup. destruct (decide (a = k)) as [-> | Hne].
    + rewrite (decide_False (P := k ∈ ks)) by done.
      rewrite (decide_True (P := k ∈ k :: ks)); [done | apply elem_of_cons; by left].
    + destruct (decide (k ∈ ks)) as [Hin|Hout].
      * rewrite (decide_True (P := k ∈ a :: ks)); [done | apply elem_of_cons; by right].
      * rewrite (decide_False (P := k ∈ a :: ks)); [done|].
        rewrite elem_of_cons. intros [?|?]; congruence.
Qed.

End PerKey.

Lemma elem_of_keys {V} (d : gmap Z V) (k : Z) : k ∈ Py.keys d ↔ is_Some (d !! k).
Proof.
  unfold Py.keys. rewrite list_elem_of_fmap. split.
  - intros [[k' v] [-> Hin]]. apply elem_of_map_to_list in Hin. by exists v.
  - intros [v Hv]. exists (k, v). split; [done|]. by apply elem_of_map_to_list.
Qed.

Lemma elem_of_values {V} (d : gmap Z V) (v : V) : v ∈ Py.values d ↔ ∃ k, d !! k = Some v.
Proof.
  unfold Py.values. rewrite list_elem_of_fmap. split.
  - intros [[k v'] [-> Hin]]. apply elem_of_map_to_list in Hin. by exists k.
  - intros [k Hk]. exists (k, v). split; [done|]. by apply elem_of_map_to_list.
Qed.

(** The entry of key [k] after [update]: the detections of [k] applied in
    order when there are some, otherwise a miss and the validity check. *)
Lemma update_lookup (self : ToolTracker.t) (dets : list Detection) (k : Z) :
  ToolTracker.tracked_tools (ToolTracker.update self dets) !! k
  = let fc := ToolTracker.frame_count self + 1 in
    if decide (k ∈ det_id <$> dets)
    then foldl (observe_track fc k) (ToolTracker.tracked_tools self !! k) dets
    else sweep_track fc (ToolTracker.tracked_tools self !! k).
Proof.
  unfold ToolTracker.update. simpl.
  set (fc := ToolTracker.frame_count self + 1).
  set (acc := foldl (ToolTracker.observe fc) (ToolTracker.tracked_tools self, ∅) dets).
  assert (acc.2 = list_to_set (det_id <$> dets)) as Hseen.
  { unfold acc. rewrite observe_fold_seen. simpl. set_solver. }
  assert (acc.1 !! k = foldl (observe_track fc k) (ToolTracker.tracked_tools self !! k) dets)
    as Hk by apply observe_fold_lookup.
  rewrite sweep_fold_lookup by apply NoDup_fst_map_to_list.
  rewrite Hseen. destruct (decide (k ∈ det_id <$> dets)) as [Hin|Hout].
  - rewrite (decide_True (P := k ∈ list_to_set _)) by set_solver.
    by destruct (decide _).
  - rewrite (decide_False (P := k ∈ list_to_set _)) by set_solver.
    rewrite Hk, observe_track_others by done.
    destruct (decide (k ∈ Py.keys acc.1)) as [_|Hnk]; [done|].
    rewrite elem_of_keys, Hk, observe_track_others in Hnk by done.
    destruct (ToolTracker.tracked_tools self !! k); [|done].
    by destruct Hnk.
Qed.

Lemma update_frame_count (self : ToolTracker.t) (dets : list Detection) :
  ToolTracker.frame_count (ToolTracker.update self dets) = ToolTracker.frame_count self + 1.
Proof. done. Qed.

(** *** Every retained track is valid *)

Lemma is_valid_iff (tr : TrackedTool.t) :
  TrackedTool.is_valid tr = true
  ↔ TrackedTool.frames_lost tr ≤ MAX_LOST_FRAMES
    ∧ (MIN_CONFIDENCE_THRESHOLD <= TrackedTool.confidence tr)%Q.
Proof.
  unfold TrackedTool.is_valid, Py.Qgeb.
  by rewrite andb_true_iff, Z.leb_le, Qle_bool_iff.
Qed.

(** A hit does not lower the confidence of a well-formed track. *)
Lemma update_confidence_mono tr c cs current_frame :
  well_formed tr →
  (TrackedTool.confidence tr
   <= TrackedTool.confidence (TrackedTool.update tr c cs current_frame))%Q.
Proof.
  intros [Hb Hn Hl Hc]. rewrite Hc. simpl.
  by apply TrackedToolFacts.mean_hit_mono.
Qed.

Lemma track_ok_init tool_id tool_name c cs :
  track_ok (TrackedTool.init tool_id tool_name c cs).
Proof. split; [apply TrackedToolFacts.well_formed_init | done]. Qed.

Lemma track_ok_update tr c cs current_frame :
  track_ok tr → track_ok (TrackedTool.update tr c cs current_frame).
Proof.
  intros [Hwf Hv]. split; [by apply TrackedToolFacts.well_formed_update|].
  apply is_valid_iff in Hv as [_ Hconf]. apply is_valid_iff. split; [done|].
  eapply Qle_trans; [exact Hconf|]. by apply update_confidence_mono.
Qed.

Lemma observe_track_ok fc k (o : option TrackedTool.t) (dets : list Detection) :
  (∀ tr, o = Some tr → track_ok tr) →
  ∀ tr, foldl (observe_track fc k) o dets = Some tr → track_ok tr.
Proof.
  revert o. induction dets as [|d dets IH]; intros o Ho; simpl; [done|].
  apply IH. unfold observe_track. intros tr.
  destruct (decide (det_id d = k)); [|by apply Ho].
  intros [= <-]. destruct o as [tr0|].
  - apply track_ok_update. by apply Ho.
  - apply track_ok_init.
Qed.

Lemma sweep_track_ok fc (o : option TrackedTool.t) :
  (∀ tr, o = Some tr → track_ok tr) →
  ∀ tr, sweep_track fc o = Some tr → track_ok tr.
Proof.
  intros Ho tr. unfold sweep_track. destruct o as [tr0|]; [|done].
  simpl. destruct (TrackedTool.is_valid _) eqn:Hv; [|done].
  intros [= <-]. split; [|done].
  apply TrackedToolFacts.well_formed_predict. by apply Ho.
Qed.

Lemma tracker_ok_init : tracker_ok ToolTracker.init.
Proof. apply map_Forall_empty. Qed.

Lemma tracker_ok_update (self : ToolTracker.t) (dets : list Detection) :
  tracker_ok self → tracker_ok (ToolTracker.update self dets).
Proof.
  intros Hok k tr. rewrite update_lookup. simpl.
  assert (∀ tr0, ToolTracker.tracked_tools self !! k = Some tr0 → track_ok tr0)
    as Hk by (intros tr0; apply Hok).
  destruct (decide _); [by apply observe_track_ok | by apply sweep_track_ok].
Qed.

Lemma tracker_ok_run (self : ToolTracker.t) (calls : list (list Detection)) :
  tracker_ok self → tracker_ok (ToolTracker.run self calls).
Proof.
  unfold ToolTracker.run. revert self.
  induction calls as [|dets calls IH]; intros self Hok; simpl;
    auto using tracker_ok_update.
Qed.

Lemma filter_all {A} (P : A → Prop) `{∀ x, Decision (P x)} (l : list A) :
  Forall P l → filter P l = l.
Proof.
  induction 1 as [|x l Hx _ IH]; [done|]. by rewrite filter_cons_True, IH.
Qed.

(** C10. After any sequence of [update] calls on a fresh tracker, every
    track retained in the dict satisfies [is_valid], so [get_stable_tools]
    returns all the retained tracks; and a hit on a retained track never
    lowers its confidence. *)
Theorem retained_tracks_are_stable (calls : list (list Detection)) :
  let self := ToolTracker.run ToolTracker.init calls in
  (∀ k tr, ToolTracker.tracked_tools self !! k = Some tr →
     TrackedTool.is_valid tr = true
     ∧ TrackedTool.frames_lost tr ≤ MAX_LOST_FRAMES
     ∧ (MIN_CONFIDENCE_THRESHOLD <= TrackedTool.confidence tr)%Q) ∧
  ToolTracker.get_stable_tools self = Py.values (ToolTracker.tracked_tools self) ∧
  (∀ k tr c cs current_frame, ToolTracker.tracked_tools self !! k = Some tr →
     (TrackedTool.confidence tr
      <= TrackedTool.confidence (TrackedTool.update tr c cs current_frame))%Q).
Proof.
  intros self.
  assert (tracker_ok self) as Hok by apply tracker_ok_run, tracker_ok_init.
  split; [|split].
  - intros k tr Hk. destruct (Hok k tr Hk) as [_ Hv].
    split; [done|]. by apply is_valid_iff.
  - unfold ToolTracker.get_stable_tools. apply filter_all.
    apply Forall_forall. intros tr [k Hk]%elem_of_values.
    by destruct (Hok k tr Hk).
  - intros k tr c cs current_frame Hk. destruct (Hok k tr Hk) as [Hwf _].
    by apply update_confidence_mono.
Qed.

Lemma retained_tracks_are_stable_witness :
  ∃ tr, ToolTracker.tracked_tools
          (ToolTracker.run ToolTracker.init [[det 20 (5, 5)]; []]) !! 20 = Some tr
    ∧ TrackedTool.is_valid tr = true.
Proof.
  eexists. split; [vm_compute; reflexivity|].
  pose proof (retained_tracks_are_stable [[det 20 (5, 5)]; []]) as Hs.
  cbv zeta in Hs. destruct Hs as [Hv _].
  apply (Hv 20). vm_compute. reflexivity.
Defined.

(** *** The life of a track that is never detected again *)

Lemma observe_track_single fc (l1 l2 : list Detection) (d : Detection)
    (o : option TrackedTool.t) :
  det_id d ∉ det_id <$> l1 → det_id d ∉ det_id <$> l2 →
  foldl (observe_track fc (det_id d)) o (l1 ++ d :: l2)
  = observe_track fc (det_id d) o d.
Proof.
  intros H1 H2. rewrite foldl_app. simpl.
  by rewrite (observe_track_others fc l1), (observe_track_others fc l2).
Qed.

(** A track created at cycle [t] by a single detection and never detected
    again: it is in the dict after cycle [t]; it survives cycle [t+1] exactly
    when [t + 1 <= MAX_LOST_FRAMES], because [frames_lost] is then counted
    from frame 0; it never survives cycle [t+2], where its confidence is 1/3. *)
Lemma never_redetected_lifetime (self : ToolTracker.t) (d : Detection)
    (l1 l2 m1 m2 : list Detection) :
  ToolTracker.tracked_tools self !! det_id d = None →
  det_id d ∉ det_id <$> l1 → det_id d ∉ det_id <$> l2 →
  det_id d ∉ det_id <$> m1 → det_id d ∉ det_id <$> m2 →
  let t := ToolTracker.frame_count self + 1 in
  let s0 := ToolTracker.update self (l1 ++ d :: l2) in
  let s1 := ToolTracker.update s0 m1 in
  let s2 := ToolTracker.update s1 m2 in
  ToolTracker.frame_count s0 = t ∧
  ToolTracker.tracked_tools s0 !! det_id d
  = Some (TrackedTool.init (det_id d) (det_name d) (det_center d) (det_corners d)) ∧
  (is_Some (ToolTracker.tracked_tools s1 !! det_id d) ↔ t + 1 ≤ MAX_LOST_FRAMES) ∧
  ToolTracker.tracked_tools s2 !! det_id d = None.
Proof.
  intros Hnew H1 H2 Hm1 Hm2 t s0 s1 s2.
  assert (ToolTracker.tracked_tools s0 !! det_id d
          = Some (TrackedTool.init (det_id d) (det_name d) (det_center d) (det_corners d)))
    as E0.
  { unfold s0. rewrite update_lookup. simpl.
    rewrite decide_True by (rewrite fmap_app, fmap_cons; set_solver).
    rewrite observe_track_single, Hnew by done.
    unfold observe_track. by rewrite decide_True. }
  assert (ToolTracker.tracked_tools s1 !! det_id d
          = if t + 1 <=? MAX_LOST_FRAMES
            then Some (TrackedTool.predict
                         (TrackedTool.init (det_id d) (det_name d) (det_center d)
                            (det_corners d)) (t + 1))
            else None) as E1.
  { pose proof (update_lookup s0 m1 (det_id d)) as L. cbv zeta in L.
    rewrite decide_False, E0 in L by done.
    change (ToolTracker.frame_count s0) with t in L. fold s1 in L. rewrite L.
    unfold sweep_track, TrackedTool.is_valid. cbn.
    rewrite Z.sub_0_r. by destruct (t + 1 <=? MAX_LOST_FRAMES). }
  split; [done|]. split; [done|]. split.
  - rewrite E1. destruct (Z.leb_spec (t + 1) MAX_LOST_FRAMES) as [Hle|Hgt].
    + split; [done | by eexists].
    + split; [intros [? ?]; discriminate | lia].
  - pose proof (update_lookup s1 m2 (det_id d)) as L. cbv zeta in L.
    rewrite decide_False, E1 in L by done. fold s2 in L. rewrite L.
    destruct (t + 1 <=? MAX_LOST_FRAMES); [|done].
    unfold sweep_track, TrackedTool.is_valid. cbn.
    by rewrite andb_false_r.
Qed.

(** C1, at the failing input.  Marker 20 is first detected at tracker cycle
    25 and never again.  The cycle after (26) already removes the track,
    although its confidence is still 1/2: [frames_lost] is 26 there, counted
    from [last_seen_frame = 0] and not from the cycle of creation.  Removal
    at the earlier of cycle 25+25+1 and the first cycle with a confidence
    below 0.4 would be at cycle 27. *)
Theorem removed_one_cycle_after_creation :
  let lost := TrackedTool.predict
                (TrackedTool.init 20 "scalpel" (5, 5) quad0) 26 in
  ToolTracker.frame_count created_at_25 = 25 ∧
  ToolTracker.tracked_tools created_at_25 !! 20
  = Some (TrackedTool.init 20 "scalpel" (5, 5) quad0) ∧
  ToolTracker.tracked_tools (ToolTracker.update created_at_25 []) !! 20 = None ∧
  TrackedTool.confidence lost = (1 # 2)%Q ∧
  Py.Qgeb (TrackedTool.confidence lost) MIN_CONFIDENCE_THRESHOLD = true ∧
  TrackedTool.frames_lost lost = 26.
Proof. vm_compute. repeat split; reflexivity. Qed.

(** *** [frames_lost] against [frame_count - last_seen_frame] *)

Lemma observe_track_Some fc k (o : option TrackedTool.t) (dets : list Detection) :
  is_Some o → is_Some (foldl (observe_track fc k) o dets).
Proof.
  revert o. induction dets as [|d dets IH]; intros o Ho; simpl; [done|].
  apply IH. unfold observe_track. by destruct (decide _).
Qed.

(** After the first loop, the entry of a detected key was either refreshed
    by [TrackedTool.update] or has just been created by the only detection
    of a key that was not tracked. *)
Lemma observe_track_result fc k (o : option TrackedTool.t) (dets : list Detection)
    (tr : TrackedTool.t) :
  k ∈ det_id <$> dets →
  foldl (observe_track fc k) o dets = Some tr →
  (TrackedTool.last_seen_frame tr = fc ∧ TrackedTool.frames_lost tr = 0)
  ∨ (o = None ∧ ∃ d, d ∈ dets
       ∧ tr = TrackedTool.init k (det_name d) (det_center d) (det_corners d)).
Proof.
  induction dets as [|d dets IH] using rev_ind; [by intros ?%elem_of_nil|].
  intros Hk. rewrite foldl_app. simpl. unfold observe_track at 1.
  destruct (decide (det_id d = k)) as [Hd|Hd].
  - intros [= <-].
    destruct (foldl (observe_track fc k) o dets) as [tr0|] eqn:E; [by left|].
    right. split.
    + destruct o as [tr0|]; [|done].
      by destruct (observe_track_Some fc k (Some tr0) dets) as [? ?]; [|congruence].
    + exists d. split; [|done]. apply elem_of_app. right. by apply list_elem_of_singleton.
  - intros E. rewrite fmap_app, elem_of_app in Hk. destruct Hk as [Hk|Hk].
    + destruct (IH Hk E) as [?|[-> [d' [Hd' ->]]]]; [by left|].
      right. split; [done|]. exists d'. split; [|done]. apply elem_of_app. by left.
    + apply list_elem_of_singleton in Hk. congruence.
Qed.

(** The relation [frames_lost = frame_count - last_seen_frame] holds after
    [update] for every retained track except the ones the call has just
    created, which have [frames_lost = 0] and [last_seen_frame = 0]. *)
Lemma frames_lost_after_update (self : ToolTracker.t) (dets : list Detection)
    (k : Z) (tr : TrackedTool.t) :
  let self' := ToolTracker.update self dets in
  ToolTracker.tracked_tools self' !! k = Some tr →
  TrackedTool.frames_lost tr
  = ToolTracker.frame_count self' - TrackedTool.last_seen_frame tr
  ∨ (ToolTracker.tracked_tools self !! k = None
     ∧ TrackedTool.frames_lost tr = 0 ∧ TrackedTool.last_seen_frame tr = 0).
Proof.
  cbv zeta. rewrite update_lookup, update_frame_count. cbv zeta.
  destruct (decide (k ∈ det_id <$> dets)) as [Hin|Hout].
  - intros E. destruct (observe_track_result _ _ _ _ _ Hin E)
      as [[-> ->]|[-> [d [_ ->]]]]; [left; lia | by right].
  - unfold sweep_track. destruct (ToolTracker.tracked_tools self !! k); [|done].
    cbv zeta. destruct (TrackedTool.is_valid _); [|done]. intros [= <-]. by left.
Qed.

(** C3, at the failing input.  The first cycle of a fresh tracker detects
    marker 20: the new track has [frames_lost = 0] and [last_seen_frame = 0]
    while the tracker's cycle is 1, so [frames_lost] is not the current cycle
    minus [last_seen_frame].  The next cycle does not detect the marker:
    [frames_lost] becomes 2, although the marker was seen one cycle ago. *)
Theorem frames_lost_wrong_at_creation :
  let self := ToolTracker.update ToolTracker.init [det 20 (5, 5)] in
  let self' := ToolTracker.update self [] in
  ∃ tr tr', ToolTracker.tracked_tools self !! 20 = Some tr
        ∧ ToolTracker.frame_count self = 1
        ∧ TrackedTool.last_seen_frame tr = 0
        ∧ TrackedTool.frames_lost tr = 0
        ∧ TrackedTool.frames_lost tr
          ≠ ToolTracker.frame_count self - TrackedTool.last_seen_frame tr
        ∧ ToolTracker.tracked_tools self' !! 20 = Some tr'
        ∧ ToolTracker.frame_count self' = 2
        ∧ TrackedTool.frames_lost tr' = 2.
Proof.
  do 2 eexists. vm_compute.
  split; [reflexivity|]. repeat split; try reflexivity. discriminate.
Qed.

(** *** Two detections of one marker in a cycle *)

(** C8, as stated, fails: with marker 20 already tracked, a cycle that
    detects it twice appends two hits to its history and smooths its center
    twice, which a cycle with the later detection alone does not. *)
Lemma two_detections_two_hits : ¬ single_observation_per_id.
Proof.
  intros Hs.
  pose proof (Hs (ToolTracker.update ToolTracker.init [det 20 (5, 5)])
                (det 20 (0, 0)) (det 20 (10, 10)) eq_refl) as E.
  apply (f_equal (fmap TrackedTool.detection_history)) in E.
  vm_compute in E. discriminate E.
Qed.

(** C8, amended.  When a cycle's detections contain the same marker twice
    (and other markers around them), both are applied in processing order:
    the earlier one creates or updates the track, the later one updates it
    again.  The track ends the cycle with the later detection's center and
    corners, seen at this cycle and not lost; its history has received the
    hits of both detections and its smoothed center blends both. *)
Theorem two_detections_both_applied (self : ToolTracker.t) (d1 d2 : Detection)
    (l1 l2 l3 : list Detection) :
  det_id d1 = det_id d2 →
  det_id d2 ∉ det_id <$> l1 → det_id d2 ∉ det_id <$> l2 → det_id d2 ∉ det_id <$> l3 →
  let self' := ToolTracker.update self (l1 ++ d1 :: l2 ++ d2 :: l3) in
  let first := after_first self d1 in
  ∃ tr, ToolTracker.tracked_tools self' !! det_id d2 = Some tr
    ∧ tr = TrackedTool.update first (det_center d2) (det_corners d2)
             (ToolTracker.frame_count self')
    ∧ TrackedTool.center tr = TrackedTool.to_float (det_center d2)
    ∧ TrackedTool.corners tr = det_corners d2
    ∧ TrackedTool.last_seen_frame tr = ToolTracker.frame_count self'
    ∧ TrackedTool.frames_lost tr = 0
    ∧ TrackedTool.detection_history tr
      = Py.deque_append DETECTION_HISTORY_SIZE
          (Py.deque_append DETECTION_HISTORY_SIZE
             (from_option TrackedTool.detection_history []
                (ToolTracker.tracked_tools self !! det_id d2)) 1) 1
    ∧ TrackedTool.smoothed_center tr
      = TrackedTool.smooth (TrackedTool.smoothed_center first) (det_center d2).
Proof.
  intros Hid H1 H2 H3 self' first. eexists. split; [|split; [reflexivity|]].
  - unfold self'. rewrite update_lookup, update_frame_count. cbv zeta.
    rewrite decide_True by (rewrite !fmap_app, !fmap_cons, fmap_app, fmap_cons; set_solver).
    rewrite foldl_app, (observe_track_others _ l1) by done. cbn [foldl].
    rewrite foldl_app, (observe_track_others _ l2) by done. cbn [foldl].
    rewrite (observe_track_others _ l3) by done.
    unfold observe_track. rewrite !decide_True by done.
    unfold first, after_first. rewrite Hid.
    by destruct (ToolTracker.tracked_tools self !! det_id d2).
  - repeat split. simpl. unfold first, after_first. rewrite Hid.
    by destruct (ToolTracker.tracked_tools self !! det_id d2).
Qed.

Lemma two_detections_both_applied_witness :
  ∃ tr, ToolTracker.tracked_tools
          (ToolTracker.update (ToolTracker.update ToolTracker.init [det 20 (5, 5)])
             ([] ++ det 20 (0, 0) :: [] ++ det 20 (10, 10) :: [])) !! 20 = Some tr
    ∧ TrackedTool.detection_history tr = [1; 1; 1]
    ∧ TrackedTool.center tr = TrackedTool.to_float (10, 10).
Proof.
  destruct (two_detections_both_applied
              (ToolTracker.update ToolTracker.init [det 20 (5, 5)])
              (det 20 (0, 0)) (det 20 (10, 10)) [] [] [] eq_refl)
    as (tr & Hl & _ & Hc & _ & _ & _ & Hh & _);
    try apply not_elem_of_nil.
  exists tr. split; [exact Hl|]. split; [|exact Hc].
  rewrite Hh. vm_compute. reflexivity.
Defined.

(** *** Confidence and what a track has recorded *)

Lemma observe_track_history fc k (o : option TrackedTool.t) (dets : list Detection)
    (l : list Z) :
  history_of o = window l →
  history_of (foldl (observe_track fc k) o dets)
  = window (l ++ ((λ _, 1) <$> filter (λ d, det_id d = k) dets)).
Proof.
  revert o l. induction dets as [|d dets IH]; intros o l Ho; simpl.
  - by rewrite app_nil_r.
  - rewrite filter_cons. unfold observe_track at 2.
    destruct (decide (det_id d = k)) as [Hk|Hk]; [|by apply IH].
    rewrite fmap_cons, cons_middle, app_assoc. apply IH.
    rewrite <- TrackedToolFacts.deque_append_window, <- Ho.
    by destruct o.
Qed.

Lemma cycle_record_detected (k : Z) (dets : list Detection) :
  k ∈ det_id <$> dets →
  cycle_record k dets = (λ _, 1) <$> filter (λ d, det_id d = k) dets.
Proof.
  intros (d & Hd & Hin)%list_elem_of_fmap. unfold cycle_record.
  destruct (filter _ dets) as [|d' ds] eqn:E; [|done].
  assert (d ∈ filter (λ d, det_id d = k) dets) as Hf by (by apply list_elem_of_filter).
  rewrite E in Hf. by apply elem_of_nil in Hf.
Qed.

Lemma cycle_record_missed (k : Z) (dets : list Detection) :
  k ∉ det_id <$> dets → cycle_record k dets = [0].
Proof.
  intros Hk. unfold cycle_record.
  destruct (filter _ dets) as [|d ds] eqn:E; [done|].
  assert (d ∈ filter (λ d, det_id d = k) dets) as Hf by (rewrite E; apply list_elem_of_here).
  apply list_elem_of_filter in Hf as [Hd Hin]. destruct Hk.
  apply list_elem_of_fmap. by exists d.
Qed.

Lemma cycle_record_length (k : Z) (dets : list Detection) :
  (1 ≤ length (cycle_record k dets))%nat.
Proof.
  unfold cycle_record. destruct (filter _ dets); simpl; lia.
Qed.

Lemma recorded_snoc (k : Z) (calls : list (list Detection)) (dets : list Detection) :
  recorded k (calls ++ [dets]) = recorded k calls ++ cycle_record k dets.
Proof. unfold recorded. rewrite fmap_app, join_app. simpl. by rewrite app_nil_r. Qed.

Lemma recorded_length (k : Z) (calls : list (list Detection)) :
  (length calls ≤ length (recorded k calls))%nat.
Proof.
  induction calls as [|dets calls IH] using rev_ind; [done|].
  rewrite recorded_snoc, !length_app. simpl.
  pose proof (cycle_record_length k dets). lia.
Qed.

Lemma run_snoc (self : ToolTracker.t) (calls : list (list Detection))
    (dets : list Detection) :
  ToolTracker.run self (calls ++ [dets])
  = ToolTracker.update (ToolTracker.run self calls) dets.
Proof. unfold ToolTracker.run. by rewrite foldl_app. Qed.

Lemma tracked_throughout_snoc (self : ToolTracker.t) (k : Z)
    (calls : list (list Detection)) (dets : list Detection) :
  tracked_throughout self k (calls ++ [dets]) →
  tracked_throughout self k calls
  ∧ is_Some (ToolTracker.tracked_tools
               (ToolTracker.update (ToolTracker.run self calls) dets) !! k).
Proof.
  intros [Hnone Ht]. split; [split; [done|]|].
  - intros n Hn. specialize (Ht n). rewrite length_app in Ht. simpl in Ht.
    rewrite take_app_le in Ht by lia. apply Ht. lia.
  - specialize (Ht (length (calls ++ [dets]))).
    rewrite firstn_all, run_snoc in Ht. apply Ht. rewrite length_app. simpl. lia.
Qed.

(** The history of a track that was never dropped is the window over all it
    recorded, and the track is well formed. *)
Lemma history_is_window_of_recorded (self : ToolTracker.t)
    (calls : list (list Detection)) (k : Z) :
  tracked_throughout self k calls →
  history_of (ToolTracker.tracked_tools (ToolTracker.run self calls) !! k)
  = window (recorded k calls)
  ∧ ∀ tr, ToolTracker.tracked_tools (ToolTracker.run self calls) !! k = Some tr →
      track_ok tr.
Proof.
  induction calls as [|dets calls IH] using rev_ind; intros Ht.
  - destruct Ht as [Hnone _]. simpl. rewrite Hnone. done.
  - apply tracked_throughout_snoc in Ht as [Ht Hlast].
    destruct (IH Ht) as [IHh IHok]. rewrite run_snoc, recorded_snoc.
    rewrite update_lookup in Hlast |- *. cbv zeta in Hlast |- *.
    destruct (decide (k ∈ det_id <$> dets)) as [Hin|Hout].
    + rewrite cycle_record_detected by done.
      split; [by apply observe_track_history | by apply observe_track_ok].
    + rewrite cycle_record_missed by done.
      split; [|by apply sweep_track_ok].
      destruct (ToolTracker.tracked_tools (ToolTracker.run self calls) !! k)
        as [tr0|]; [|by destruct Hlast].
      simpl in *. destruct (TrackedTool.is_valid _); [|by destruct Hlast].
      simpl. by rewrite IHh, TrackedToolFacts.deque_append_window.
Qed.

(** C4, as stated, fails when a cycle is a call of the tracker: a first
    cycle that detects marker 20 twice and a second cycle that misses it
    leave the history [1; 1; 0] and the confidence 2/3, where two cycles
    seen would give 2/2. *)
Lemma confidence_not_per_cycle : ¬ confidence_counts_cycles.
Proof.
  intros Hc.
  destruct (ToolTracker.tracked_tools
              (ToolTracker.run ToolTracker.init seen_twice_then_missed) !! 20)
    as [tr|] eqn:E; [|by vm_compute in E].
  assert (tracked_throughout ToolTracker.init 20 seen_twice_then_missed) as Ht.
  { split; [done|].
    intros [|[|[|n]]] Hn; simpl in Hn; try lia; vm_compute; by eexists. }
  pose proof (Hc ToolTracker.init seen_twice_then_missed 20 tr Ht E) as Hq.
  vm_compute in E. injection E as <-. vm_compute in Hq. discriminate Hq.
Qed.

(** C4, amended.  For a track that a sequence of tracker cycles creates with
    its first cycle and never drops, whatever the tracker held before, the
    history is the last 10 entries of what the track recorded, which is one
    hit per detection of its marker and one miss per cycle without one; the
    confidence is the number of hits in the history divided by min(n, 10),
    where n is the number of recorded entries, and lies in [0, 1].  There are
    at least as many entries as cycles, and more when a cycle detects the
    marker more than once. *)
Theorem confidence_is_share_of_recorded (self : ToolTracker.t)
    (calls : list (list Detection)) (k : Z) (tr : TrackedTool.t) :
  tracked_throughout self k calls →
  ToolTracker.tracked_tools (ToolTracker.run self calls) !! k = Some tr →
  TrackedTool.detection_history tr = window (recorded k calls)
  ∧ TrackedTool.confidence tr
    = (Z.of_nat (hits (TrackedTool.detection_history tr))
       # Pos.of_nat (Nat.min (length (recorded k calls)) DETECTION_HISTORY_SIZE))
  ∧ (0 <= TrackedTool.confidence tr <= 1)%Q
  ∧ (length calls ≤ length (recorded k calls))%nat.
Proof.
  intros Ht Hk.
  destruct (history_is_window_of_recorded self calls k Ht) as [Hh Hok].
  rewrite Hk in Hh. simpl in Hh.
  destruct (Hok tr Hk) as [[Hb Hn Hl Hc] _].
  split; [done|]. rewrite Hc. split; [|split].
  - rewrite TrackedToolFacts.mean_hits by done. do 2 f_equal.
    by rewrite Hh, TrackedToolFacts.window_length.
  - by apply TrackedToolFacts.mean_range.
  - apply recorded_length.
Qed.

Lemma confidence_is_share_of_recorded_witness :
  ∃ tr,
    ToolTracker.tracked_tools
      (ToolTracker.run created_at_25 [[det 21 (3, 3); det 21 (4, 4)]; []]) !! 21
    = Some tr
    ∧ TrackedTool.detection_history tr = [1; 1; 0]
    ∧ TrackedTool.confidence tr = (2 # 3)%Q
    ∧ (0 <= TrackedTool.confidence tr <= 1)%Q
    ∧ (2 ≤ 3)%nat.
Proof.
  eexists. split; [vm_compute; reflexivity|].
  apply (confidence_is_share_of_recorded created_at_25
           [[det 21 (3, 3); det 21 (4, 4)]; []] 21).
  - split; [by vm_compute|].
    intros [|[|[|n]]] Hn; simpl in Hn; try lia; vm_compute; by eexists.
  - vm_compute. reflexivity.
Defined.

End ToolTrackerFacts.

(** ** The marker-detector adapter *)

Module DetectorFacts.

Import Config Detector.

Section Adapter.
Context {Px : Type} `{Vision Px}.

Lemma slice_len_nonneg (n start stop : Z) : 0 ≤ slice_len n start stop.
Proof. unfold slice_len. lia. Qed.

Lemma Qgtb_true (a b : Q) : Py.Qgtb a b = true → (b < a)%Q.
Proof.
  unfold Py.Qgtb. rewrite negb_true_iff. intros E.
  apply Qnot_le_lt. intros Hle. apply Qle_bool_iff in Hle. congruence.
Qed.

Lemma Qltb_false (a b : Q) : Py.Qltb a b = false → (b <= a)%Q.
Proof. unfold Py.Qltb. rewrite negb_false_iff. apply Qle_bool_iff. Qed.

Lemma Qltb_true (a b : Q) : Py.Qltb a b = true → (a < b)%Q.
Proof. apply Qgtb_true. Qed.

Lemma max_pos (a b : Q) : (0 < a)%Q → (0 < b)%Q → (0 < Py.max a b)%Q.
Proof. intros Ha Hb. unfold Py.max. by destruct (Py.Qgtb b a). Qed.

Lemma target_ratio_pos (n : Z) : 0 < n → (0 < inject_Z UPSCALE_TARGET / inject_Z n)%Q.
Proof.
  intros Hn. apply Qlt_shift_div_l.
  - by apply (Qlt_alt 0 (inject_Z n)), Z.compare_lt_iff; simpl; lia.
  - rewrite Qmult_0_l. done.
Qed.

(** The scale is positive for every region that is not empty. *)
Lemma upscale_pos (gray : Image Px) :
  0 < rows gray → 0 < cols gray → (0 < (upscale gray).1)%Q.
Proof.
  intros Hr Hc. unfold upscale. destruct (_ || _); simpl; [|done].
  apply max_pos; by apply target_ratio_pos.
Qed.

Lemma region_scale_pos (frame : Image Px) (hand_bbox : BBox) :
  size (crop frame (by_ hand_bbox) (bh hand_bbox) (bx hand_bbox) (bw hand_bbox)) ≠ 0 →
  (0 < region_scale frame hand_bbox)%Q.
Proof.
  intros Hsize. unfold region_scale. unfold size in Hsize. simpl in Hsize.
  pose proof (slice_len_nonneg (rows frame) (by_ hand_bbox) (by_ hand_bbox + bh hand_bbox)).
  pose proof (slice_len_nonneg (cols frame) (bx hand_bbox) (bx hand_bbox + bw hand_bbox)).
  apply upscale_pos; simpl; nia.
Qed.

(** The scale of a region that is not empty is at least 1. *)
Lemma upscale_at_least_1 (gray : Image Px) :
  0 < rows gray → 0 < cols gray → (1 <= (upscale gray).1)%Q.
Proof.
  intros Hr Hc. unfold upscale.
  assert (∀ n, 0 < n → n < UPSCALE_TARGET →
            (1 <= inject_Z UPSCALE_TARGET / inject_Z n)%Q) as Hratio.
  { intros n Hn Hlt. apply Qle_shift_div_l.
    - change (inject_Z 0 < inject_Z n)%Q. by rewrite <- Zlt_Qlt.
    - rewrite Qmult_1_l, <- Zle_Qle. lia. }
  destruct ((cols gray <? UPSCALE_TARGET) || (rows gray <? UPSCALE_TARGET)) eqn:E;
    simpl; [|done].
  apply orb_true_iff in E. unfold Py.max.
  destruct (Py.Qgtb _ _) eqn:G.
  - apply Qgtb_true in G. destruct E as [E%Z.ltb_lt | E%Z.ltb_lt].
    + apply Qlt_le_weak. eapply Qle_lt_trans; [|exact G]. by apply Hratio.
    + by apply Hratio.
  - unfold Py.Qgtb in G. apply negb_false_iff, Qle_bool_iff in G.
    destruct E as [E%Z.ltb_lt | E%Z.ltb_lt].
    + by apply Hratio.
    + eapply Qle_trans; [|exact G]. by apply Hratio.
Qed.

Lemma region_scale_at_least_1 (frame : Image Px) (hand_bbox : BBox) :
  size (crop frame (by_ hand_bbox) (bh hand_bbox) (bx hand_bbox) (bw hand_bbox)) ≠ 0 →
  (1 <= region_scale frame hand_bbox)%Q.
Proof.
  intros Hsize. unfold region_scale. unfold size in Hsize. simpl in Hsize.
  pose proof (slice_len_nonneg (rows frame) (by_ hand_bbox) (by_ hand_bbox + bh hand_bbox)).
  pose proof (slice_len_nonneg (cols frame) (bx hand_bbox) (bx hand_bbox + bw hand_bbox)).
  apply upscale_at_least_1; simpl; nia.
Qed.

(** The scale as the float32 that divides the corners. *)
Lemma scale_as_float32 (s : Q) :
  (1 <= s)%Q → (Qabs (Py.f32 (Py.f64 s) - s) <= (1 # 4194304) * s)%Q.
Proof.
  intros Hs.
  pose proof (FloatFacts.f64_error s) as H1.
  pose proof (FloatFacts.f32_error (Py.f64 s)) as H2.
  pose proof FloatFacts.eta_small as (He1 & He2 & He3 & He4).
  pose proof (FloatFacts.Qabs_sub_triangle (Py.f32 (Py.f64 s)) (Py.f64 s) s) as Ht.
  pose proof (FloatFacts.Qabs_bound (Py.f64 s) s) as Hb.
  rewrite (Qabs_pos s) in * by lra.
  set (e32 := (2 ^ (-150))%Q) in *. set (e64 := (2 ^ (-1075))%Q) in *.
  set (A := Qabs (Py.f32 (Py.f64 s) - s)) in *.
  set (B := Qabs (Py.f32 (Py.f64 s) - Py.f64 s)) in *.
  set (C := Qabs (Py.f64 s - s)) in *.
  set (D := Qabs (Py.f64 s)) in *.
  lra.
Qed.

(** Dividing by a slightly different scale. *)
Lemma div_perturb (v s s' : Q) :
  (1 <= s)%Q → (Qabs (s' - s) <= (1 # 4194304) * s)%Q →
  (Qabs (v / s' - v / s) <= (1 # 2097152) * Qabs (v / s))%Q.
Proof.
  intros Hs Hd. apply Qabs_Qle_condition in Hd as [Hd1 Hd2].
  assert (0 < s')%Q as Hs' by lra.
  assert (¬ (s == 0)%Q) as Hs0 by (intros E; rewrite E in Hs; lra).
  assert (¬ (s' == 0)%Q) as Hs'0 by (intros E; rewrite E in Hs'; lra).
  assert (v / s' - v / s == (v / s) * ((s - s') / s'))%Q as -> by (field; done).
  rewrite Qabs_Qmult, (Qmult_comm (Qabs (v / s))).
  apply Qmult_le_compat_r; [|apply Qabs_nonneg].
  apply Qabs_Qle_condition. split.
  - apply Qle_shift_div_l; [done|]. lra.
  - apply Qle_shift_div_r; [done|]. lra.
Qed.

(** One coordinate: the float that the program computes is the exact value
    within the tolerance, and so is the way back. *)
Lemma float_coord_near (s v : Q) (o : Z) :
  (1 <= s)%Q → mapped_coord s o (float_coord s o v) v.
Proof.
  intros Hs.
  assert (Qabs (float_coord s o v - exact_coord s o v) <= coord_tolerance s o v)%Q as Hnear.
  { unfold float_coord, exact_coord, coord_tolerance.
    set (s' := Py.f32 (Py.f64 s)).
    set (t := (v / s')%Q). set (q := Py.f32 t). set (c := (v / s)%Q).
    set (oq := inject_Z o).
    pose proof (div_perturb v s s' Hs (scale_as_float32 s Hs)) as H1. fold t c in H1.
    pose proof (FloatFacts.f32_error t) as H2. fold q in H2.
    pose proof (FloatFacts.f64_error (q + oq)) as H3.
    pose proof FloatFacts.eta_small as (He1 & He2 & He3 & He4).
    pose proof (FloatFacts.Qabs_bound t c) as Ht.
    pose proof (FloatFacts.Qabs_bound q t) as Hq.
    pose proof (Qabs_triangle q oq) as Hqo.
    pose proof (FloatFacts.Qabs_sub_triangle (Py.f64 (q + oq)) (q + oq) (c + oq)) as Hr.
    assert (q + oq - (c + oq) == q - c)%Q as E by ring. rewrite E in Hr. clear E.
    pose proof (FloatFacts.Qabs_sub_triangle q t c) as Hqc.
    assert (2 ^ (-20) == 1 # 1048576)%Q as -> by (by vm_compute).
    assert (2 ^ (-53) == 1 # 9007199254740992)%Q as -> by (by vm_compute).
    assert (2 ^ (-149) == 2 * 2 ^ (-150))%Q as -> by (by vm_compute).
    pose proof (Qabs_nonneg c). pose proof (Qabs_nonneg oq).
    set (e32 := (2 ^ (-150))%Q) in *. set (e64 := (2 ^ (-1075))%Q) in *.
    set (X1 := Qabs (Py.f64 (q + oq) - (c + oq))) in *.
    set (X2 := Qabs (Py.f64 (q + oq) - (q + oq))) in *.
    set (X3 := Qabs (q - c)) in *. set (X4 := Qabs (q - t)) in *.
    set (X5 := Qabs (t - c)) in *. set (X6 := Qabs (q + oq)) in *.
    set (X7 := Qabs q) in *. set (X8 := Qabs t) in *.
    set (X9 := Qabs c) in *. set (X10 := Qabs oq) in *.
    lra. }
  split; [done | done |].
  assert (¬ (s == 0)%Q) as Hs0 by (intros E; rewrite E in Hs; lra).
  assert ((float_coord s o v - inject_Z o) * s - v
          == s * (float_coord s o v - exact_coord s o v))%Q as ->.
  { unfold exact_coord. field. done. }
  rewrite Qabs_Qmult, (Qabs_pos s) by lra.
  apply Qmult_le_l; [lra | done].
Qed.

Lemma to_full_frame_mapped (s : Q) (x y : Z) (p : Q * Q) :
  (1 <= s)%Q → mapped_point s x y (to_full_frame s x y p) p.
Proof. intros Hs. split; by apply float_coord_near. Qed.

(** What [candidate] keeps and what it maps it to. *)
Lemma candidate_Some (s : Q) (x y : Z) (entry : Z * Quad) (d : Detection) :
  candidate s x y entry = Some d →
  det_id d = entry.1
  ∧ TOOL_MARKERS !! entry.1 = Some (det_name d)
  ∧ (MIN_MARKER_PERIMETER <= arcLength entry.2)%Q
  ∧ det_corners d = quad_map (to_full_frame s x y) entry.2.
Proof.
  unfold candidate. destruct (TOOL_MARKERS !! entry.1) as [nm|]; [|done].
  destruct (Py.Qltb _ _) eqn:E; [done|]. intros [= <-]. simpl.
  repeat split. by apply Qltb_false.
Qed.



(** Every detection of a region comes from an entry of the oracle's output
    for that region, which is not empty. *)
Lemma detect_aruco_in_hand_roi_elem (frame : Image Px) (hand_bbox : BBox) (d : Detection) :
  d ∈ detect_aruco_in_hand_roi frame hand_bbox →
  size (crop frame (by_ hand_bbox) (bh hand_bbox) (bx hand_bbox) (bw hand_bbox)) ≠ 0
  ∧ ∃ entry, entry ∈ run_aruco (region_input frame hand_bbox)
      ∧ candidate (region_scale frame hand_bbox) (bx hand_bbox) (by_ hand_bbox) entry
        = Some d.
Proof.
  unfold detect_aruco_in_hand_roi. cbv zeta.
  destruct (Z.eqb_spec (size (crop frame (by_ hand_bbox) (bh hand_bbox) (bx hand_bbox)
                                (bw hand_bbox))) 0) as [E|E].
  - by intros ?%elem_of_nil.
  - intros Hd%list_elem_of_omap. done.
Qed.

(** C6, amended.  Every detection that survives in a hand region with
    origin (x, y) and scale s comes from an entry of the marker oracle for
    that region, and each coordinate of each of its four corners is the
    float the program computes from the entry's corner: the float32 quotient
    by the scale cast to float32, plus the origin in float64.  That float is
    the region-local coordinate divided by s plus the origin within the
    tolerance [coord_tolerance], and the forward transform (subtract the
    origin, multiply by s) gives the region-local coordinate back within s
    times the tolerance.  The scale is at least 1. *)
Theorem corners_mapped_to_frame (frame : Image Px) (hand_bbox : BBox) (d : Detection) :
  d ∈ detect_aruco_in_hand_roi frame hand_bbox →
  let s := region_scale frame hand_bbox in
  let x := bx hand_bbox in
  let y := by_ hand_bbox in
  (1 <= s)%Q
  ∧ ∃ entry, entry ∈ run_aruco (region_input frame hand_bbox)
      ∧ det_id d = entry.1
      ∧ mapped_point s x y (c0 (det_corners d)) (c0 entry.2)
      ∧ mapped_point s x y (c1 (det_corners d)) (c1 entry.2)
      ∧ mapped_point s x y (c2 (det_corners d)) (c2 entry.2)
      ∧ mapped_point s x y (c3 (det_corners d)) (c3 entry.2).
Proof.
  intros Hd s x y.
  apply detect_aruco_in_hand_roi_elem in Hd as [Hsize [entry [Hin Hc]]].
  apply candidate_Some in Hc as (Hid & _ & _ & Hcs).
  pose proof (region_scale_at_least_1 frame hand_bbox Hsize) as Hs. fold s in Hs.
  split; [done|]. exists entry. split; [done|]. split; [done|].
  rewrite Hcs. unfold quad_map. cbn [c0 c1 c2 c3].
  repeat split; by apply float_coord_near.
Qed.

End Adapter.

#[local] Existing Instance fake_vision.

(** C6, as stated, fails: in the region of 240 by 240 pixels at (200, 120)
    the scale is 19/12, and the corner that the oracle reports at 100 is
    published at a float next to 200 + 1200/19, which is not a float. *)
Lemma corners_not_exact : ¬ corners_exact.
Proof.
  intros Hc.
  destruct (detect_aruco_in_hand_roi frame0 bbox0) as [|d0 rest] eqn:E;
    [by vm_compute in E|].
  assert (d0 ∈ detect_aruco_in_hand_roi frame0 bbox0) as Hin
    by (rewrite E; apply list_elem_of_here).
  destruct (Hc unit fake_vision frame0 bbox0 d0 Hin)
    as (entry & Hentry & Hid & [H0 _] & _).
  vm_compute in E. injection E as <- _.
  change (run_aruco (region_input frame0 bbox0))
    with [(20, square 100 100 40); (99, square 10 10 40); (21, square 50 50 2)]
    in Hentry.
  apply elem_of_cons in Hentry as [->|Hentry]; [vm_compute in H0; discriminate H0|].
  apply elem_of_cons in Hentry as [->|Hentry]; [discriminate Hid|].
  apply elem_of_cons in Hentry as [->|Hentry]; [discriminate Hid|].
  by apply elem_of_nil in Hentry.
Qed.

Lemma corners_mapped_to_frame_witness :
  ∃ d, d ∈ detect_aruco_in_hand_roi frame0 bbox0
    ∧ (1 <= region_scale frame0 bbox0)%Q
    ∧ ∃ entry, entry ∈ run_aruco (region_input frame0 bbox0)
        ∧ det_id d = entry.1
        ∧ mapped_point (region_scale frame0 bbox0) (bx bbox0) (by_ bbox0)
            (c0 (det_corners d)) (c0 entry.2)
        ∧ mapped_point (region_scale frame0 bbox0) (bx bbox0) (by_ bbox0)
            (c1 (det_corners d)) (c1 entry.2)
        ∧ mapped_point (region_scale frame0 bbox0) (bx bbox0) (by_ bbox0)
            (c2 (det_corners d)) (c2 entry.2)
        ∧ mapped_point (region_scale frame0 bbox0) (bx bbox0) (by_ bbox0)
            (c3 (det_corners d)) (c3 entry.2).
Proof.
  eexists. split.
  - vm_compute. apply list_elem_of_here.
  - apply (corners_mapped_to_frame frame0 bbox0).
    vm_compute. apply list_elem_of_here.
Defined.

End DetectorFacts.

(** ** The main loop *)

Module PipelineFacts.

Import Config Detector Pipeline.

(** *** Console logging, one marker id at a time *)

Lemma count_events_app (tid : Z) (l k : list ToolJson) :
  count_events tid (l ++ k) = (count_events tid l + count_events tid k)%nat.
Proof. unfold count_events. by rewrite filter_app, length_app. Qed.

Lemma announce_entry (now : Q) (lg : Logging) (tool : TrackedTool.t) (tid : Z) :
  log_entry (announce now lg tool) tid
  = if decide (TrackedTool.id tool = tid)
    then (Some (default now (last_printed lg !! tid)), Some now)
    else log_entry lg tid.
Proof.
  unfold log_entry, announce.
  destruct (decide (TrackedTool.id tool = tid)) as [<- | Hne].
  - destruct (last_printed lg !! TrackedTool.id tool) eqn:E; simpl;
      by rewrite ?lookup_insert_eq, ?E.
  - destruct (last_printed lg !! TrackedTool.id tool) eqn:E; simpl;
      by rewrite ?lookup_insert_ne.
Qed.

Lemma announce_events (now : Q) (lg : Logging) (tool : TrackedTool.t) (tid : Z) :
  count_events tid (pending_events (announce now lg tool))
  = (count_events tid (pending_events lg)
     + if decide (TrackedTool.id tool = tid)
       then (if last_printed lg !! tid is None then 1 else 0)
       else 0)%nat.
Proof.
  unfold announce.
  destruct (decide (TrackedTool.id tool = tid)) as [<- | Hne].
  - destruct (last_printed lg !! TrackedTool.id tool); simpl; [lia|].
    rewrite count_events_app. unfold count_events at 2.
    by rewrite filter_cons_True.
  - destruct (last_printed lg !! TrackedTool.id tool); simpl; [lia|].
    rewrite count_events_app. unfold count_events at 2.
    rewrite filter_cons_False by done. simpl. lia.
Qed.

Lemma announce_fold_entry (now : Q) (tools : list TrackedTool.t) (lg : Logging) (tid : Z) :
  log_entry (foldl (announce now) lg tools) tid
  = if decide (tid ∈ TrackedTool.id <$> tools)
    then (Some (default now (last_printed lg !! tid)), Some now)
    else log_entry lg tid.
Proof.
  revert lg. induction tools as [|a tools IH]; intros lg; cbn [foldl].
  - rewrite decide_False; [done | apply not_elem_of_nil].
  - rewrite IH. pose proof (announce_entry now lg a tid) as Ha.
    rewrite fmap_cons.
    destruct (decide (TrackedTool.id a = tid)) as [Hid|Hid].
    + rewrite (decide_True (P := tid ∈ _ :: _)) by (rewrite <- Hid; apply list_elem_of_here).
      unfold log_entry in *. injection Ha as Ha1 Ha2. rewrite Ha1, Ha2.
      by destruct (decide _).
    + unfold log_entry in *. injection Ha as Ha1 Ha2. rewrite Ha1, Ha2.
      destruct (decide (tid ∈ TrackedTool.id <$> tools)) as [Hin|Hout].
      * rewrite decide_True; [done | by apply list_elem_of_further].
      * rewrite decide_False; [done|]. rewrite elem_of_cons. intros [?|?]; congruence.
Qed.

Lemma announce_fold_events (now : Q) (tools : list TrackedTool.t) (lg : Logging) (tid : Z) :
  count_events tid (pending_events (foldl (announce now) lg tools))
  = (count_events tid (pending_events lg)
     + if decide (tid ∈ TrackedTool.id <$> tools)
       then (if last_printed lg !! tid is None then 1 else 0)
       else 0)%nat.
Proof.
  revert lg. induction tools as [|a tools IH]; intros lg; cbn [foldl].
  - rewrite decide_False; [lia | apply not_elem_of_nil].
  - rewrite IH, announce_events. pose proof (announce_entry now lg a tid) as Ha.
    apply (f_equal fst) in Ha. unfold log_entry in Ha. simpl in Ha. rewrite Ha.
    rewrite fmap_cons.
    destruct (decide (TrackedTool.id a = tid)) as [Hid|Hid]; simpl.
    + rewrite (decide_True (P := tid ∈ _ :: _)) by (rewrite <- Hid; apply list_elem_of_here).
      destruct (decide _); lia.
    + destruct (decide (tid ∈ TrackedTool.id <$> tools)) as [Hin|Hout].
      * rewrite decide_True; [lia | by apply list_elem_of_further].
      * rewrite decide_False; [lia|]. rewrite elem_of_cons. intros [?|?]; congruence.
Qed.

Lemma forget_events (now : Q) (cur : gset Z) (ks : list Z) (lg : Logging) :
  pending_events (foldl (forget now cur) lg ks) = pending_events lg.
Proof.
  revert lg. induction ks as [|a ks IH]; intros lg; cbn [foldl]; [done|].
  rewrite IH. unfold forget. destruct (decide _); [done|].
  destruct (last_seen_time lg !! a); [|done]. by destruct (Py.Qgtb _ _).
Qed.

Lemma forget_one_entry (now : Q) (cur : gset Z) (lg : Logging) (a tid : Z) :
  log_entry (forget now cur lg a) tid
  = if decide (a = tid)
    then (if decide (tid ∈ cur) then log_entry lg tid
          else forget_entry now (log_entry lg tid))
    else log_entry lg tid.
Proof.
  unfold forget, forget_entry, log_entry.
  destruct (decide (a = tid)) as [-> | Hne].
  - destruct (decide (tid ∈ cur)); [done|]. simpl.
    destruct (last_seen_time lg !! tid) eqn:E; [|by rewrite E].
    destruct (Py.Qgtb _ _); simpl; by rewrite ?lookup_delete_eq, ?E.
  - destruct (decide (a ∈ cur)); [done|]. simpl.
    destruct (last_seen_time lg !! a) eqn:E; [|done].
    destruct (Py.Qgtb _ _); simpl; by rewrite ?lookup_delete_ne.
Qed.

Lemma forget_fold_entry (now : Q) (cur : gset Z) (ks : list Z) (lg : Logging) (tid : Z) :
  NoDup ks →
  log_entry (foldl (forget now cur) lg ks) tid
  = if decide (tid ∈ ks)
    then (if decide (tid ∈ cur) then log_entry lg tid
          else forget_entry now (log_entry lg tid))
    else log_entry lg tid.
Proof.
  intros Hnd. revert lg. induction Hnd as [|a ks Ha Hnd IH]; intros lg; cbn [foldl].
  - rewrite decide_False; [done | apply not_elem_of_nil].
  - rewrite IH, forget_one_entry. destruct (decide (a = tid)) as [-> | Hne].
    + rewrite (decide_False (P := tid ∈ ks)) by done.
      rewrite (decide_True (P := tid ∈ tid :: ks)); [done | apply list_elem_of_here].
    + destruct (decide (tid ∈ ks)) as [Hin|Hout].
      * rewrite (decide_True (P := tid ∈ a :: ks)); [done | by apply list_elem_of_further].
      * rewrite (decide_False (P := tid ∈ a :: ks)); [done|].
        rewrite elem_of_cons. intros [?|?]; congruence.
Qed.

(** One cycle of the logging block, seen from one marker id. *)
Lemma console_logging_entry (lg : Logging) (c : LogCycle) (tid : Z) :
  log_entry (console_logging lg c.1 c.2) tid
  = step_entry c.1 (bool_decide (valid_in tid c)) (log_entry lg tid).
Proof.
  unfold console_logging, valid_in.
  set (lg1 := foldl (announce c.1) lg c.2).
  pose proof (announce_fold_entry c.1 c.2 lg tid) as E1. fold lg1 in E1.
  rewrite forget_fold_entry by apply NoDup_fst_map_to_list.
  rewrite E1. unfold step_entry.
  destruct (decide (tid ∈ TrackedTool.id <$> c.2)) as [Hin|Hout].
  - rewrite bool_decide_eq_true_2 by done.
    rewrite (decide_True (P := tid ∈ list_to_set _)) by set_solver.
    by destruct (decide _).
  - rewrite bool_decide_eq_false_2 by done.
    rewrite (decide_False (P := tid ∈ list_to_set _)) by set_solver.
    destruct (decide (tid ∈ Py.keys (last_printed lg1))) as [Hk|Hk].
    + apply ToolTrackerFacts.elem_of_keys in Hk. unfold log_entry in E1.
      injection E1 as E1 _. rewrite E1 in Hk. unfold log_entry. simpl.
      by destruct Hk as [v ->].
    + rewrite ToolTrackerFacts.elem_of_keys in Hk. unfold log_entry in E1.
      injection E1 as E1 _. rewrite E1 in Hk. unfold log_entry. simpl.
      destruct (last_printed lg !! tid); [|done]. by destruct Hk.
Qed.

Lemma console_logging_events (lg : Logging) (c : LogCycle) (tid : Z) :
  count_events tid (pending_events (console_logging lg c.1 c.2))
  = (count_events tid (pending_events lg)
     + if bool_decide (valid_in tid c)
       then (if last_printed lg !! tid is None then 1 else 0)
       else 0)%nat.
Proof.
  unfold console_logging, valid_in. rewrite forget_events, announce_fold_events.
  by destruct (decide _); [rewrite bool_decide_eq_true_2 | rewrite bool_decide_eq_false_2].
Qed.

(** *** The timeline of one marker id *)

Lemma log_cycle_entry (lg : Logging) (c : LogCycle) (tid : Z) :
  log_entry (log_cycle lg c) tid
  = step_entry c.1 (bool_decide (valid_in tid c)) (log_entry lg tid).
Proof. by rewrite <- console_logging_entry. Qed.

Lemma log_from_pending (lg : Logging) (timeline : list LogCycle) :
  pending_events lg = [] → pending_events (log_from lg timeline) = [].
Proof.
  intros Hlg. unfold log_from.
  destruct timeline as [|c timeline _] using rev_ind; [done|].
  by rewrite foldl_app.
Qed.

Lemma log_run_app (pre timeline : list LogCycle) :
  log_run (pre ++ timeline) = log_from (log_run pre) timeline.
Proof. unfold log_run, log_from. apply foldl_app. Qed.

Lemma events_at_count (timeline : list LogCycle) (c : LogCycle) (tid : Z) :
  count_events tid (events_at timeline c)
  = if bool_decide (valid_in tid c)
    then (if last_printed (log_run timeline) !! tid is None then 1 else 0)%nat
    else 0%nat.
Proof.
  unfold events_at. rewrite console_logging_events.
  assert (pending_events (log_run timeline) = []) as -> by by apply log_from_pending.
  done.
Qed.

(** While the id stays out of the valid set its entries only change by
    being forgotten. *)
Lemma absent_never_announced (timeline : list LogCycle) (lg : Logging) (tid : Z) :
  Forall (λ c, ¬ valid_in tid c) timeline →
  last_printed lg !! tid = None →
  last_printed (log_from lg timeline) !! tid = None.
Proof.
  intros Habs. revert lg. induction Habs as [|c timeline Hc _ IH]; intros lg Hlg; [done|].
  simpl. apply IH. pose proof (log_cycle_entry lg c tid) as E.
  rewrite bool_decide_eq_false_2 in E by done.
  apply (f_equal fst) in E. unfold log_entry, step_entry in E. simpl in E.
  by rewrite Hlg in E.
Qed.

Lemma absent_forgotten (timeline : list LogCycle) (lg : Logging) (tid : Z) :
  Forall (λ c, ¬ valid_in tid c) timeline →
  log_entry lg tid = (None, None) →
  log_entry (log_from lg timeline) tid = (None, None).
Proof.
  intros Habs. revert lg. induction Habs as [|c timeline Hc _ IH]; intros lg Hlg; [done|].
  simpl. apply IH. rewrite log_cycle_entry, Hlg.
  by rewrite bool_decide_eq_false_2.
Qed.

Lemma absent_after_valid (timeline : list LogCycle) (lg : Logging) (tid : Z) (v t1 : Q) :
  Forall (λ c, ¬ valid_in tid c) timeline →
  log_entry lg tid = (Some v, Some t1) →
  log_entry (log_from lg timeline) tid
  = if existsb (λ c : LogCycle, Py.Qgtb (c.1 - t1) REPRINT_AFTER) timeline
    then (None, None)
    else (Some v, Some t1).
Proof.
  intros Habs. revert lg. induction Habs as [|c timeline Hc Habs IH]; intros lg Hlg; [done|].
  cbn [log_from foldl existsb]. fold (log_from (log_cycle lg c) timeline).
  pose proof (log_cycle_entry lg c tid) as E.
  rewrite bool_decide_eq_false_2, Hlg in E by done.
  unfold step_entry, forget_entry in E. cbn [fst snd] in E.
  destruct (Py.Qgtb (c.1 - t1) REPRINT_AFTER); cbn [orb].
  - by apply absent_forgotten.
  - by apply IH.
Qed.

(** C5, as stated, fails: marker 20 is valid at t = 0, out of the valid set
    at t = 1, ..., 10 (so absent for the whole reprint window of 10 seconds
    at t = 10) and valid again at t = 11, and no event is emitted at t = 11. *)
Lemma not_reannounced_at_the_window : ¬ reannounced_after_window.
Proof.
  intros Hr.
  pose proof (Hr [] (0%Q, [tool20]) absent_1_to_10 (11%Q, [tool20]) 20) as E.
  assert (count_events 20 (events_at ([] ++ (0%Q, [tool20]) :: absent_1_to_10)
                             (11%Q, [tool20])) = 0%nat) as E0
    by (vm_compute; reflexivity).
  rewrite E0 in E. discriminate E.
  - apply list_elem_of_here.
  - unfold absent_1_to_10. apply Forall_fmap, Forall_forall.
    intros n _ Hv. by apply elem_of_nil in Hv.
  - apply list_elem_of_here.
  - unfold absent_1_to_10. simpl. do 9 apply Exists_cons_tl. apply Exists_cons_hd.
    vm_compute. discriminate.
Qed.

(** C5, amended.  A marker id that is in the valid set for the first time
    gets exactly one event.  While it stays announced it gets none, neither
    on the cycles where it is out of the valid set nor when it comes back.
    It is forgotten at a cycle where it is out of the valid set and strictly
    more than 10 seconds have passed since the last cycle that had it valid;
    its next appearance then gets exactly one event, and an appearance
    without such a cycle before it gets none. *)
Theorem appearance_events_debounced (pre : list LogCycle) (c1 : LogCycle)
    (mid : list LogCycle) (c2 : LogCycle) (tid : Z) :
  valid_in tid c1 →
  Forall (λ c, ¬ valid_in tid c) mid →
  valid_in tid c2 →
  (Forall (λ c, ¬ valid_in tid c) pre → count_events tid (events_at pre c1) = 1%nat) ∧
  (∀ m1 c m2, mid = m1 ++ c :: m2 →
     count_events tid (events_at (pre ++ c1 :: m1) c) = 0%nat) ∧
  count_events tid (events_at (pre ++ c1 :: mid) c2)
  = (if existsb (λ c : LogCycle, Py.Qgtb (c.1 - c1.1) REPRINT_AFTER) mid
     then 1 else 0)%nat.
Proof.
  intros Hc1 Hmid Hc2. split; [|split].
  - intros Hpre. rewrite events_at_count, bool_decide_eq_true_2 by done.
    pose proof (absent_never_announced pre Logging_init tid Hpre (lookup_empty _)) as Hp.
    change (log_from Logging_init pre) with (log_run pre) in Hp. by rewrite Hp.
  - intros m1 c m2 ->. apply Forall_app in Hmid as [_ Hc].
    apply Forall_cons in Hc as [Hc _].
    by rewrite events_at_count, bool_decide_eq_false_2.
  - rewrite events_at_count, bool_decide_eq_true_2 by done.
    rewrite (log_run_app pre (c1 :: mid)). cbn [log_from foldl].
    fold (log_from (log_cycle (log_run pre) c1) mid).
    pose proof (log_cycle_entry (log_run pre) c1 tid) as E1.
    rewrite bool_decide_eq_true_2 in E1 by done. unfold step_entry in E1.
    pose proof (absent_after_valid mid _ tid _ _ Hmid E1) as E.
    apply (f_equal fst) in E. unfold log_entry in E. cbn [fst] in E. rewrite E.
    by destruct (existsb _ mid).
Qed.

Lemma appearance_events_debounced_witness :
  count_events 20 (events_at [] (0%Q, [tool20])) = 1%nat
  ∧ count_events 20 (events_at ([] ++ (0%Q, [tool20]) :: absent_1_to_11) (12%Q, [tool20]))
    = 1%nat.
Proof.
  destruct (appearance_events_debounced [] (0%Q, [tool20]) absent_1_to_11
              (12%Q, [tool20]) 20) as (H1 & _ & H3).
  - apply list_elem_of_here.
  - unfold absent_1_to_11. apply Forall_fmap, Forall_forall.
    intros n _ Hv. by apply elem_of_nil in Hv.
  - apply list_elem_of_here.
  - split; [apply H1; constructor | exact H3].
Defined.

(** *** Decimation of the marker detector *)

Section Decimation.
Context {Px : Type} `{V : Vision Px}.

(** The logging state and the events of a cycle are those of the timeline
    vocabulary. *)
Lemma cycle_logging (st : Loop) (frame : Image Px) (now : Q) :
  let stable_tools := ToolTracker.get_stable_tools (tracker (cycle st frame now).1) in
  logging (cycle st frame now).1 = log_cycle (logging st) (now, stable_tools)
  ∧ events (cycle st frame now).2
    = pending_events (console_logging (logging st) now stable_tools).
Proof. done. Qed.

(** C2, amended.  On a cycle whose index is not a multiple of
    [ARUCO_EVERY_N] no marker detection takes place (nothing is handed to the
    tracker and the cycle does not depend on the marker oracle) and the
    tracker is not called: its cycle counter and every track's history,
    [frames_lost] and confidence stay as they were, and the published tools
    are the stable tools of that unchanged tracker. *)
Theorem skipped_cycle_leaves_tracker (st : Loop) (frame : Image Px) (now : Q) :
  (frame_count st + 1) `mod` ARUCO_EVERY_N ≠ 0 →
  aruco_detection (frame_count st + 1) frame
    (hand_detection (frame_count st + 1) (cached_hand_boxes st) frame) = None
  ∧ tracker (cycle st frame now).1 = tracker st
  ∧ tools (cycle st frame now).2 = tool_json <$> ToolTracker.get_stable_tools (tracker st)
  ∧ (∀ oracle, cycle (H := with_markers V oracle) st frame now = cycle st frame now).
Proof.
  intros Hskip.
  assert (((frame_count st + 1) `mod` ARUCO_EVERY_N =? 0) = false) as Hb
    by by apply Z.eqb_neq.
  unfold cycle, aruco_detection. rewrite !Hb. repeat split.
Qed.


End Decimation.

#[local] Existing Instance fake_vision.

(** Evaluations with the stand-in libraries: the hand found at frame 3 gives
    the region [bbox0]; frame 4 detects marker 20 in it and maps its corners
    back by the scale 19/12 of the 240 x 240 region. *)
Example hand_region_after_three_frames :
  bbox <$> cached_hand_boxes after_three_frames = [bbox0].
Proof. vm_compute. reflexivity. Qed.

Example detection_at_frame_four :
  (λ d, (det_id d, det_name d, det_center d))
    <$> all_detected_tools frame0 (cached_hand_boxes after_three_frames)
  = [(20, "scalpel"%string, (275, 195))].
Proof. vm_compute. reflexivity. Qed.

Example camera_off_keeps_state (st : Loop) :
  iteration st CameraOff = (st, Some None) ∧ iteration st ReadFailed = (st, None).
Proof. done. Qed.

(** C2, as stated, fails: after four frames marker 20 is tracked, and the
    fifth frame, which does not run the marker detector, leaves its history
    without a miss. *)
Lemma no_miss_on_skipped_cycle : ¬ miss_recorded_on_skipped_cycles.
Proof.
  intros Hm.
  pose proof (Hm unit fake_vision after_four_frames frame0 5%Q) as E.
  apply (f_equal (λ tk, TrackedTool.detection_history
                          <$> ToolTracker.tracked_tools tk !! 20)) in E.
  - vm_compute in E. discriminate E.
  - vm_compute. discriminate.
Qed.

Lemma skipped_cycle_leaves_tracker_witness :
  tracker (cycle after_four_frames frame0 5%Q).1 = tracker after_four_frames
  ∧ TrackedTool.detection_history
      <$> ToolTracker.tracked_tools (tracker (cycle after_four_frames frame0 5%Q).1) !! 20
    = Some [1].
Proof.
  destruct (skipped_cycle_leaves_tracker after_four_frames frame0 5%Q) as (_ & Ht & _).
  - vm_compute. discriminate.
  - split; [exact Ht|]. rewrite Ht. vm_compute. reflexivity.
Defined.


End PipelineFacts.

(** ** Validation of request bodies *)

Module ApiFacts.

Import Api.

Section Handlers.
Context {DB : Type} `{Postgres DB}.

Lemma get_missing (body : gmap string JSON) (key : string) :
  body !! key = None → is_None (get body key) = true.
Proof. unfold get. by intros ->. Qed.

(** A result submission without one of its three fields is answered with
    400 and the database is left as it was. *)
Lemma save_test_result_missing (db : DB) (body : gmap string JSON) :
  body !! "procedureId"%string = None ∨ body !! "marks"%string = None
  ∨ body !! "totalStages"%string = None →
  save_test_result db body
  = (db, JSONResponse
           (JDict [("message"%string,
                    JStr "Missing fields: procedureId, marks, totalStages")]) 400).
Proof.
  intros Hmiss. unfold save_test_result.
  destruct Hmiss as [Hm|[Hm|Hm]]; apply get_missing in Hm; rewrite Hm;
    by rewrite ?orb_true_r.
Qed.

Lemma strip_missing (body : gmap string JSON) (key : string) :
  body !! key = None → strip (get_or_empty body key) = inl ""%string.
Proof. unfold get_or_empty. by intros ->. Qed.

(** A contact request without one of its three fields never inserts. *)
Lemma create_contact_missing_no_insert (db : DB) (body : gmap string JSON) :
  body !! "name"%string = None ∨ body !! "email"%string = None
  ∨ body !! "message"%string = None →
  (create_contact db body).1 = db.
Proof.
  intros Hmiss. unfold create_contact.
  destruct (strip (get_or_empty body "name")) as [name|] eqn:En; [|done].
  destruct (strip (get_or_empty body "email")) as [email|] eqn:Ee; [|done].
  destruct (strip (get_or_empty body "message")) as [message|] eqn:Em; [|done].
  assert (name = ""%string ∨ email = ""%string ∨ message = ""%string) as Hempty.
  { destruct Hmiss as [Hm|[Hm|Hm]]; apply strip_missing in Hm;
      [left | right; left | right; right]; congruence. }
  assert (bool_decide (name = ""%string) || bool_decide (email = ""%string)
          || bool_decide (message = ""%string) = true) as ->; [|done].
  destruct Hempty as [-> | [-> | ->]];
    rewrite (bool_decide_eq_true_2 (""%string = ""%string)) by done;
    by rewrite ?orb_true_r.
Qed.

(** When the fields it supplies are strings, it is answered with 400. *)
Lemma create_contact_missing_strings (db : DB) (body : gmap string JSON) :
  supplies_strings body →
  body !! "name"%string = None ∨ body !! "email"%string = None
  ∨ body !! "message"%string = None →
  create_contact db body
  = (db, JSONResponse
           (JDict [("message"%string, JStr "name, email and message are required")])
           400).
Proof.
  intros Hstr Hmiss.
  assert (∀ key, key ∈ ["name"; "email"; "message"]%string →
            ∃ s, strip (get_or_empty body key) = inl s) as Hs.
  { intros key Hkey. unfold get_or_empty.
    destruct (body !! key) as [v|] eqn:E; [|by eexists].
    destruct (Hstr key v Hkey E) as [s ->]. by eexists. }
  pose proof (create_contact_missing_no_insert db body Hmiss) as Hdb.
  revert Hdb. unfold create_contact.
  destruct (Hs "name"%string) as [name En]; [set_solver|].
  destruct (Hs "email"%string) as [email Ee]; [set_solver|].
  destruct (Hs "message"%string) as [message Em]; [set_solver|].
  rewrite En, Ee, Em.
  assert (name = ""%string ∨ email = ""%string ∨ message = ""%string) as Hempty.
  { clear Hs Hstr. destruct Hmiss as [Hm|[Hm|Hm]]; apply strip_missing in Hm;
      [left | right; left | right; right]; congruence. }
  assert (bool_decide (name = ""%string) || bool_decide (email = ""%string)
          || bool_decide (message = ""%string) = true) as ->; [|done].
  destruct Hempty as [-> | [-> | ->]];
    rewrite (bool_decide_eq_true_2 (""%string = ""%string)) by done;
    by rewrite ?orb_true_r.
Qed.

(** C9, at the failing input.  A contact request whose body is
    [{"name": 5}] has neither an email nor a message, but it is not answered
    with 400: [strip] is called on the number and the exception leaves the
    handler.  Nothing is inserted. *)
Theorem create_contact_numeric_name_raises (db : DB) :
  contact_with_numeric_name !! "email"%string = None
  ∧ contact_with_numeric_name !! "message"%string = None
  ∧ create_contact db contact_with_numeric_name = (db, Raised "AttributeError").
Proof. repeat split. Qed.

End Handlers.

End ApiFacts.

(** * Further properties *)

(** ** How long a track lives *)

Module LifetimeFacts.

Import Config.

Lemma window_short (h : list Z) :
  (length h ≤ DETECTION_HISTORY_SIZE)%nat → window h = h.
Proof.
  intros Hle. unfold window.
  replace (length h - DETECTION_HISTORY_SIZE)%nat with 0%nat by lia. apply drop_0.
Qed.

Lemma hits_app (h k : list Z) : hits (h ++ k) = (hits h + hits k)%nat.
Proof. unfold hits. by rewrite filter_app, length_app. Qed.

Lemma hits_zeros (j : nat) : hits (replicate j 0) = 0%nat.
Proof. induction j as [|j IH]; [done|]. simpl. unfold hits in *. by rewrite filter_cons_False. Qed.

(** A valid track has a hit in its history. *)
Lemma valid_has_hit (tr : TrackedTool.t) :
  track_ok tr → (0 < hits (TrackedTool.detection_history tr))%nat.
Proof.
  intros [[Hb Hn Hl Hc] Hv]. apply ToolTrackerFacts.is_valid_iff in Hv as [_ Hconf].
  rewrite Hc, TrackedToolFacts.mean_hits in Hconf by done.
  unfold Qle, MIN_CONFIDENCE_THRESHOLD in Hconf. simpl in Hconf. lia.
Qed.

(** A valid track cannot end with seven misses. *)
Lemma seven_misses_invalid (tr : TrackedTool.t) (j : nat) (h : list Z) :
  track_ok tr → TrackedTool.detection_history tr = h ++ replicate j 0 → (j < 7)%nat.
Proof.
  intros [[Hb Hn Hl Hc] Hv] Hh. apply ToolTrackerFacts.is_valid_iff in Hv as [_ Hconf].
  rewrite Hc, TrackedToolFacts.mean_hits in Hconf by done.
  pose proof (TrackedToolFacts.hits_le_length h) as Hh'.
  rewrite Hh in Hconf, Hl, Hn. rewrite hits_app, hits_zeros in Hconf.
  rewrite length_app, length_replicate in Hconf, Hl.
  unfold DETECTION_HISTORY_SIZE in Hl.
  unfold Qle, MIN_CONFIDENCE_THRESHOLD in Hconf. simpl in Hconf.
  destruct (decide (length h + j = 0)%nat) as [E|E].
  - lia.
  - rewrite TrackedToolFacts.Zpos_of_nat in Hconf by done. lia.
Qed.

Lemma missed_step (fc : Z) (j : nat) (o : option TrackedTool.t) :
  missed j o → missed (S j) (sweep_track fc o).
Proof.
  intros Hm tr. unfold sweep_track. destruct o as [tr0|]; [|done].
  cbv zeta. destruct (TrackedTool.is_valid _) eqn:Hv; [|done]. intros [= <-].
  destruct (Hm tr0 eq_refl) as [Hok [h Hh]]. split.
  - split; [apply TrackedToolFacts.well_formed_predict, Hok | done].
  - simpl. rewrite Hh. unfold Py.deque_append.
    assert (h ≠ []) as Hne.
    { intros ->. pose proof (valid_has_hit tr0 Hok) as Hpos.
      rewrite Hh in Hpos. simpl in Hpos. rewrite hits_zeros in Hpos. lia. }
    destruct (_ =? _)%nat.
    + exists (tail h). destruct h as [|b h]; [done|]. cbn [tail app].
      rewrite <- app_assoc. f_equal. symmetry. apply replicate_cons_app.
    + exists h. rewrite <- app_assoc. f_equal. symmetry. apply replicate_cons_app.
Qed.

Lemma missed_run (k : Z) (misses : list (list Detection)) (self : ToolTracker.t) (j : nat) :
  Forall (λ dets, ¬ detects k dets) misses →
  missed j (ToolTracker.tracked_tools self !! k) →
  missed (j + length misses)
    (ToolTracker.tracked_tools (ToolTracker.run self misses) !! k).
Proof.
  intros Hmiss. revert self j.
  induction Hmiss as [|dets misses Hd _ IH]; intros self j Hj.
  - simpl. by rewrite Nat.add_0_r.
  - simpl. replace (j + S (length misses))%nat with (S j + length misses)%nat by lia.
    apply IH. rewrite ToolTrackerFacts.update_lookup. cbv zeta.
    rewrite decide_False by done. by apply missed_step.
Qed.

(** X1. No track outlives seven consecutive tracker cycles without a
    detection of its marker: whatever happened before, after seven or more
    [update] calls in a row that do not detect marker [k], the tracker holds
    no track for [k]. *)
Theorem gone_after_seven_misses (calls misses : list (list Detection)) (k : Z) :
  (7 ≤ length misses)%nat →
  Forall (λ dets, ¬ detects k dets) misses →
  ToolTracker.tracked_tools
    (ToolTracker.run ToolTracker.init (calls ++ misses)) !! k = None.
Proof.
  intros Hlen Hmiss. unfold ToolTracker.run. rewrite foldl_app.
  fold (ToolTracker.run ToolTracker.init calls).
  set (self := ToolTracker.run ToolTracker.init calls).
  fold (ToolTracker.run self misses).
  assert (missed 0 (ToolTracker.tracked_tools self !! k)) as H0.
  { intros tr Htr. split.
    - by apply (ToolTrackerFacts.tracker_ok_run _ calls ToolTrackerFacts.tracker_ok_init k).
    - exists (TrackedTool.detection_history tr). simpl. by rewrite app_nil_r. }
  pose proof (missed_run k misses self 0 Hmiss H0) as Hm.
  destruct (ToolTracker.tracked_tools (ToolTracker.run self misses) !! k) as [tr|] eqn:E;
    [|done].
  destruct (Hm tr eq_refl) as [Hok [h Hh]].
  pose proof (seven_misses_invalid tr _ h Hok Hh). simpl in *. lia.
Qed.

Lemma gone_after_seven_misses_witness :
  ToolTracker.tracked_tools
    (ToolTracker.run ToolTracker.init
       (replicate 12 [det 20 (5, 5)] ++ replicate 7 [det 21 (1, 1)])) !! 20 = None.
Proof.
  apply gone_after_seven_misses.
  - vm_compute. lia.
  - apply Forall_replicate. unfold detects. vm_compute.
    intros Hin. apply list_elem_of_singleton in Hin. discriminate Hin.
Defined.

(** *** Ten hits, then misses *)

Lemma counted_weaken (m n : nat) (o : option TrackedTool.t) :
  (n ≤ m)%nat → counted m o → counted n o.
Proof.
  intros Hle [Hwf (l & m' & Hm & Hh)]. split; [done|]. exists l, m'. split; [lia | done].
Qed.

Lemma observe_track_counted (fc k : Z) (m : nat) (o : option TrackedTool.t) (d : Detection) :
  det_id d = k → counted m o →
  is_Some (observe_track fc k o d) ∧ counted (S m) (observe_track fc k o d).
Proof.
  intros Hd [Hwf (l & m' & Hm & Hh)]. unfold observe_track. rewrite decide_True by done.
  split; [by eexists|]. split.
  - intros tr [= <-]. destruct o as [tr0|].
    + apply TrackedToolFacts.well_formed_update. by apply Hwf.
    + apply TrackedToolFacts.well_formed_init.
  - exists l, (S m'). split; [lia|].
    rewrite replicate_S_end, app_assoc, <- TrackedToolFacts.deque_append_window, <- Hh.
    by destruct o.
Qed.

Lemma observe_fold_counted (fc k : Z) (dets : list Detection) (m : nat)
    (o : option TrackedTool.t) :
  counted m o →
  counted m (foldl (observe_track fc k) o dets)
  ∧ (detects k dets →
     is_Some (foldl (observe_track fc k) o dets)
     ∧ counted (S m) (foldl (observe_track fc k) o dets)).
Proof.
  revert m o. induction dets as [|d dets IH]; intros m o Hc.
  - split; [done|]. by intros ?%elem_of_nil.
  - cbn [foldl]. destruct (decide (det_id d = k)) as [Hd|Hd].
    + destruct (observe_track_counted fc k m o d Hd Hc) as [Hs Hc'].
      destruct (IH (S m) _ Hc') as [Hall _].
      split; [by apply (counted_weaken (S m)); [lia|]|]. intros _. split; [|done].
      destruct (observe_track fc k o d) as [tr|] eqn:E; [|by destruct Hs].
      by apply ToolTrackerFacts.observe_track_Some.
    + assert (observe_track fc k o d = o) as ->
        by (unfold observe_track; by rewrite decide_False).
      destruct (IH m o Hc) as [Hall Hdet]. split; [done|].
      intros Hin. apply Hdet. unfold detects in *.
      rewrite fmap_cons, elem_of_cons in Hin. by destruct Hin.
Qed.

Lemma hits_counted (k : Z) (calls : list (list Detection)) (self : ToolTracker.t) (m : nat) :
  Forall (detects k) calls →
  counted m (ToolTracker.tracked_tools self !! k) →
  counted (m + length calls)
    (ToolTracker.tracked_tools (ToolTracker.run self calls) !! k)
  ∧ (calls ≠ [] → is_Some (ToolTracker.tracked_tools (ToolTracker.run self calls) !! k)).
Proof.
  intros Hhits. revert self m.
  induction Hhits as [|dets calls Hd _ IH]; intros self m Hc.
  - simpl. by rewrite Nat.add_0_r.
  - simpl. replace (m + S (length calls))%nat with (S m + length calls)%nat by lia.
    assert (is_Some (ToolTracker.tracked_tools (ToolTracker.update self dets) !! k)
            ∧ counted (S m) (ToolTracker.tracked_tools (ToolTracker.update self dets) !! k))
      as [Hs Hc'].
    { rewrite ToolTrackerFacts.update_lookup. cbv zeta. rewrite decide_True by done.
      by apply observe_fold_counted. }
    destruct (IH _ _ Hc') as [Hcount Hsome]. split; [done|]. intros _.
    destruct calls as [|c calls]; [done|]. by apply Hsome.
Qed.

Lemma window_ones (l : list Z) (m : nat) :
  (10 ≤ m)%nat → window (l ++ replicate m 1) = replicate 10 1.
Proof.
  intros Hm. unfold window, DETECTION_HISTORY_SIZE.
  rewrite length_app, length_replicate, drop_app_ge by lia.
  rewrite drop_replicate. f_equal. lia.
Qed.

Lemma fading_step (F : Z) (j : nat) (tr : TrackedTool.t) :
  (j < 6)%nat → fading F j tr →
  sweep_track (F + Z.of_nat j + 1) (Some tr)
  = Some (TrackedTool.predict tr (F + Z.of_nat j + 1))
  ∧ fading F (S j) (TrackedTool.predict tr (F + Z.of_nat j + 1)).
Proof.
  intros Hj [Hh Hs Hl Hc].
  assert (fading F (S j) (TrackedTool.predict tr (F + Z.of_nat j + 1))) as Hf.
  { split; simpl; [|done| rewrite Hs; lia | done]. rewrite Hh.
    do 6 (destruct j as [|j]; [reflexivity|]). lia. }
  split; [|done]. unfold sweep_track. cbv zeta.
  assert (TrackedTool.is_valid (TrackedTool.predict tr (F + Z.of_nat j + 1)) = true)
    as ->; [|done].
  apply ToolTrackerFacts.is_valid_iff. destruct Hf as [Hh' _ Hl' Hc']. split.
  - rewrite Hl'. unfold MAX_LOST_FRAMES. lia.
  - rewrite Hc', Hh'. do 6 (destruct j as [|j]; [by vm_compute|]). lia.
Qed.

Lemma fading_run (k : Z) (misses : list (list Detection)) (self : ToolTracker.t)
    (j : nat) (tr : TrackedTool.t) :
  Forall (λ dets, ¬ detects k dets) misses →
  (j + length misses ≤ 6)%nat →
  ToolTracker.tracked_tools self !! k = Some tr →
  fading (ToolTracker.frame_count self - Z.of_nat j) j tr →
  ∃ tr', ToolTracker.tracked_tools (ToolTracker.run self misses) !! k = Some tr'
    ∧ fading (ToolTracker.frame_count self - Z.of_nat j) (j + length misses) tr'.
Proof.
  intros Hmiss. revert self j tr.
  induction Hmiss as [|dets misses Hd _ IH]; intros self j tr Hlen Hk Hf.
  - exists tr. simpl. by rewrite Nat.add_0_r.
  - simpl in *. replace (j + S (length misses))%nat with (S j + length misses)%nat by lia.
    set (F := ToolTracker.frame_count self - Z.of_nat j) in *.
    destruct (fading_step F j tr) as [Hsw Hf']; [lia | done |].
    replace (F + Z.of_nat j + 1) with (ToolTracker.frame_count self + 1) in *
      by (unfold F; lia).
    replace F with (ToolTracker.frame_count (ToolTracker.update self dets) - Z.of_nat (S j))
      by (rewrite ToolTrackerFacts.update_frame_count; unfold F; lia).
    apply (IH _ (S j) (TrackedTool.predict tr (ToolTracker.frame_count self + 1))).
    + lia.
    + rewrite ToolTrackerFacts.update_lookup. cbv zeta.
      rewrite decide_False by done. by rewrite Hk.
    + replace (ToolTracker.frame_count (ToolTracker.update self dets) - Z.of_nat (S j))
        with F by (rewrite ToolTrackerFacts.update_frame_count; unfold F; lia).
      done.
Qed.

(** X2. The tolerance to missed detections: a marker detected in ten or more
    consecutive tracker cycles stays tracked through up to six consecutive
    cycles that miss it; after [n <= 6] misses its confidence is
    [(10 - n) / 10] and its [frames_lost] is [n]. *)
Theorem survives_six_misses (calls hit_calls misses : list (list Detection)) (k : Z) :
  (10 ≤ length hit_calls)%nat →
  Forall (detects k) hit_calls →
  (length misses ≤ 6)%nat →
  Forall (λ dets, ¬ detects k dets) misses →
  ∃ tr, ToolTracker.tracked_tools
          (ToolTracker.run ToolTracker.init (calls ++ hit_calls ++ misses)) !! k = Some tr
    ∧ TrackedTool.confidence tr = ((10 - Z.of_nat (length misses)) # 10)
    ∧ TrackedTool.frames_lost tr = Z.of_nat (length misses)
    ∧ TrackedTool.is_valid tr = true.
Proof.
  intros Hlen Hhits Hn Hmiss.
  destruct hit_calls as [|last hs _] using rev_ind; [simpl in Hlen; lia|].
  rewrite length_app in Hlen. simpl in Hlen.
  apply Forall_app in Hhits as [Hhs Hlast]. apply Forall_cons in Hlast as [Hlast _].
  unfold ToolTracker.run. rewrite !foldl_app. cbn [foldl].
  fold (ToolTracker.run ToolTracker.init calls).
  set (s0 := ToolTracker.run ToolTracker.init calls).
  fold (ToolTracker.run s0 hs). set (s1 := ToolTracker.run s0 hs).
  set (s2 := ToolTracker.update s1 last). fold (ToolTracker.run s2 misses).
  assert (counted 0 (ToolTracker.tracked_tools s0 !! k)) as H0.
  { split.
    - intros tr Htr.
      by destruct (ToolTrackerFacts.tracker_ok_run _ calls ToolTrackerFacts.tracker_ok_init
                     k tr Htr).
    - exists (history_of (ToolTracker.tracked_tools s0 !! k)), 0%nat. split; [lia|].
      simpl. rewrite app_nil_r. symmetry. apply window_short.
      destruct (ToolTracker.tracked_tools s0 !! k) as [tr|] eqn:E; simpl; [|lia].
      by destruct (ToolTrackerFacts.tracker_ok_run _ calls ToolTrackerFacts.tracker_ok_init
                     k tr E) as [[] _]. }
  destruct (hits_counted k hs s0 0 Hhs H0) as [H1 Hs1].
  destruct Hs1 as [tr1 Htr1]; [by destruct hs; [simpl in Hlen; lia|]|].
  fold s1 in H1, Htr1.
  pose proof (ToolTrackerFacts.update_lookup s1 last k) as L. cbv zeta in L.
  rewrite decide_True in L by done. fold s2 in L.
  destruct (observe_fold_counted (ToolTracker.frame_count s1 + 1) k last _ _ H1)
    as [_ Hc2]. destruct (Hc2 Hlast) as [[tr2 Htr2] [Hwf2 (l & m' & Hm' & Hh2)]].
  assert (well_formed tr2) as Hw2 by (by apply Hwf2).
  rewrite Htr1 in Htr2. rewrite Htr1, Htr2 in L.
  rewrite Htr1, Htr2 in Hh2. simpl in Hh2. rewrite window_ones in Hh2 by lia.
  destruct (ToolTrackerFacts.observe_track_result _ _ _ _ _ Hlast Htr2)
    as [[Hseen Hlost]|[[=] _]].
  assert (fading (ToolTracker.frame_count s2 - Z.of_nat 0) 0 tr2) as Hf.
  { split; [done | | done | by destruct Hw2].
    rewrite Hseen. unfold s2. rewrite ToolTrackerFacts.update_frame_count. simpl. lia. }
  destruct (fading_run k misses s2 0 tr2 Hmiss Hn L Hf) as (tr & Htr & [Hh Hs Hl Hc]).
  exists tr. split; [done|]. simpl in Hh, Hl.
  assert (TrackedTool.confidence tr = (10 - Z.of_nat (length misses)) # 10) as Hconf.
  { rewrite Hc, Hh. revert Hn. generalize (length misses) as n. intros n Hn.
    do 7 (destruct n as [|n]; [reflexivity|]). lia. }
  split; [done|]. split; [done|].
  apply ToolTrackerFacts.is_valid_iff. rewrite Hl, Hconf. split.
  - unfold MAX_LOST_FRAMES. lia.
  - unfold Qle, MIN_CONFIDENCE_THRESHOLD. simpl. lia.
Qed.

Lemma survives_six_misses_witness :
  ∃ tr, ToolTracker.tracked_tools
          (ToolTracker.run ToolTracker.init
             ([] ++ replicate 10 [det 20 (5, 5)] ++ replicate 6 [det 21 (1, 1)])) !! 20
        = Some tr
    ∧ TrackedTool.confidence tr = (4 # 10)
    ∧ TrackedTool.is_valid tr = true.
Proof.
  destruct (survives_six_misses [] (replicate 10 [det 20 (5, 5)])
              (replicate 6 [det 21 (1, 1)]) 20) as (tr & Htr & Hc & _ & Hv).
  - vm_compute. lia.
  - apply Forall_replicate. unfold detects. vm_compute. apply list_elem_of_here.
  - vm_compute. lia.
  - apply Forall_replicate. unfold detects. vm_compute.
    intros Hin. apply list_elem_of_singleton in Hin. discriminate Hin.
  - exists tr. split; [exact Htr|]. split; [exact Hc | exact Hv].
Defined.

End LifetimeFacts.

(** ** Tracks of different markers *)

Module IndependenceFacts.

Lemma observe_track_filter (fc k : Z) (dets : list Detection) (o : option TrackedTool.t) :
  foldl (observe_track fc k) o dets = foldl (observe_track fc k) o (detections_of k dets).
Proof.
  unfold detections_of. revert o. induction dets as [|d dets IH]; intros o; [done|].
  cbn [foldl]. destruct (decide (det_id d = k)) as [Hd|Hd].
  - rewrite filter_cons_True by done. cbn [foldl]. apply IH.
  - rewrite filter_cons_False by done. rewrite <- IH. f_equal.
    unfold observe_track. by rewrite decide_False.
Qed.

Lemma detects_filter (k : Z) (dets : list Detection) :
  k ∈ det_id <$> dets ↔ k ∈ det_id <$> detections_of k dets.
Proof.
  unfold detections_of. rewrite !list_elem_of_fmap. split.
  - intros (d & -> & Hd). exists d. split; [done|]. by apply list_elem_of_filter.
  - intros (d & -> & Hd). exists d. split; [done|]. by apply list_elem_of_filter in Hd as [_ ?].
Qed.

(** X3. What [update] does to the track of a marker depends only on that
    marker's previous track, on the cycle number and on the detections of
    that marker, in order: detections and tracks of other markers have no
    influence on it. *)
Theorem tracks_do_not_interfere (self self' : ToolTracker.t)
    (dets dets' : list Detection) (k : Z) :
  ToolTracker.tracked_tools self !! k = ToolTracker.tracked_tools self' !! k →
  ToolTracker.frame_count self = ToolTracker.frame_count self' →
  detections_of k dets = detections_of k dets' →
  ToolTracker.tracked_tools (ToolTracker.update self dets) !! k
  = ToolTracker.tracked_tools (ToolTracker.update self' dets') !! k.
Proof.
  intros Hk Hfc Hd. rewrite !ToolTrackerFacts.update_lookup. cbv zeta.
  rewrite <- Hk, <- Hfc.
  rewrite (observe_track_filter _ k dets), (observe_track_filter _ k dets'), Hd.
  destruct (decide (k ∈ det_id <$> dets)) as [Hin|Hout].
  - rewrite decide_True; [done|]. apply (proj2 (detects_filter k dets')).
    rewrite <- Hd. by apply (proj1 (detects_filter k dets)).
  - rewrite decide_False; [done|]. intros Hin. apply Hout.
    apply (proj2 (detects_filter k dets)). rewrite Hd.
    by apply (proj1 (detects_filter k dets')).
Qed.

Lemma tracks_do_not_interfere_witness :
  ToolTracker.tracked_tools
    (ToolTracker.update (ToolTracker.update ToolTracker.init [det 20 (5, 5)])
       [det 21 (1, 1); det 20 (6, 6); det 22 (2, 2)]) !! 20
  = ToolTracker.tracked_tools
      (ToolTracker.update (ToolTracker.update ToolTracker.init [det 20 (5, 5); det 23 (0, 0)])
         [det 20 (6, 6)]) !! 20.
Proof.
  apply tracks_do_not_interfere; vm_compute; reflexivity.
Defined.

End IndependenceFacts.

(** ** What a snapshot can contain *)

Module SnapshotFacts.

Import Config Detector Pipeline.

Lemma round3_range (x : Q) :
  (MIN_CONFIDENCE_THRESHOLD <= x)%Q → (x <= 1)%Q →
  (MIN_CONFIDENCE_THRESHOLD <= Py.round3 x <= 1)%Q.
Proof.
  intros Hlo Hhi. unfold Py.round3, MIN_CONFIDENCE_THRESHOLD in *.
  assert (400 ≤ Qfloor (x * 1000 + (1 # 2))) as H1.
  { change 400 with (Qfloor (inject_Z 400)). apply Qfloor_resp_le.
    apply Qle_trans with ((4 # 10) * 1000 + (1 # 2))%Q; [done|].
    apply Qplus_le_l, Qmult_le_compat_r; done. }
  assert (Qfloor (x * 1000 + (1 # 2)) ≤ 1000) as H2.
  { change 1000 with (Qfloor (1 * 1000 + (1 # 2))). apply Qfloor_resp_le.
    apply Qplus_le_l, Qmult_le_compat_r; done. }
  revert H1 H2. generalize (Qfloor (x * 1000 + (1 # 2))). intros n H1 H2.
  unfold Qle. simpl. lia.
Qed.

Lemma observe_track_registered (fc k : Z) (dets : list Detection) (o : option TrackedTool.t) :
  Forall registered_detection dets →
  (∀ tr, o = Some tr → TrackedTool.id tr = k ∧ TOOL_MARKERS !! k = Some (TrackedTool.name tr)) →
  ∀ tr, foldl (observe_track fc k) o dets = Some tr →
        TrackedTool.id tr = k ∧ TOOL_MARKERS !! k = Some (TrackedTool.name tr).
Proof.
  intros Hreg. revert o. induction Hreg as [|d dets Hd _ IH]; intros o Ho; [done|].
  cbn [foldl]. apply IH. unfold observe_track. intros tr.
  destruct (decide (det_id d = k)) as [Hk|Hk]; [|by apply Ho].
  intros [= <-]. destruct o as [tr0|]; simpl.
  - by apply Ho.
  - split; [done|]. by rewrite <- Hk.
Qed.

Lemma registered_update (self : ToolTracker.t) (dets : list Detection) :
  Forall registered_detection dets →
  registered_tracker self → registered_tracker (ToolTracker.update self dets).
Proof.
  intros Hreg Hself k tr. rewrite ToolTrackerFacts.update_lookup. cbv zeta.
  destruct (decide _).
  - apply observe_track_registered; [done|]. intros tr0. apply Hself.
  - unfold sweep_track. destruct (ToolTracker.tracked_tools self !! k) as [tr0|] eqn:E; [|done].
    cbv zeta. destruct (TrackedTool.is_valid _); [|done]. intros [= <-]. simpl.
    by apply Hself.
Qed.

Section Loop.
Context {Px : Type} `{V : Vision Px}.

Lemma all_detected_tools_registered (frame : Image Px) (hand_boxes : list HandInfo) :
  Forall registered_detection (all_detected_tools frame hand_boxes).
Proof.
  apply Forall_forall. intros d Hd. unfold all_detected_tools in Hd.
  apply list_elem_of_bind in Hd as [hand_info [Hd _]].
  apply DetectorFacts.detect_aruco_in_hand_roi_elem in Hd as [_ [entry [_ Hc]]].
  apply DetectorFacts.candidate_Some in Hc as (Hid & Hreg & _).
  unfold registered_detection. by rewrite Hid.
Qed.

(** What holds of the loop state between two cycles. *)
Lemma loop_invariant (frames : list (Image Px * Q)) :
  tracker_ok (tracker (loop_run frames))
  ∧ registered_tracker (tracker (loop_run frames))
  ∧ pending_events (logging (loop_run frames)) = [].
Proof.
  unfold loop_run. induction frames as [|fn frames IH] using rev_ind.
  - split; [apply ToolTrackerFacts.tracker_ok_init|]. split; [apply map_Forall_empty | done].
  - rewrite foldl_app. cbn [foldl]. destruct IH as (Hok & Hreg & _).
    set (st := foldl _ Loop_init frames) in *.
    split; [|split; [|done]]; unfold cycle, aruco_detection; simpl;
      destruct (_ =? 0); simpl; try done.
    + by apply ToolTrackerFacts.tracker_ok_update.
    + apply registered_update; [apply all_detected_tools_registered | done].
Qed.

Lemma stable_ids_NoDup (self : ToolTracker.t) :
  registered_tracker self →
  NoDup (TrackedTool.id <$> ToolTracker.get_stable_tools self).
Proof.
  intros Hreg. unfold ToolTracker.get_stable_tools, Py.values.
  eapply sublist_NoDup; [apply (NoDup_fst_map_to_list (ToolTracker.tracked_tools self))|].
  assert (TrackedTool.id <$> (map_to_list (ToolTracker.tracked_tools self)).*2
          = (map_to_list (ToolTracker.tracked_tools self)).*1) as <-.
  { assert (Forall (λ kv : Z * TrackedTool.t, TrackedTool.id kv.2 = kv.1)
              (map_to_list (ToolTracker.tracked_tools self))) as Hall.
    { apply Forall_forall. intros [k tr] Hin. apply elem_of_map_to_list in Hin.
      by destruct (Hreg k tr Hin). }
    induction Hall as [|kv l Hkv _ IH]; [done|]. rewrite !fmap_cons. by f_equal. }
  apply fmap_sublist, sublist_filter.
Qed.

Lemma stable_count (self : ToolTracker.t) :
  registered_tracker self →
  (length (ToolTracker.get_stable_tools self) ≤ 14)%nat.
Proof.
  intros Hreg. unfold ToolTracker.get_stable_tools, Py.values.
  etrans; [apply length_filter|]. rewrite length_fmap, length_map_to_list.
  change 14%nat with (base.size (dom TOOL_MARKERS)).
  rewrite <- (size_dom (ToolTracker.tracked_tools self)).
  apply subseteq_size. intros k [tr Hk]%elem_of_dom. apply elem_of_dom.
  destruct (Hreg k tr Hk) as [_ Hn]. by eexists.
Qed.

Lemma cycle_invariant (frames : list (Image Px * Q)) (frame : Image Px) (now : Q) :
  tracker_ok (tracker (cycle (loop_run frames) frame now).1)
  ∧ registered_tracker (tracker (cycle (loop_run frames) frame now).1).
Proof.
  pose proof (loop_invariant (frames ++ [(frame, now)])) as (Hok & Hreg & _).
  unfold loop_run in Hok, Hreg. rewrite foldl_app in Hok, Hreg. by cbn [foldl fst snd] in Hok, Hreg.
Qed.

Lemma published_ids_NoDup (frames : list (Image Px * Q)) (frame : Image Px) (now : Q) :
  NoDup (tj_id <$> tools (cycle (loop_run frames) frame now).2).
Proof.
  destruct (cycle_invariant frames frame now) as [_ Hreg].
  assert (tools (cycle (loop_run frames) frame now).2
          = tool_json <$> ToolTracker.get_stable_tools
                            (tracker (cycle (loop_run frames) frame now).1)) as -> by done.
  rewrite <- list_fmap_compose. by apply stable_ids_NoDup.
Qed.

(** X4. The tools of every snapshot the loop publishes are registered
    markers under their registry names, each marker at most once (so never
    more than the 14 of the registry), each with a confidence between 0.4
    and 1. *)
Theorem published_tools_registered (frames : list (Image Px * Q)) (frame : Image Px)
    (now : Q) :
  let snap := (cycle (loop_run frames) frame now).2 in
  Forall (λ tj, TOOL_MARKERS !! tj_id tj = Some (tj_name tj)
                ∧ (MIN_CONFIDENCE_THRESHOLD <= tj_confidence tj <= 1)%Q) (tools snap)
  ∧ NoDup (tj_id <$> tools snap)
  ∧ (length (tools snap) ≤ 14)%nat.
Proof.
  intros snap.
  destruct (cycle_invariant frames frame now) as [Hok Hreg].
  set (tk := tracker (cycle (loop_run frames) frame now).1) in *.
  assert (tools snap = tool_json <$> ToolTracker.get_stable_tools tk) as -> by done.
  split; [|split].
  - apply Forall_fmap, Forall_forall. intros tr Htr. simpl.
    apply list_elem_of_filter in Htr as [Hv [k Hk]%ToolTrackerFacts.elem_of_values].
    destruct (Hreg k tr Hk) as [-> Hname]. split; [done|].
    destruct (Hok k tr Hk) as [[Hb Hn Hl Hc] _].
    apply ToolTrackerFacts.is_valid_iff in Hv as [_ Hconf].
    apply round3_range; [done|]. rewrite Hc. by apply TrackedToolFacts.mean_range.
  - rewrite <- list_fmap_compose. by apply stable_ids_NoDup.
  - rewrite length_fmap. by apply stable_count.
Qed.

Lemma announce_fold_pending (now : Q) (stable : list TrackedTool.t) (lg : Logging) :
  ∃ l, l `sublist_of` stable
    ∧ pending_events (foldl (announce now) lg stable) = pending_events lg ++ (tool_json <$> l).
Proof.
  revert lg. induction stable as [|a stable IH]; intros lg.
  - exists []. split; [done|]. simpl. by rewrite app_nil_r.
  - cbn [foldl]. destruct (IH (announce now lg a)) as (l & Hl & ->).
    unfold announce. destruct (last_printed lg !! TrackedTool.id a); simpl.
    + exists l. split; [by apply sublist_cons | done].
    + exists (a :: l). split; [by apply sublist_skip|]. by rewrite <- app_assoc.
Qed.

(** X5. The events of a published snapshot are taken from its tools, in the
    same order: an event is never about a marker that the snapshot does not
    list, and no marker has two events in one snapshot. *)
Theorem events_among_tools (frames : list (Image Px * Q)) (frame : Image Px) (now : Q) :
  let snap := (cycle (loop_run frames) frame now).2 in
  events snap `sublist_of` tools snap ∧ NoDup (tj_id <$> events snap).
Proof.
  intros snap.
  assert (events snap `sublist_of` tools snap) as Hsub.
  { pose proof (loop_invariant frames) as (_ & _ & Hpending).
    unfold snap, cycle. cbn [snd events tools]. unfold console_logging.
    rewrite PipelineFacts.forget_events.
    match goal with
    | |- pending_events (foldl (announce now) _ ?stable) `sublist_of` _ =>
        destruct (announce_fold_pending now stable (logging (loop_run frames)))
          as (l & Hl & ->)
    end.
    rewrite Hpending. simpl. by apply fmap_sublist. }
  split; [done|]. eapply sublist_NoDup.
  - apply (published_ids_NoDup frames frame now).
  - by apply fmap_sublist.
Qed.

(** X6. After [n] captured frames the loop's frame counter is [n] and the
    tracker has been called [n / 2] times: a tracker cycle is two frames. *)
Theorem tracker_cycle_is_two_frames (frames : list (Image Px * Q)) :
  frame_count (loop_run frames) = Z.of_nat (length frames)
  ∧ ToolTracker.frame_count (tracker (loop_run frames)) = Z.of_nat (length frames) `div` 2.
Proof.
  unfold loop_run. induction frames as [|fn frames [IH1 IH2]] using rev_ind; [done|].
  rewrite foldl_app, length_app. cbn [foldl length].
  set (st := foldl _ Loop_init frames) in *.
  assert (frame_count (cycle st fn.1 fn.2).1 = frame_count st + 1) as -> by done.
  split; [lia|]. unfold cycle, aruco_detection, ARUCO_EVERY_N. cbn [fst tracker].
  rewrite IH1. replace (Z.of_nat (length frames + 1)) with (Z.of_nat (length frames) + 1) by lia.
  destruct (Z.eqb_spec ((Z.of_nat (length frames) + 1) `mod` 2) 0) as [E|E].
  - rewrite ToolTrackerFacts.update_frame_count, IH2.
    generalize dependent (Z.of_nat (length frames)). intros. Z.div_mod_to_equations. lia.
  - rewrite IH2.
    generalize dependent (Z.of_nat (length frames)). intros. Z.div_mod_to_equations. lia.
Qed.

End Loop.

End SnapshotFacts.

(** ** Position smoothing *)

Module SmoothingFacts.

Import Config.

Lemma Qpower_S (q : Q) (n : nat) : (q ^ Z.of_nat (S n) == q * q ^ Z.of_nat n)%Q.
Proof.
  rewrite Nat2Z.inj_succ, <- Z.add_1_l.
  rewrite Qpower_plus' by lia. by rewrite Qpower_1_r.
Qed.

(** The floats of [POSITION_SMOOTHING] and of [1 - POSITION_SMOOTHING]; their
    sum is one less [2 ^ (-54)]. *)
Lemma smoothing_constants :
  Py.f64 POSITION_SMOOTHING = (5404319552844595 # 18014398509481984)%Q
  ∧ Py.f64 (1 - Py.f64 POSITION_SMOOTHING) = (3152519739159347 # 4503599627370496)%Q.
Proof. by vm_compute. Qed.

Lemma smooth_coord_step (s : Q) (c : Z) :
  (Qabs (Py.f64 (Py.f64 (Py.f64 POSITION_SMOOTHING * s)
                 + Py.f64 (Py.f64 (1 - Py.f64 POSITION_SMOOTHING) * inject_Z c))
         - inject_Z c)
   <= (31 # 100) * Qabs (s - inject_Z c) + 2 ^ (-50) * Qabs (inject_Z c) + 2 ^ (-1072))%Q.
Proof.
  destruct smoothing_constants as [-> ->].
  set (cq := inject_Z c).
  set (X := Py.f64 ((5404319552844595 # 18014398509481984) * s)).
  set (Y := Py.f64 ((3152519739159347 # 4503599627370496) * cq)).
  pose proof (FloatFacts.f64_error ((5404319552844595 # 18014398509481984) * s)) as HX.
  pose proof (FloatFacts.f64_error ((3152519739159347 # 4503599627370496) * cq)) as HY.
  pose proof (FloatFacts.f64_error (X + Y)) as HS.
  fold X in HX. fold Y in HY.
  rewrite Qabs_Qmult in HX, HY.
  rewrite (Qabs_pos (5404319552844595 # 18014398509481984)) in HX by done.
  rewrite (Qabs_pos (3152519739159347 # 4503599627370496)) in HY by done.
  pose proof (FloatFacts.Qabs_sub_triangle (Py.f64 (X + Y)) (X + Y) cq) as T1.
  pose proof (Qabs_triangle (X - (5404319552844595 # 18014398509481984) * s
                             + (Y - (3152519739159347 # 4503599627370496) * cq))
                (((5404319552844595 # 18014398509481984) * (s - cq))
                 + (- (1 # 18014398509481984)) * cq)) as T2.
  assert (X - (5404319552844595 # 18014398509481984) * s
          + (Y - (3152519739159347 # 4503599627370496) * cq)
          + ((5404319552844595 # 18014398509481984) * (s - cq)
             + - (1 # 18014398509481984) * cq) == X + Y - cq)%Q as E by ring.
  rewrite E in T2. clear E.
  pose proof (Qabs_triangle (X - (5404319552844595 # 18014398509481984) * s)
                (Y - (3152519739159347 # 4503599627370496) * cq)) as T3.
  pose proof (Qabs_triangle ((5404319552844595 # 18014398509481984) * (s - cq))
                (- (1 # 18014398509481984) * cq)) as T4.
  rewrite !Qabs_Qmult in T4.
  rewrite (Qabs_pos (5404319552844595 # 18014398509481984)) in T4 by done.
  change (Qabs (- (1 # 18014398509481984))) with (1 # 18014398509481984)%Q in T4.
  pose proof (Qabs_triangle X Y) as T5.
  pose proof (FloatFacts.Qabs_bound X ((5404319552844595 # 18014398509481984) * s)) as T6.
  pose proof (FloatFacts.Qabs_bound Y ((3152519739159347 # 4503599627370496) * cq)) as T7.
  rewrite Qabs_Qmult in T6, T7.
  rewrite (Qabs_pos (5404319552844595 # 18014398509481984)) in T6 by done.
  rewrite (Qabs_pos (3152519739159347 # 4503599627370496)) in T7 by done.
  pose proof (FloatFacts.Qabs_bound s cq) as T8.
  pose proof FloatFacts.eta_small as (He1 & _).
  assert (2 ^ (-50) == 1 # 1125899906842624)%Q as -> by (by vm_compute).
  assert (2 ^ (-1072) == 8 * 2 ^ (-1075))%Q as -> by (by vm_compute).
  pose proof (Qabs_nonneg cq). pose proof (Qabs_nonneg (s - cq)).
  set (e64 := (2 ^ (-1075))%Q) in *.
  set (Z1 := Qabs (Py.f64 (X + Y) - cq)) in *.
  set (Z2 := Qabs (Py.f64 (X + Y) - (X + Y))) in *.
  set (Z3 := Qabs (X + Y - cq)) in *.
  set (Z4 := Qabs (X - (5404319552844595 # 18014398509481984) * s
                   + (Y - (3152519739159347 # 4503599627370496) * cq))) in *.
  set (Z5 := Qabs (X - (5404319552844595 # 18014398509481984) * s)) in *.
  set (Z6 := Qabs (Y - (3152519739159347 # 4503599627370496) * cq)) in *.
  set (Z7 := Qabs (X + Y)) in *. set (Z8 := Qabs X) in *. set (Z9 := Qabs Y) in *.
  set (Z10 := Qabs s) in *. set (Z11 := Qabs cq) in *. set (Z12 := Qabs (s - cq)) in *.
  lra.
Qed.

Lemma count_hits_snoc (obs : list Obs) (o : Obs) :
  count_hits (obs ++ [o])
  = (count_hits obs + match o with Hit _ _ _ => 1 | Miss _ => 0 end)%nat.
Proof.
  unfold count_hits. rewrite filter_app, length_app. f_equal. by destruct o.
Qed.

(** X7.  Smoothing towards a constant center converges geometrically, up to
    rounding: when every hit of a sequence of cycles reports the same center
    [c], each coordinate of the smoothed center is closer to [c] than it was
    by the factor 0.31 to the number of hits, up to [2 ^ (-49)] times the
    size of the coordinate (misses leave the smoothed center alone).  The
    floats of 0.3 and 0.7 add up to less than 1, so a smoothed center that
    has reached [c] need not stay there. *)
Theorem smoothing_converges (tr : TrackedTool.t) (c : Z * Z) (obs : list Obs) :
  Forall (aimed_at c) obs →
  let tr' := foldl apply_obs tr obs in
  let r := ((31 # 100) ^ Z.of_nat (count_hits obs))%Q in
  settled r c.1 (TrackedTool.smoothed_center tr').1 (TrackedTool.smoothed_center tr).1
  ∧ settled r c.2 (TrackedTool.smoothed_center tr').2 (TrackedTool.smoothed_center tr).2.
Proof.
  intros Hobs. cbv zeta. unfold settled.
  assert (∀ x : Q, 2 ^ (-49) * x + 2 ^ (-1071) == 2 * (2 ^ (-50) * x + 2 ^ (-1072)))%Q
    as Econst.
  { intros x. assert (2 ^ (-49) == 2 * 2 ^ (-50))%Q as -> by (by vm_compute).
    assert (2 ^ (-1071) == 2 * 2 ^ (-1072))%Q as -> by (by vm_compute). ring. }
  rewrite <- !Qplus_assoc, !Econst.
  assert (∀ x : Q, 0 <= 2 ^ (-50) * Qabs x + 2 ^ (-1072))%Q as Hpos.
  { intros x. pose proof (FloatFacts.pow2_pos (-50)). pose proof (FloatFacts.pow2_pos (-1072)).
    pose proof (Qabs_nonneg x).
    assert (0 <= 2 ^ (-50) * Qabs x)%Q by (apply Qmult_le_0_compat; [by apply Qlt_le_weak | done]).
    set (k := (2 ^ (-50))%Q) in *. set (e := (2 ^ (-1072))%Q) in *. lra. }
  pose proof (Hpos (inject_Z c.1)) as HR1. pose proof (Hpos (inject_Z c.2)) as HR2.
  induction obs as [|o obs IH] using rev_ind.
  - change ((31 # 100) ^ Z.of_nat (count_hits []))%Q with 1%Q. cbn [foldl].
    set (R1 := (2 ^ (-50) * Qabs (inject_Z c.1) + 2 ^ (-1072))%Q) in *.
    set (R2 := (2 ^ (-50) * Qabs (inject_Z c.2) + 2 ^ (-1072))%Q) in *.
    split; lra.
  - apply Forall_app in Hobs as [Hobs Ho]. rewrite Forall_singleton in Ho.
    destruct (IH Hobs) as [IH1 IH2]. clear IH.
    rewrite foldl_app, count_hits_snoc. cbn [foldl].
    set (tr0 := foldl apply_obs tr obs) in *.
    destruct o as [c' cs f|f].
    + unfold aimed_at in Ho. subst c'. rewrite Nat.add_1_r, Qpower_S.
      cbn [apply_obs TrackedTool.update TrackedTool.smoothed_center].
      unfold TrackedTool.smooth. cbn [fst snd].
      pose proof (smooth_coord_step (TrackedTool.smoothed_center tr0).1 c.1) as S1.
      pose proof (smooth_coord_step (TrackedTool.smoothed_center tr0).2 c.2) as S2.
      rewrite <- Qplus_assoc in S1, S2. rewrite <- !Qmult_assoc.
      set (R1 := (2 ^ (-50) * Qabs (inject_Z c.1) + 2 ^ (-1072))%Q) in *.
      set (R2 := (2 ^ (-50) * Qabs (inject_Z c.2) + 2 ^ (-1072))%Q) in *.
      set (P1 := ((31 # 100) ^ Z.of_nat (count_hits obs)
                  * Qabs ((TrackedTool.smoothed_center tr).1 - inject_Z c.1))%Q) in *.
      set (P2 := ((31 # 100) ^ Z.of_nat (count_hits obs)
                  * Qabs ((TrackedTool.smoothed_center tr).2 - inject_Z c.2))%Q) in *.
      set (E1 := Qabs ((TrackedTool.smoothed_center tr0).1 - inject_Z c.1)) in *.
      set (E2 := Qabs ((TrackedTool.smoothed_center tr0).2 - inject_Z c.2)) in *.
      split; lra.
    + rewrite Nat.add_0_r. by split.
Qed.

Lemma smoothing_converges_witness :
  let tr := TrackedTool.init 20 "scalpel" (0, 0) quad0 in
  let obs := [Hit (10, 20) quad0 1; Miss 2; Hit (10, 20) quad0 3] in
  settled ((31 # 100) ^ 2) 10
    (TrackedTool.smoothed_center (foldl apply_obs tr obs)).1
    (TrackedTool.smoothed_center tr).1
  ∧ settled ((31 # 100) ^ 2) 20
      (TrackedTool.smoothed_center (foldl apply_obs tr obs)).2
      (TrackedTool.smoothed_center tr).2.
Proof.
  intros tr obs. apply (smoothing_converges tr (10, 20) obs). repeat constructor.
Defined.

(** A track created at (3, 3) and detected there again: the smoothed center
    is the float below 3, and the center that is drawn is (2, 2). *)
Example smoothing_rounds_below :
  TrackedTool.get_display_center
    (TrackedTool.update (TrackedTool.init 20 "scalpel" (3, 3) quad0) (3, 3) quad0 1)
  = (2, 2).
Proof. by vm_compute. Qed.

End SmoothingFacts.

(** ** Hand regions *)

Module RegionFacts.

Import Config Detector.

Lemma min_le_l (a b : Q) : (Py.min a b <= a)%Q.
Proof.
  unfold Py.min. destruct (Py.Qltb b a) eqn:E; [|apply Qle_refl].
  by apply Qlt_le_weak, DetectorFacts.Qltb_true.
Qed.

Lemma min_le_r (a b : Q) : (Py.min a b <= b)%Q.
Proof.
  unfold Py.min. destruct (Py.Qltb b a) eqn:E; [apply Qle_refl|].
  by apply DetectorFacts.Qltb_false.
Qed.

Lemma max_ge_l (a b : Q) : (a <= Py.max a b)%Q.
Proof.
  unfold Py.max. destruct (Py.Qgtb b a) eqn:E; [|apply Qle_refl].
  by apply Qlt_le_weak, DetectorFacts.Qgtb_true.
Qed.

Lemma max_ge_r (a b : Q) : (b <= Py.max a b)%Q.
Proof.
  unfold Py.max. destruct (Py.Qgtb b a) eqn:E; [apply Qle_refl|].
  unfold Py.Qgtb in E. apply negb_false_iff in E. by apply Qle_bool_iff.
Qed.

Lemma foldl_min_le (l : list Q) (a : Q) :
  (foldl Py.min a l <= a)%Q ∧ Forall (λ x, (foldl Py.min a l <= x)%Q) l.
Proof.
  revert a. induction l as [|x l IH]; intros a; cbn [foldl].
  - split; [apply Qle_refl | constructor].
  - destruct (IH (Py.min a x)) as [H1 H2]. split; [|constructor; [|done]].
    + eapply Qle_trans; [exact H1 | apply min_le_l].
    + eapply Qle_trans; [exact H1 | apply min_le_r].
Qed.

Lemma foldl_max_ge (l : list Q) (a : Q) :
  (a <= foldl Py.max a l)%Q ∧ Forall (λ x, (x <= foldl Py.max a l)%Q) l.
Proof.
  revert a. induction l as [|x l IH]; intros a; cbn [foldl].
  - split; [apply Qle_refl | constructor].
  - destruct (IH (Py.max a x)) as [H1 H2]. split; [|constructor; [|done]].
    + eapply Qle_trans; [apply max_ge_l | exact H1].
    + eapply Qle_trans; [apply max_ge_r | exact H1].
Qed.

(** The minimum and the maximum of a non-empty list are among its elements. *)
Lemma foldl_min_in (l : list Q) (a : Q) : foldl Py.min a l ∈ a :: l.
Proof.
  revert a. induction l as [|x l IH]; intros a; cbn [foldl]; [apply list_elem_of_here|].
  specialize (IH (Py.min a x)). apply elem_of_cons in IH as [-> | IH].
  - unfold Py.min. destruct (Py.Qltb x a); set_solver.
  - set_solver.
Qed.

Lemma foldl_max_in (l : list Q) (a : Q) : foldl Py.max a l ∈ a :: l.
Proof.
  revert a. induction l as [|x l IH]; intros a; cbn [foldl]; [apply list_elem_of_here|].
  specialize (IH (Py.max a x)). apply elem_of_cons in IH as [-> | IH].
  - unfold Py.max. destruct (Py.Qgtb x a); set_solver.
  - set_solver.
Qed.

(** [int] on a float that is not negative is the floor. *)
Lemma int_nonneg (x : Q) : (0 <= x)%Q → 0 ≤ Py.int x ∧ (inject_Z (Py.int x) <= x)%Q
                                          ∧ (x < inject_Z (Py.int x + 1))%Q.
Proof.
  intros Hx. unfold Py.int. apply Qle_bool_iff in Hx as Hb. rewrite Hb.
  split; [|split; [apply Qfloor_le | apply Qlt_floor]].
  change 0 with (Qfloor 0). by apply Qfloor_resp_le.
Qed.

Section Axis.
(** One axis of [hand_box]: the coordinates [a :: l] of the landmarks along
    an axis of length [n]. *)
Variables (n : Z) (a : Q) (l : list Q).
Hypothesis n_nonneg : 0 ≤ n.
Hypothesis in_range : Forall (λ x, (0 <= x <= inject_Z n)%Q) (a :: l).

Let lo := Z.max 0 (Py.int (foldl Py.min a l) - HAND_ROI_PADDING).
Let hi := Z.min n (Py.int (foldl Py.max a l) + HAND_ROI_PADDING).

Lemma axis_bounds :
  0 ≤ lo ∧ lo ≤ hi ∧ hi ≤ n
  ∧ Forall (λ x, (inject_Z lo <= x <= inject_Z hi)%Q) (a :: l).
Proof.
  pose proof (foldl_min_le l a) as [Hmin_a Hmin_l].
  pose proof (foldl_max_ge l a) as [Hmax_a Hmax_l].
  pose proof (foldl_min_in l a) as Hmin_in.
  pose proof (foldl_max_in l a) as Hmax_in.
  rewrite Forall_forall in in_range.
  destruct (in_range _ Hmin_in) as [Hmin0 Hminn].
  destruct (in_range _ Hmax_in) as [Hmax0 Hmaxn].
  destruct (int_nonneg _ Hmin0) as (Hi0 & Hile & _).
  destruct (int_nonneg _ Hmax0) as (Hj0 & Hjle & Hjlt).
  assert (Py.int (foldl Py.min a l) ≤ n) as Hin.
  { rewrite Zle_Qle. eapply Qle_trans; [exact Hile | exact Hminn]. }
  assert (Py.int (foldl Py.min a l) ≤ Py.int (foldl Py.max a l)) as Hmono.
  { unfold Py.int. apply Qle_bool_iff in Hmin0 as ->. apply Qle_bool_iff in Hmax0 as ->.
    apply Qfloor_resp_le. eapply Qle_trans; [exact Hmin_a | exact Hmax_a]. }
  unfold lo, hi, HAND_ROI_PADDING.
  split; [lia|]. split; [lia|]. split; [lia|].
  apply Forall_forall. intros x Hx.
  assert (foldl Py.min a l <= x)%Q as Hlo_x.
  { apply elem_of_cons in Hx as [-> | Hx]; [done|].
    rewrite Forall_forall in Hmin_l. by apply Hmin_l. }
  assert (x <= foldl Py.max a l)%Q as Hhi_x.
  { apply elem_of_cons in Hx as [-> | Hx]; [done|].
    rewrite Forall_forall in Hmax_l. by apply Hmax_l. }
  destruct (in_range x Hx) as [Hx0 Hxn]. split.
  - destruct (Z.max_spec 0 (Py.int (foldl Py.min a l) - 120)) as [[_ ->]|[_ ->]].
    + eapply Qle_trans; [|exact Hlo_x]. eapply Qle_trans; [|exact Hile].
      rewrite <- Zle_Qle. lia.
    + done.
  - destruct (Z.min_spec n (Py.int (foldl Py.max a l) + 120)) as [[_ ->]|[_ ->]].
    + done.
    + eapply Qle_trans; [exact Hhi_x|]. apply Qlt_le_weak.
      eapply Qlt_le_trans; [exact Hjlt|]. rewrite <- Zle_Qle. lia.
Qed.

End Axis.

Lemma Forall_cons_fmap {A B} (P : B → Prop) (f : A → B) (a : A) (l : list A) :
  Forall P (f a :: (f <$> l)) ↔ Forall (λ x, P (f x)) (a :: l).
Proof. by rewrite <- fmap_cons, Forall_fmap. Qed.

Lemma scaled_in_range (n : Z) (x : Q) :
  0 ≤ n → (0 <= x <= 1)%Q → (0 <= x * inject_Z n <= inject_Z n)%Q.
Proof.
  intros Hn [H0 H1]. assert (0 <= inject_Z n)%Q as Hn'
    by (change (inject_Z 0 <= inject_Z n)%Q; by rewrite <- Zle_Qle).
  split.
  - by apply Qmult_le_0_compat.
  - rewrite <- (Qmult_1_l (inject_Z n)) at 2. by apply Qmult_le_compat_r.
Qed.

(** X8. For a frame of height [H] and width [W] and hands whose landmarks
    are inside the image, [get_hand_bounding_boxes] returns one box per hand,
    in order; each box lies inside the frame, has a non-negative width and
    height, and contains the pixel position of every landmark of its hand. *)
Theorem hand_boxes_in_frame (frame_H frame_W : Z) (hands : list Hand) :
  0 ≤ frame_H → 0 ≤ frame_W →
  Forall normalised hands →
  landmarks <$> get_hand_bounding_boxes frame_H frame_W hands = hands
  ∧ Forall (λ info, in_frame frame_H frame_W (bbox info)
                    ∧ Forall (covers frame_H frame_W (bbox info))
                        (lm_first (landmarks info) :: lm_rest (landmarks info)))
      (get_hand_bounding_boxes frame_H frame_W hands).
Proof.
  intros HH HW Hn. unfold get_hand_bounding_boxes. split.
  - rewrite <- list_fmap_compose. clear. induction hands as [|h hands IH]; [done|].
    rewrite fmap_cons. by f_equal.
  - apply Forall_fmap, Forall_forall. intros hand Hhand.
    rewrite Forall_forall in Hn. specialize (Hn hand Hhand). unfold normalised in Hn.
    assert (Forall (λ x, (0 <= x <= inject_Z frame_W)%Q)
              ((lm_first hand).1 * inject_Z frame_W
               :: ((λ lm : Q * Q, lm.1 * inject_Z frame_W) <$> lm_rest hand))%Q) as Hx.
    { apply (Forall_cons_fmap _ (λ lm : Q * Q, lm.1 * inject_Z frame_W)%Q).
      eapply Forall_impl; [exact Hn|].
      intros lm [Hlm _]. by apply scaled_in_range. }
    assert (Forall (λ x, (0 <= x <= inject_Z frame_H)%Q)
              ((lm_first hand).2 * inject_Z frame_H
               :: ((λ lm : Q * Q, lm.2 * inject_Z frame_H) <$> lm_rest hand))%Q) as Hy.
    { apply (Forall_cons_fmap _ (λ lm : Q * Q, lm.2 * inject_Z frame_H)%Q).
      eapply Forall_impl; [exact Hn|].
      intros lm [_ Hlm]. by apply scaled_in_range. }
    pose proof (axis_bounds frame_W _ _ HW Hx) as Hxs. cbv zeta in Hxs.
    destruct Hxs as (Hx1 & Hx2 & Hx3 & Hx4).
    pose proof (axis_bounds frame_H _ _ HH Hy) as Hys. cbv zeta in Hys.
    destruct Hys as (Hy1 & Hy2 & Hy3 & Hy4).
    unfold compose, hand_box, in_frame, covers. cbv beta zeta.
    cbn [bbox landmarks bx by_ bw bh].
    split; [lia|].
    apply (Forall_cons_fmap _ (λ lm : Q * Q, lm.1 * inject_Z frame_W)%Q) in Hx4.
    apply (Forall_cons_fmap _ (λ lm : Q * Q, lm.2 * inject_Z frame_H)%Q) in Hy4.
    rewrite Forall_forall in Hx4, Hy4.
    apply Forall_forall. intros lm Hlm.
    specialize (Hx4 lm Hlm). specialize (Hy4 lm Hlm). simpl in Hx4, Hy4.
    split.
    + destruct Hx4 as [Ha Hb]. split; [exact Ha|].
      eapply Qle_trans; [exact Hb|]. rewrite <- Zle_Qle. lia.
    + destruct Hy4 as [Ha Hb]. split; [exact Ha|].
      eapply Qle_trans; [exact Hb|]. rewrite <- Zle_Qle. lia.
Qed.

Lemma hand_boxes_in_frame_witness :
  Forall (λ info, in_frame 480 640 (bbox info)
                  ∧ Forall (covers 480 640 (bbox info))
                      (lm_first (landmarks info) :: lm_rest (landmarks info)))
    (get_hand_bounding_boxes 480 640 [hand0]).
Proof.
  apply (hand_boxes_in_frame 480 640 [hand0]).
  - lia.
  - lia.
  - repeat constructor; vm_compute; discriminate.
Defined.

(** *** The image handed to the marker oracle *)

Section Oracle.
Context {Px : Type} `{V : Vision Px}.

Lemma cvRound_ge (x : Q) (n : Z) : (inject_Z n <= x)%Q → n ≤ cvRound x.
Proof.
  intros Hx. apply Qfloor_resp_le in Hx. rewrite Qfloor_Z in Hx.
  unfold cvRound. cbv zeta.
  destruct (Py.Qltb _ _); [done|]. destruct (Py.Qgtb _ _); [lia|].
  destruct (Z.even _); lia.
Qed.

Lemma ratio_times (n : Z) : 0 < n → (inject_Z UPSCALE_TARGET / inject_Z n * inject_Z n
                                     == inject_Z UPSCALE_TARGET)%Q.
Proof.
  intros Hn. field. intros E.
  assert (inject_Z 0 < inject_Z n)%Q as Hlt by (by rewrite <- Zlt_Qlt).
  rewrite E in Hlt. by apply Qlt_irrefl in Hlt.
Qed.

Lemma ratio_ge_1 (n : Z) : 0 < n → n < UPSCALE_TARGET →
                          (1 <= inject_Z UPSCALE_TARGET / inject_Z n)%Q.
Proof.
  intros Hn Hlt. apply Qle_shift_div_l.
  - change (inject_Z 0 < inject_Z n)%Q. by rewrite <- Zlt_Qlt.
  - rewrite Qmult_1_l. rewrite <- Zle_Qle. lia.
Qed.

Lemma upscale_large (gray : Image Px) :
  0 < rows gray → 0 < cols gray →
  (1 <= (upscale gray).1)%Q
  ∧ UPSCALE_TARGET ≤ rows (upscale gray).2
  ∧ UPSCALE_TARGET ≤ cols (upscale gray).2
  ∧ (UPSCALE_TARGET ≤ rows gray → UPSCALE_TARGET ≤ cols gray → upscale gray = (1%Q, gray)).
Proof.
  intros Hr Hc. unfold upscale. cbv zeta.
  assert (0 <= inject_Z (rows gray))%Q as Hr0
    by (change (inject_Z 0 <= inject_Z (rows gray))%Q; rewrite <- Zle_Qle; lia).
  assert (0 <= inject_Z (cols gray))%Q as Hc0
    by (change (inject_Z 0 <= inject_Z (cols gray))%Q; rewrite <- Zle_Qle; lia).
  destruct ((cols gray <? UPSCALE_TARGET) || (rows gray <? UPSCALE_TARGET)) eqn:Hcond;
    cbn [fst snd rows cols resize].
  - apply orb_true_iff in Hcond. split; [|split; [|split]].
    + destruct Hcond as [Hw%Z.ltb_lt | Hh%Z.ltb_lt].
      * eapply Qle_trans; [by apply (ratio_ge_1 (cols gray)) | apply max_ge_l].
      * eapply Qle_trans; [by apply (ratio_ge_1 (rows gray)) | apply max_ge_r].
    + apply cvRound_ge.
      apply Qle_trans
        with (inject_Z UPSCALE_TARGET / inject_Z (rows gray) * inject_Z (rows gray))%Q.
      * rewrite ratio_times by done. apply Qle_refl.
      * apply Qmult_le_compat_r; [apply max_ge_r | done].
    + apply cvRound_ge.
      apply Qle_trans
        with (inject_Z UPSCALE_TARGET / inject_Z (cols gray) * inject_Z (cols gray))%Q.
      * rewrite ratio_times by done. apply Qle_refl.
      * apply Qmult_le_compat_r; [apply max_ge_l | done].
    + intros Hh Hw. destruct Hcond as [?%Z.ltb_lt | ?%Z.ltb_lt]; lia.
  - apply orb_false_iff in Hcond as [Hw%Z.ltb_ge Hh%Z.ltb_ge].
    split; [done|]. split; [done|]. split; [done|]. done.
Qed.

(** X9. For every hand region that is not empty, the scale is at least 1
    (a region is never shrunk) and the image handed to the marker oracle has
    at least [UPSCALE_TARGET] = 380 rows and columns. *)
Theorem oracle_input_is_large (frame : Image Px) (hand_bbox : BBox) :
  size (crop frame (by_ hand_bbox) (bh hand_bbox) (bx hand_bbox) (bw hand_bbox)) ≠ 0 →
  (1 <= region_scale frame hand_bbox)%Q
  ∧ UPSCALE_TARGET ≤ rows (region_input frame hand_bbox)
  ∧ UPSCALE_TARGET ≤ cols (region_input frame hand_bbox).
Proof.
  intros Hsize. unfold size in Hsize. simpl in Hsize.
  pose proof (DetectorFacts.slice_len_nonneg (rows frame) (by_ hand_bbox)
                (by_ hand_bbox + bh hand_bbox)).
  pose proof (DetectorFacts.slice_len_nonneg (cols frame) (bx hand_bbox)
                (bx hand_bbox + bw hand_bbox)).
  unfold region_scale, region_input.
  set (gray := cvtColor_gray _).
  destruct (upscale_large gray) as (Hs & Hrows & Hcols & _).
  - unfold gray. simpl. nia.
  - unfold gray. simpl. nia.
  - done.
Qed.

(** X10. A hand box that has no pixel in the frame (no width, no height, or
    an origin beyond the frame) yields no detection, whatever the marker
    oracle would report. *)
Theorem no_detection_outside_frame (frame : Image Px) (hand_bbox : BBox) :
  0 ≤ bx hand_bbox → 0 ≤ by_ hand_bbox → 0 ≤ bw hand_bbox → 0 ≤ bh hand_bbox →
  bw hand_bbox = 0 ∨ bh hand_bbox = 0
  ∨ cols frame ≤ bx hand_bbox ∨ rows frame ≤ by_ hand_bbox →
  detect_aruco_in_hand_roi frame hand_bbox = [].
Proof.
  intros Hx Hy Hw Hh Hout. unfold detect_aruco_in_hand_roi. cbv zeta.
  assert (size (crop frame (by_ hand_bbox) (bh hand_bbox) (bx hand_bbox) (bw hand_bbox)) = 0)
    as ->; [|done].
  unfold size, crop, slice_len, slice_bound. cbn [rows cols].
  destruct (Z.ltb_spec (by_ hand_bbox) 0); [lia|].
  destruct (Z.ltb_spec (bx hand_bbox) 0); [lia|].
  destruct (Z.ltb_spec (by_ hand_bbox + bh hand_bbox) 0); [lia|].
  destruct (Z.ltb_spec (bx hand_bbox + bw hand_bbox) 0); [lia|].
  destruct Hout as [?|[?|[?|?]]]; nia.
Qed.

End Oracle.

#[local] Existing Instance fake_vision.

Lemma oracle_input_is_large_witness :
  (1 <= region_scale frame0 bbox0)%Q
  ∧ UPSCALE_TARGET ≤ rows (region_input frame0 bbox0)
  ∧ UPSCALE_TARGET ≤ cols (region_input frame0 bbox0).
Proof.
  apply (oracle_input_is_large frame0 bbox0). vm_compute. discriminate.
Defined.

Lemma no_detection_outside_frame_witness :
  detect_aruco_in_hand_roi frame0
    {| bx := 640; by_ := 100; bw := 50; bh := 50 |} = [].
Proof.
  apply no_detection_outside_frame; simpl; lia.
Defined.

End RegionFacts.

(** ** What the contact handler stores *)

Module ContactFacts.

Import Api.

(** *** White space at the two ends of a string *)

Lemma WHITESPACE_length (w : list ascii) :
  w ∈ WHITESPACE → (1 ≤ length w ≤ 3)%nat.
Proof.
  revert w. apply Forall_forall. unfold WHITESPACE. cbn [map].
  repeat (apply Forall_cons; split; [simpl; lia|]). constructor.
Qed.

Lemma is_space_true (w : list ascii) : is_space w = true ↔ w ∈ WHITESPACE.
Proof. unfold is_space. apply bool_decide_eq_true. Qed.

Lemma blank_app (l k : list ascii) : blank_bytes l → blank_bytes k → blank_bytes (l ++ k).
Proof.
  induction 1 as [|w l Hw _ IH]; intros Hk; [done|].
  rewrite <- app_assoc. constructor; [done | by apply IH].
Qed.

Lemma blank_single (w : list ascii) : w ∈ WHITESPACE → blank_bytes w.
Proof. intros Hw. rewrite <- (app_nil_r w). constructor; [done | constructor]. Qed.

(** A sequence that is blank and not empty starts with a white-space
    character. *)
Lemma blank_prefix (l : list ascii) :
  blank_bytes l → l ≠ [] → ∃ w, w ∈ WHITESPACE ∧ w `prefix_of` l.
Proof.
  intros [|w k Hw _] Hne; [done|]. exists w. split; [done|]. by exists k.
Qed.

Lemma blank_suffix (l : list ascii) :
  blank_bytes l → l ≠ [] → ∃ w, w ∈ WHITESPACE ∧ w `suffix_of` l.
Proof.
  induction 1 as [|w k Hw Hk IH]; intros Hne; [done|].
  destruct k as [|a k'].
  - exists w. split; [done|]. rewrite app_nil_r. done.
  - destruct IH as (w' & Hw' & k0 & Hk0); [done|].
    exists w'. split; [done|]. exists (w ++ k0). rewrite Hk0. by rewrite app_assoc.
Qed.

Section Front.
Variable enc : list ascii → list ascii.
Hypothesis enc_length : ∀ w, length (enc w) = length w.

(** One step of [strip_front]: it stops, and then no character that it
    removes is at the front, or it removes the character at the front. *)
Lemma strip_front_step (l : list ascii) :
  (strip_front enc l = l
   ∧ ∀ w, is_space (enc w) = true → ¬ w `prefix_of` l)
  ∨ (∃ w r, l = w ++ r ∧ w ≠ [] ∧ is_space (enc w) = true
       ∧ strip_front enc l = strip_front enc r).
Proof.
  assert (∀ w, is_space (enc w) = true → (1 ≤ length w ≤ 3)%nat) as Hlen.
  { intros w Hw. rewrite <- enc_length. by apply WHITESPACE_length, is_space_true. }
  destruct l as [|a r1].
  { left. split; [done|]. intros w Hw [k Hk].
    pose proof (Hlen w Hw). destruct w; [simpl in *; lia | done]. }
  simpl. destruct (is_space (enc [a])) eqn:E1.
  { right. exists [a], r1. by repeat split. }
  destruct r1 as [|b r2].
  { left. split; [done|]. intros w Hw [k Hk]. pose proof (Hlen w Hw) as Hl.
    destruct w as [|x [|y w]]; simpl in *; [lia | | done].
    injection Hk as <- _. congruence. }
  destruct (is_space (enc [a; b])) eqn:E2.
  { right. exists [a; b], r2. by repeat split. }
  destruct r2 as [|c r3].
  { left. split; [done|]. intros w Hw [k Hk]. pose proof (Hlen w Hw) as Hl.
    destruct w as [|x [|y [|z w]]]; simpl in *; [lia | | | done].
    - injection Hk as <- _. congruence.
    - injection Hk as <- <- _. congruence. }
  destruct (is_space (enc [a; b; c])) eqn:E3.
  { right. exists [a; b; c], r3. by repeat split. }
  left. split; [done|]. intros w Hw [k Hk]. pose proof (Hlen w Hw) as Hl.
  destruct w as [|x [|y [|z [|t w]]]]; simpl in *; [lia | | | | lia].
  - injection Hk as <- _. congruence.
  - injection Hk as <- <- _. congruence.
  - injection Hk as <- <- <- _. congruence.
Qed.

(** What [strip_front] leaves does not start with a character it removes,
    and what it removes is made of such characters. *)
Lemma strip_front_spec (P : list ascii → Prop) (l : list ascii) :
  P [] →
  (∀ w p, is_space (enc w) = true → P p → P (w ++ p)) →
  (∀ w, is_space (enc w) = true → ¬ w `prefix_of` strip_front enc l)
  ∧ ∃ pre, P pre ∧ l = pre ++ strip_front enc l.
Proof.
  intros Hnil Hcons.
  induction l as [l IH] using (induction_ltof1 _ (@length ascii)). unfold ltof in IH.
  destruct (strip_front_step l) as [[Hstop Hno] | (w & r & -> & Hne & Hw & Hgo)].
  - rewrite Hstop. split; [done|]. by exists [].
  - rewrite Hgo. destruct (IH r) as [Hno (pre & Hpre & Hr)].
    { rewrite length_app. destruct w; [done | simpl; lia]. }
    split; [done|]. exists (w ++ pre). split; [by apply Hcons|].
    rewrite <- app_assoc. by rewrite <- Hr.
Qed.

End Front.

Lemma lstrip_spec (l : list ascii) :
  (∀ w, w ∈ WHITESPACE → ¬ w `prefix_of` lstrip l)
  ∧ ∃ pre, blank_bytes pre ∧ l = pre ++ lstrip l.
Proof.
  destruct (strip_front_spec id (λ _, eq_refl) blank_bytes l) as [Hno Hpre].
  - constructor.
  - intros w p Hw Hp. constructor; [by apply is_space_true | done].
  - split; [|done]. intros w Hw. apply Hno. by apply is_space_true.
Qed.

Lemma rstrip_spec (l : list ascii) :
  (∀ w, w ∈ WHITESPACE → ¬ w `suffix_of` rstrip l)
  ∧ ∃ post, blank_bytes post ∧ l = rstrip l ++ post.
Proof.
  unfold rstrip.
  destruct (strip_front_spec reverse (@length_reverse _)
              (λ p, blank_bytes (reverse p)) (reverse l)) as [Hno (pre & Hpre & Hl)].
  - constructor.
  - intros w p Hw Hp. rewrite reverse_app.
    apply blank_app; [done|]. by apply blank_single, is_space_true.
  - split.
    + intros w Hw [k Hk]. apply (Hno (reverse w)).
      * rewrite reverse_involutive. by apply is_space_true.
      * exists (reverse k). rewrite <- reverse_app, <- Hk. by rewrite reverse_involutive.
    + exists (reverse pre). split; [done|].
      rewrite <- reverse_app, <- Hl. by rewrite reverse_involutive.
Qed.

(** A white-space character at the front is removed. *)
Lemma lstrip_space (w l : list ascii) : w ∈ WHITESPACE → lstrip (w ++ l) = lstrip l.
Proof.
  revert w. apply Forall_forall. unfold WHITESPACE. cbn [map].
  repeat (apply Forall_cons; split; [reflexivity|]). constructor.
Qed.

Lemma lstrip_blank (l : list ascii) : blank_bytes l → lstrip l = [].
Proof. induction 1 as [|w l Hw _ IH]; [done|]. by rewrite lstrip_space. Qed.

Lemma str_strip_bytes (s : string) :
  list_ascii_of_string (str_strip s) = rstrip (lstrip (list_ascii_of_string s)).
Proof. unfold str_strip. apply list_ascii_of_string_of_list_ascii. Qed.

Lemma str_strip_empty (s : string) : str_strip s = ""%string ↔ blank s.
Proof.
  unfold blank. split.
  - intros E. apply (f_equal list_ascii_of_string) in E. rewrite str_strip_bytes in E.
    simpl in E.
    destruct (lstrip_spec (list_ascii_of_string s)) as [Hno (pre & Hpre & Hl)].
    destruct (rstrip_spec (lstrip (list_ascii_of_string s))) as [_ (post & Hpost & Hr)].
    rewrite E in Hr. simpl in Hr.
    destruct (decide (post = [])) as [->|Hne].
    + rewrite Hl, Hr, app_nil_r. done.
    + destruct (blank_prefix post Hpost Hne) as (w & Hw & Hpre').
      destruct (Hno w Hw). by rewrite Hr.
  - intros Hb. unfold str_strip. by rewrite lstrip_blank.
Qed.

(** [strip] gives the string without the white space at its two ends. *)
Lemma str_strip_stripped (s : string) : ¬ blank s → stripped s (str_strip s).
Proof.
  intros Hnb. unfold stripped, trimmed. rewrite str_strip_bytes.
  destruct (lstrip_spec (list_ascii_of_string s)) as [Hno (pre & Hpre & Hl)].
  destruct (rstrip_spec (lstrip (list_ascii_of_string s))) as [Hno' (post & Hpost & Hr)].
  split; [split|].
  - by rewrite str_strip_empty.
  - intros w Hw. split; [|by apply Hno'].
    intros [k Hk]. apply (Hno w Hw). exists (k ++ post). rewrite Hr, Hk.
    by rewrite app_assoc.
  - exists pre, post. split; [done|]. split; [done|]. by rewrite <- Hr.
Qed.

Section Handlers.
Context {DB : Type} `{Postgres DB}.

(** X11. [create_contact] answers 201 only for a body whose name, email and
    message are strings with at least one character that is not white space;
    what it hands to the INSERT is each of them without the white space at
    its two ends, and the database it leaves is the one the INSERT returns. *)
Theorem contact_inserted_trimmed (db : DB) (body : gmap string JSON) (content : JSON) :
  (create_contact db body).2 = JSONResponse content 201 →
  ∃ name email message name' email' message',
    body !! "name"%string = Some (JStr name)
    ∧ body !! "email"%string = Some (JStr email)
    ∧ body !! "message"%string = Some (JStr message)
    ∧ stripped name name' ∧ stripped email email' ∧ stripped message message'
    ∧ insert_contact_message db name' email' message'
      = Some (create_contact db body).1.
Proof.
  unfold create_contact, get_or_empty.
  assert (∀ o : option JSON, ∀ s, strip (default (JStr "") o) = inl s →
            s ≠ ""%string → ∃ v, o = Some (JStr v) ∧ s = str_strip v) as Hfield.
  { intros o r Hr Hne. destruct o as [v|]; simpl in Hr.
    - destruct v; try done. injection Hr as <-. by eexists.
    - injection Hr as <-. done. }
  destruct (strip (default (JStr "") (body !! "name"%string))) as [name|] eqn:En; [|done].
  destruct (strip (default (JStr "") (body !! "email"%string))) as [email|] eqn:Ee; [|done].
  destruct (strip (default (JStr "") (body !! "message"%string))) as [message|] eqn:Em; [|done].
  destruct (bool_decide (name = ""%string)) eqn:Bn; [done|].
  destruct (bool_decide (email = ""%string)) eqn:Be; [done|].
  destruct (bool_decide (message = ""%string)) eqn:Bm; [done|].
  apply bool_decide_eq_false in Bn, Be, Bm. cbn [orb].
  destruct (Hfield _ _ En Bn) as (n & Hn & ->).
  destruct (Hfield _ _ Ee Be) as (e & He & ->).
  destruct (Hfield _ _ Em Bm) as (m & Hm & ->).
  destruct (insert_contact_message db (str_strip n) (str_strip e) (str_strip m))
    as [db'|] eqn:Ei; [|done].
  intros _. exists n, e, m, (str_strip n), (str_strip e), (str_strip m). cbn [fst].
  assert (∀ v, str_strip v ≠ ""%string → stripped v (str_strip v)) as Hs.
  { intros v Hv. apply str_strip_stripped. by rewrite <- str_strip_empty. }
  split; [done|]. split; [done|]. split; [done|].
  split; [by apply Hs|]. split; [by apply Hs|]. split; [by apply Hs|]. done.
Qed.

(** X12. A contact request in which the name, the email or the message is
    empty or made of white space only is answered with 400, and nothing is
    inserted, when the fields it supplies are strings. *)
Theorem contact_blank_rejected (db : DB) (body : gmap string JSON) (key s : string) :
  supplies_strings body →
  key ∈ ["name"; "email"; "message"]%string →
  body !! key = Some (JStr s) → blank s →
  create_contact db body
  = (db, JSONResponse
           (JDict [("message"%string, JStr "name, email and message are required")])
           400).
Proof.
  intros Hstr Hkey Hs Hblank.
  assert (∀ k, k ∈ ["name"; "email"; "message"]%string →
            ∃ v, strip (get_or_empty body k) = inl v) as Hall.
  { intros k Hk. unfold get_or_empty.
    destruct (body !! k) as [v|] eqn:E; [|by eexists].
    destruct (Hstr k v Hk E) as [v' ->]. by eexists. }
  assert (strip (get_or_empty body key) = inl ""%string) as Hempty.
  { unfold get_or_empty. rewrite Hs. simpl. f_equal. by apply str_strip_empty. }
  unfold create_contact.
  destruct (Hall "name"%string) as [name En]; [set_solver|].
  destruct (Hall "email"%string) as [email Ee]; [set_solver|].
  destruct (Hall "message"%string) as [message Em]; [set_solver|].
  rewrite En, Ee, Em.
  assert (name = ""%string ∨ email = ""%string ∨ message = ""%string) as Hone.
  { repeat (apply elem_of_cons in Hkey as [-> | Hkey]);
      [left | right; left | right; right | by apply elem_of_nil in Hkey]; congruence. }
  assert (bool_decide (name = ""%string) || bool_decide (email = ""%string)
          || bool_decide (message = ""%string) = true) as ->; [|done].
  destruct Hone as [-> | [-> | ->]];
    rewrite (bool_decide_eq_true_2 (""%string = ""%string)) by done;
    by rewrite ?orb_true_r.
Qed.

End Handlers.

#[local] Existing Instance fake_postgres.

Lemma contact_inserted_trimmed_witness :
  ∃ name email message name' email' message',
    contact_padded !! "name"%string = Some (JStr name)
    ∧ contact_padded !! "email"%string = Some (JStr email)
    ∧ contact_padded !! "message"%string = Some (JStr message)
    ∧ stripped name name' ∧ stripped email email' ∧ stripped message message'
    ∧ insert_contact_message [] name' email' message'
      = Some (create_contact [] contact_padded).1.
Proof.
  apply (contact_inserted_trimmed [] contact_padded (JDict [("success"%string, JBool true)])).
  vm_compute. reflexivity.
Defined.

Lemma contact_blank_rejected_witness :
  create_contact [] contact_blank_name
  = ([], JSONResponse
           (JDict [("message"%string, JStr "name, email and message are required")])
           400).
Proof.
  apply (contact_blank_rejected [] contact_blank_name "name" (" " +:+ nbsp +:+ em_space)).
  - intros key v Hkey Hv. unfold contact_blank_name in Hv.
    repeat (apply elem_of_cons in Hkey as [-> | Hkey]);
      [| | | by apply elem_of_nil in Hkey];
      vm_compute in Hv; injection Hv as <-; by eexists.
  - apply list_elem_of_here.
  - vm_compute. reflexivity.
  - unfold blank.
    change (list_ascii_of_string (" " +:+ nbsp +:+ em_space))
      with ([ascii_of_nat 32] ++ map ascii_of_nat [194; 160]%nat
            ++ map ascii_of_nat [226; 128; 131]%nat ++ []).
    repeat (constructor; [vm_compute; set_solver|]). constructor.
Defined.

End ContactFacts.

(** ** A detected marker *)

Module DetectedFacts.

(** X13. A marker that a call of [update] detects is tracked when the call
    returns, whatever its track was before: the track is not lost
    ([frames_lost = 0]) and carries the center and the corners of the
    marker's last detection in processing order. *)
Theorem detected_is_tracked (self : ToolTracker.t) (dets earlier : list Detection)
    (d : Detection) (k : Z) :
  detections_of k dets = earlier ++ [d] →
  ∃ tr, ToolTracker.tracked_tools (ToolTracker.update self dets) !! k = Some tr
    ∧ TrackedTool.frames_lost tr = 0
    ∧ TrackedTool.center tr = TrackedTool.to_float (det_center d)
    ∧ TrackedTool.corners tr = det_corners d.
Proof.
  intros Hd. rewrite ToolTrackerFacts.update_lookup. cbv zeta.
  assert (det_id d = k) as Hk.
  { assert (d ∈ detections_of k dets) as Hin
      by (rewrite Hd; apply elem_of_app; right; apply list_elem_of_here).
    unfold detections_of in Hin. by apply list_elem_of_filter in Hin as [? _]. }
  rewrite decide_True.
  - rewrite IndependenceFacts.observe_track_filter, Hd, foldl_app. cbn [foldl].
    unfold observe_track at 1. rewrite decide_True by done.
    eexists. split; [reflexivity|]. by destruct (foldl _ _ earlier).
  - apply (proj2 (IndependenceFacts.detects_filter k dets)). rewrite Hd, fmap_app.
    apply elem_of_app. right. rewrite <- Hk. apply list_elem_of_here.
Qed.

Lemma detected_is_tracked_witness :
  ∃ tr, ToolTracker.tracked_tools
          (ToolTracker.update created_at_25
             [det 20 (1, 1); det 21 (2, 2); det 20 (3, 3); det 22 (4, 4)]) !! 20 = Some tr
    ∧ TrackedTool.frames_lost tr = 0
    ∧ TrackedTool.center tr = TrackedTool.to_float (3, 3)
    ∧ TrackedTool.corners tr = quad0.
Proof.
  apply (detected_is_tracked created_at_25 _ [det 20 (1, 1)] (det 20 (3, 3)) 20).
  vm_compute. reflexivity.
Defined.

End DetectedFacts.

(** ** The two dicts of the console logging *)

Module LoggingFacts.

Import Config Pipeline.

Lemma step_entry_paired (now : Q) (present : bool) (e : option Q * option Q) :
  (is_Some e.1 ↔ is_Some e.2) →
  (is_Some (step_entry now present e).1 ↔ is_Some (step_entry now present e).2).
Proof.
  intros He. unfold step_entry, forget_entry. destruct present; [by split; eexists|].
  destruct e as [[p|] [s|]]; cbn [fst snd] in *; try done.
  by destruct (Py.Qgtb _ _).
Qed.

(** X14. At the end of every cycle, [last_printed] and [last_seen_time] have
    the same keys: a marker id is recorded as announced exactly when it has a
    time at which it was last seen valid, so the test
    [tid in last_seen_time] of the forgetting loop never fails for an
    announced id. *)
Theorem logging_dicts_paired (timeline : list LogCycle) (tid : Z) :
  is_Some (last_printed (log_run timeline) !! tid)
  ↔ is_Some (last_seen_time (log_run timeline) !! tid).
Proof.
  unfold log_run. induction timeline as [|c timeline IH] using rev_ind.
  - simpl. rewrite !lookup_empty. done.
  - rewrite foldl_app. cbn [foldl].
    pose proof (PipelineFacts.log_cycle_entry (foldl log_cycle Logging_init timeline) c tid)
      as E.
    pose proof (step_entry_paired c.1 (bool_decide (valid_in tid c))
                  (log_entry (foldl log_cycle Logging_init timeline) tid) IH) as Hp.
    rewrite <- E in Hp. exact Hp.
Qed.

End LoggingFacts.

(** ** The WebSocket feed and the frame rate *)

Module StreamFacts.

Import Pipeline Stream.

Lemma ws_turn_shown (st : gset Z * list Snapshot) (poll : option Snapshot) :
  st.1 = shown st.2 → (ws_turn st poll).1 = shown (ws_turn st poll).2.
Proof.
  intros Hst. unfold ws_turn, ws_poll. destruct poll as [data|]; simpl.
  - destruct (has_events data || bool_decide (tool_ids data ≠ st.1)); simpl.
    + unfold shown. by rewrite last_snoc.
    + by rewrite app_nil_r.
  - by rewrite app_nil_r.
Qed.

Lemma ws_run_snoc (polls : list (option Snapshot)) (poll : option Snapshot) :
  ws_run (polls ++ [poll]) = ws_turn (ws_run polls) poll.
Proof. unfold ws_run. by rewrite foldl_app. Qed.

Lemma ws_run_shown (polls : list (option Snapshot)) :
  (ws_run polls).1 = shown (ws_run polls).2.
Proof.
  induction polls as [|poll polls IH] using rev_ind; [done|].
  rewrite ws_run_snoc. by apply ws_turn_shown.
Qed.

Lemma ws_turn_Some (st : gset Z * list Snapshot) (data : Snapshot) :
  (ws_turn st (Some data)).1 = tool_ids data.
Proof.
  unfold ws_turn, ws_poll.
  destruct (has_events data || bool_decide (tool_ids data ≠ st.1)) eqn:E; [done|].
  simpl. apply orb_false_iff in E as [_ E].
  apply bool_decide_eq_false in E. symmetry. by apply dec_stable.
Qed.

Lemma ws_turn_None (st : gset Z * list Snapshot) : ws_turn st None = st.
Proof. destruct st as [ids sent]. unfold ws_turn. simpl. by rewrite app_nil_r. Qed.

(** X15.  A client that shows the tools of the last message it received
    shows the id set of the snapshot polled last, also after any number of
    turns in which nothing was published; before the first message that is
    the empty set. *)
Theorem ws_client_in_sync (before : list (option Snapshot)) (data : Snapshot) (n : nat) :
  shown (ws_run (before ++ Some data :: replicate n None)).2 = tool_ids data.
Proof.
  rewrite <- ws_run_shown.
  induction n as [|n IH].
  - rewrite ws_run_snoc. apply ws_turn_Some.
  - rewrite replicate_S_end, app_comm_cons, app_assoc, ws_run_snoc, ws_turn_None.
    exact IH.
Qed.

Lemma ws_turn_sent (st : gset Z * list Snapshot) (poll : option Snapshot) :
  (ws_turn st poll).2 = st.2
  ∨ ∃ data, (ws_turn st poll).2 = st.2 ++ [data]
      ∧ (has_events data = true ∨ tool_ids data ≠ st.1).
Proof.
  unfold ws_turn, ws_poll. destruct poll as [data|]; simpl.
  - destruct (has_events data || bool_decide (tool_ids data ≠ st.1)) eqn:E; simpl.
    + right. exists data. split; [done|].
      apply orb_true_iff in E as [E|E]; [by left|].
      right. by apply bool_decide_eq_true in E.
    + left. by rewrite app_nil_r.
  - left. by rewrite app_nil_r.
Qed.

(** Of two consecutive messages the later one carries events or another
    set of tool ids. *)
Lemma ws_consecutive_messages (polls : list (option Snapshot)) (i : nat) (a b : Snapshot) :
  (ws_run polls).2 !! i = Some a →
  (ws_run polls).2 !! S i = Some b →
  has_events b = true ∨ tool_ids b ≠ tool_ids a.
Proof.
  revert i a b. induction polls as [|poll polls IH] using rev_ind; [done|].
  intros i a b. rewrite ws_run_snoc.
  destruct (ws_turn_sent (ws_run polls) poll) as [->|(data & -> & Hdata)];
    [by apply IH|].
  intros Ha Hb.
  destruct (decide (S i < length (ws_run polls).2)%nat) as [Hlt|Hge].
  - rewrite lookup_app_l in Ha by lia. rewrite lookup_app_l in Hb by lia.
    by apply (IH i).
  - assert (S i = length (ws_run polls).2) as Hi.
    { apply lookup_lt_Some in Hb. rewrite length_app in Hb. simpl in Hb. lia. }
    rewrite lookup_app_l in Ha by lia.
    rewrite lookup_app_r, Hi, Nat.sub_diag in Hb by lia.
    injection Hb as <-.
    rewrite ws_run_shown in Hdata. unfold shown in Hdata.
    rewrite last_lookup, <- Hi in Hdata. simpl in Hdata.
    by rewrite Ha in Hdata.
Qed.

(** X16.  A snapshot without events is not sent when its set of tool ids is
    the one of the last message sent on the connection (the empty set when
    none was sent): the messages stay as they were, whatever the hand count
    of the snapshot and the confidences and statuses of its tools.  A
    snapshot with events is sent every time it is polled. *)
Theorem ws_quiet_snapshot_not_sent (polls : list (option Snapshot)) (data : Snapshot) :
  has_events data = false →
  tool_ids data = shown (ws_run polls).2 →
  (ws_run (polls ++ [Some data])).2 = (ws_run polls).2
  ∧ ∀ noisy, has_events noisy = true →
      (ws_run (polls ++ [Some noisy])).2 = (ws_run polls).2 ++ [noisy].
Proof.
  intros Hev Hids. split.
  - rewrite ws_run_snoc. unfold ws_turn, ws_poll. rewrite Hev.
    rewrite <- ws_run_shown in Hids.
    rewrite bool_decide_eq_false_2 by (intros Hne; by apply Hne).
    simpl. by rewrite app_nil_r.
  - intros noisy Hn. rewrite ws_run_snoc. unfold ws_turn, ws_poll. by rewrite Hn.
Qed.

Lemma ws_quiet_snapshot_not_sent_witness :
  let tool := {| tj_id := 20; tj_name := "scalpel"; tj_confidence := 1;
                 tj_status := "detected" |} in
  let fading := {| tj_id := 20; tj_name := "scalpel"; tj_confidence := 1 # 2;
                   tj_status := "tracking" |} in
  let first := {| hands := 1; tools := [tool]; events := [tool] |} in
  let later := {| hands := 2; tools := [fading]; events := [] |} in
  (ws_run ([None; Some first] ++ [Some later])).2 = (ws_run [None; Some first]).2
  ∧ ∀ noisy, has_events noisy = true →
      (ws_run ([None; Some first] ++ [Some noisy])).2
      = (ws_run [None; Some first]).2 ++ [noisy].
Proof.
  intros tool fading first later.
  apply (ws_quiet_snapshot_not_sent [None; Some first] later); reflexivity.
Defined.

(** *** The frame rate *)

Lemma fps_sane (current_time last_time : Q) : sane (fps current_time last_time).
Proof.
  unfold fps, sane.
  pose proof (RegionFacts.max_ge_r (current_time - last_time) (1 # 100000)) as Hm.
  assert (0 < Py.max (current_time - last_time) (1 # 100000))%Q as Hpos.
  { eapply Qlt_le_trans; [|exact Hm]. done. }
  split.
  - apply Qlt_shift_div_l; [done|]. by rewrite Qmult_0_l.
  - apply Qle_shift_div_r; [done|].
    apply Qle_trans with (100000 * (1 # 100000))%Q; [done|].
    apply Qmult_le_l; done.
Qed.

Lemma fps_append_sane (fps_history : list Q) (x : Q) :
  Forall sane fps_history → sane x → Forall sane (fps_append fps_history x).
Proof.
  intros Hh Hx. unfold fps_append.
  destruct (length fps_history =? FPS_HISTORY_SIZE)%nat.
  - apply Forall_app. split; [|by apply Forall_singleton].
    destruct Hh; [constructor | done].
  - apply Forall_app. split; [done | by apply Forall_singleton].
Qed.

Lemma fps_append_nonempty (fps_history : list Q) (x : Q) : fps_append fps_history x ≠ [].
Proof.
  unfold fps_append.
  destruct (length fps_history =? FPS_HISTORY_SIZE)%nat; intros E;
    by apply app_eq_nil in E as [_ E].
Qed.

Lemma fps_append_length (fps_history : list Q) (x : Q) :
  (length fps_history ≤ FPS_HISTORY_SIZE)%nat →
  (length (fps_append fps_history x) ≤ FPS_HISTORY_SIZE)%nat.
Proof.
  intros Hl. unfold fps_append.
  destruct (length fps_history =? FPS_HISTORY_SIZE)%nat eqn:E.
  - apply Nat.eqb_eq in E. rewrite length_app. unfold FPS_HISTORY_SIZE in *.
    destruct fps_history; simpl in *; lia.
  - apply Nat.eqb_neq in E. rewrite length_app. simpl. lia.
Qed.

Lemma sum_sane (xs : list Q) :
  Forall sane xs →
  (0 <= foldr Qplus 0 xs ∧ foldr Qplus 0 xs <= 100000 * inject_Z (Z.of_nat (length xs)))%Q.
Proof.
  induction 1 as [|x xs [Hx0 Hx1] _ [IH0 IH1]]; [done|].
  cbn [foldr length]. split.
  - apply Qle_trans with (0 + 0)%Q; [done|].
    apply Qplus_le_compat; [by apply Qlt_le_weak | done].
  - rewrite Nat2Z.inj_succ, <- Z.add_1_l, inject_Z_plus, Qmult_plus_distr_r.
    apply Qplus_le_compat; [|done]. by rewrite Qmult_1_r.
Qed.

Lemma mean_sane (xs : list Q) : xs ≠ [] → Forall sane xs → sane (mean xs).
Proof.
  intros Hne Hxs. unfold mean, sane.
  assert (0 < inject_Z (Z.of_nat (length xs)))%Q as Hlen.
  { change 0%Q with (inject_Z 0). rewrite <- Zlt_Qlt. destruct xs; [done | simpl; lia]. }
  split.
  - apply Qlt_shift_div_l; [done|]. rewrite Qmult_0_l.
    destruct Hxs as [|x xs [Hx0 Hx1] Hxs]; [done|].
    cbn [foldr]. apply Qlt_le_trans with (x + 0)%Q; [by rewrite Qplus_0_r|].
    apply Qplus_le_compat; [apply Qle_refl|]. by apply sum_sane.
  - apply Qle_shift_div_r; [done|]. by apply sum_sane.
Qed.

Lemma fps_run_invariant (last_time : Q) (readings : list Q) :
  Forall sane (fps_run last_time readings).1.1
  ∧ (length (fps_run last_time readings).1.1 ≤ FPS_HISTORY_SIZE)%nat
  ∧ from_option sane True (fps_run last_time readings).2.
Proof.
  induction readings as [|t readings (IH1 & IH2 & _)] using rev_ind.
  - repeat split; [constructor | simpl; unfold FPS_HISTORY_SIZE; lia].
  - unfold fps_run in *. rewrite foldl_app. cbn [foldl].
    set (acc := foldl _ _ readings) in *. cbv zeta. unfold fps_cycle. simpl.
    pose proof (fps_sane t acc.1.2) as Hf.
    pose proof (fps_append_sane _ _ IH1 Hf) as Hh.
    split; [done|]. split; [by apply fps_append_length|].
    apply mean_sane; [apply fps_append_nonempty | done].
Qed.

(** X17.  Whatever the clock reads, also when two readings coincide or the
    clock steps back, the averaged frame rate of a cycle is positive and at
    most 100000 (in exact arithmetic), and the history it is averaged over
    never holds more than 30 rates. *)
Theorem fps_average_bounded (last_time : Q) (readings : list Q) (avg_fps : Q) :
  (fps_run last_time readings).2 = Some avg_fps →
  (0 < avg_fps ∧ avg_fps <= 100000)%Q
  ∧ (length (fps_run last_time readings).1.1 ≤ 30)%nat.
Proof.
  intros Havg. destruct (fps_run_invariant last_time readings) as (_ & Hlen & Hs).
  rewrite Havg in Hs. done.
Qed.

Lemma fps_average_bounded_witness :
  ∃ avg_fps, (fps_run 5 [5; 5 + (1 # 25); 4]%Q).2 = Some avg_fps
    ∧ (0 < avg_fps ∧ avg_fps <= 100000)%Q.
Proof.
  eexists. split; [reflexivity|].
  apply (fps_average_bounded 5 [5; 5 + (1 # 25); 4]%Q). reflexivity.
Defined.

End StreamFacts.

(** ** The chat relay *)

Module ChatFacts.

Import Api Chat.

Lemma earlier_turn_role (m t : JSON) : earlier_turn m = inl t → role_known t.
Proof.
  unfold earlier_turn.
  destruct (subscript m "role") as [role|]; [|done].
  destruct (subscript m "content") as [content|]; [|done].
  intros [= <-]. unfold role_known. destruct (is_user role); [by left | by right].
Qed.

Lemma earlier_turns_shape (ms ts : list JSON) :
  earlier_turns ms = inl ts → length ts = length ms ∧ Forall role_known ts.
Proof.
  revert ts. induction ms as [|m ms IH]; intros ts; simpl.
  - by intros [= <-].
  - destruct (earlier_turn m) as [t|] eqn:Et; [|done].
    destruct (earlier_turns ms) as [ts'|]; [|done].
    intros [= <-]. destruct (IH ts' eq_refl) as [Hl Hr]. simpl. split; [by rewrite Hl|].
    constructor; [by eapply earlier_turn_role | done].
Qed.

Lemma earlier_turn_readable (m : JSON) : readable m ↔ ∃ t, earlier_turn m = inl t.
Proof.
  unfold readable, earlier_turn. split.
  - intros [[role ->] [content ->]]. by eexists.
  - destruct (subscript m "role") as [role|]; [|by intros [? ?]].
    destruct (subscript m "content") as [content|]; [|by intros [? ?]].
    intros _. split; by eexists.
Qed.

Lemma earlier_turns_unreadable (ms : list JSON) (m : JSON) :
  m ∈ ms → ¬ readable m → ∃ exc, earlier_turns ms = inr exc.
Proof.
  intros Hin Hm. induction ms as [|m' ms IH]; [by apply elem_of_nil in Hin|]. simpl.
  destruct (earlier_turn m') as [t|exc] eqn:Et; [|by eexists].
  apply elem_of_cons in Hin as [->|Hin].
  - destruct Hm. apply earlier_turn_readable. by eexists.
  - destruct (IH Hin) as [exc ->]. by eexists.
Qed.

Lemma removelast_length (ms : list JSON) : length (removelast ms) = (length ms - 1)%nat.
Proof.
  induction ms as [|m ms IH]; [done|]. destruct ms as [|m' ms]; [done|].
  change (removelast (m :: m' :: ms)) with (m :: removelast (m' :: ms)).
  simpl in *. rewrite IH. lia.
Qed.

Section Relay.
Context `{Gemini}.

Lemma try_models_answer (api_key : string) (request text : JSON)
    (pre post : list string) (m err : string) :
  Forall (fails api_key request) pre →
  generate m api_key request = inl text →
  try_models api_key request (pre ++ m :: post) err
  = JSONResponse (JDict [("response"%string, text)]) 200.
Proof.
  intros Hpre Hm. revert err. induction Hpre as [|x pre [e He] _ IH]; intros err; simpl.
  - by rewrite Hm.
  - rewrite He. apply IH.
Qed.

Lemma try_models_failed (api_key : string) (request : JSON)
    (pre : list string) (m err e : string) :
  Forall (fails api_key request) pre →
  generate m api_key request = inr e →
  try_models api_key request (pre ++ [m]) err
  = JSONResponse (JDict [("response"%string,
                          JStr ("All models failed. Last error: " +:+ e))]) 200.
Proof.
  intros Hpre Hm. revert err. induction Hpre as [|x pre [e' He] _ IH]; intros err; simpl.
  - by rewrite Hm.
  - rewrite He. apply IH.
Qed.

(** Without a key, or with one that is white space only, the fixed answer
    is returned whatever the body is, and no model is asked. *)
Lemma chat_blank_key (key_env : string) (body : gmap string JSON) :
  blank key_env →
  chat key_env body = JSONResponse (JDict [("response"%string, JStr NO_KEY_RESPONSE)]) 200.
Proof.
  intros Hb. unfold chat.
  by rewrite bool_decide_eq_true_2 by (by apply ContactFacts.str_strip_empty).
Qed.

(** X18.  The models are asked in their listed order and the first answer is
    the response: when every model listed before one fails and that one
    answers, its text is returned, whatever the later models would do. *)
Theorem chat_first_answer_wins (key_env : string) (body : gmap string JSON)
    (request text : JSON) (pre post : list string) (m : string) :
  str_strip key_env ≠ ""%string →
  payload body = inl request →
  MODELS = pre ++ m :: post →
  Forall (fails (str_strip key_env) request) pre →
  generate m (str_strip key_env) request = inl text →
  chat key_env body = JSONResponse (JDict [("response"%string, text)]) 200.
Proof.
  intros Hkey Hreq Hm Hpre Htext. unfold chat.
  rewrite bool_decide_eq_false_2 by done. rewrite Hreq, Hm.
  by apply try_models_answer.
Qed.

(** X19.  When every model fails, the response is still a 200 and reports
    only the error of the model asked last; the errors of the other two are
    dropped. *)
Theorem chat_all_failed_reports_last (key_env : string) (body : gmap string JSON)
    (request : JSON) :
  str_strip key_env ≠ ""%string →
  payload body = inl request →
  Forall (fails (str_strip key_env) request) MODELS →
  ∃ e, generate "gemini-1.5-flash" (str_strip key_env) request = inr e
    ∧ chat key_env body
      = JSONResponse (JDict [("response"%string,
                              JStr ("All models failed. Last error: " +:+ e))]) 200.
Proof.
  intros Hkey Hreq Hall. unfold chat.
  rewrite bool_decide_eq_false_2 by done. rewrite Hreq.
  change MODELS
    with (["gemini-2.0-flash"%string; "gemini-2.0-flash-lite"%string]
          ++ ["gemini-1.5-flash"%string]) in *.
  apply Forall_app in Hall as [Hpre Hlast].
  apply Forall_singleton in Hlast as [e He].
  exists e. split; [done|]. by apply try_models_failed.
Qed.

(** X20.  The conversation sent to the service has one turn per message of
    the body, and one turn when there is none; every turn has the role user
    or model, and the last turn is a user turn whatever role the body gives
    its last message. *)
Theorem chat_conversation_shape (body : gmap string JSON) (ms : list JSON)
    (request : JSON) :
  sequence (default (JList []) (body !! "messages"%string)) = inl ms →
  payload body = inl request →
  ∃ turns, subscript request "contents" = inl (JList turns)
    ∧ length turns = Nat.max 1 (length ms)
    ∧ Forall role_known turns
    ∧ ∃ t, last turns = Some t ∧ subscript t "role" = inl (JStr "user").
Proof.
  intros Hms. unfold payload. rewrite Hms.
  destruct (earlier_turns (removelast ms)) as [contents|] eqn:Ec; [|done].
  destruct (match last ms with Some m => subscript m "content" | None => inl (JStr "") end)
    as [last_text|]; [|done].
  cbv zeta. intros [= <-].
  apply earlier_turns_shape in Ec as [Hl Hr].
  eexists. split; [reflexivity|]. split; [|split].
  - rewrite length_app, Hl, removelast_length. simpl. lia.
  - apply Forall_app. split; [done|]. apply Forall_singleton. by left.
  - eexists. split; [apply last_snoc | done].
Qed.

(** X21.  The history is not validated: when a message before the last one
    is not an object with a role and a content, the handler raises, and no
    model is asked. *)
Theorem chat_unreadable_history_raises (key_env : string) (body : gmap string JSON)
    (ms : list JSON) (m : JSON) :
  str_strip key_env ≠ ""%string →
  sequence (default (JList []) (body !! "messages"%string)) = inl ms →
  m ∈ removelast ms →
  ¬ readable m →
  ∃ exc, chat key_env body = Raised exc.
Proof.
  intros Hkey Hms Hin Hm. unfold chat, payload.
  rewrite bool_decide_eq_false_2 by done. rewrite Hms.
  destruct (earlier_turns_unreadable _ _ Hin Hm) as [exc ->]. by eexists.
Qed.

End Relay.

Example chat_key_of_no_break_space :
  chat (H := down_gemini) nbsp chat_body_broken
  = JSONResponse (JDict [("response"%string, JStr NO_KEY_RESPONSE)]) 200.
Proof. by vm_compute. Qed.

Lemma chat_first_answer_wins_witness :
  chat (H := fake_gemini) (nbsp +:+ "secret ") chat_body
  = JSONResponse (JDict [("response"%string, JStr "gemini-2.0-flash-lite")]) 200.
Proof.
  eapply (chat_first_answer_wins (H := fake_gemini) (nbsp +:+ "secret ") chat_body _ _
            ["gemini-2.0-flash"%string] ["gemini-1.5-flash"%string]
            "gemini-2.0-flash-lite").
  - vm_compute. discriminate.
  - reflexivity.
  - reflexivity.
  - apply Forall_singleton. eexists. reflexivity.
  - reflexivity.
Defined.

Lemma chat_all_failed_reports_last_witness :
  ∃ e, generate (Gemini := down_gemini) "gemini-1.5-flash" (str_strip (nbsp +:+ "secret "))
         (match payload (H := down_gemini) chat_body with inl r => r | inr _ => JNull end)
       = inr e
    ∧ chat (H := down_gemini) (nbsp +:+ "secret ") chat_body
      = JSONResponse (JDict [("response"%string,
                              JStr ("All models failed. Last error: " +:+ e))]) 200.
Proof.
  apply (chat_all_failed_reports_last (H := down_gemini) (nbsp +:+ "secret ") chat_body).
  - vm_compute. discriminate.
  - reflexivity.
  - repeat constructor; eexists; reflexivity.
Defined.

Lemma chat_conversation_shape_witness :
  ∃ turns,
    subscript (match payload (H := fake_gemini) chat_body with inl r => r | inr _ => JNull end)
      "contents" = inl (JList turns)
    ∧ length turns = Nat.max 1 3
    ∧ Forall role_known turns
    ∧ ∃ t, last turns = Some t ∧ subscript t "role" = inl (JStr "user").
Proof.
  apply (chat_conversation_shape (H := fake_gemini) chat_body
           [message "user" "hi"; message "assistant" "hello";
            message "user" "which tool is next?"]);
    reflexivity.
Defined.

Lemma chat_unreadable_history_raises_witness :
  ∃ exc, chat (H := fake_gemini) (nbsp +:+ "secret ") chat_body_broken = Raised exc.
Proof.
  apply (chat_unreadable_history_raises (H := fake_gemini) (nbsp +:+ "secret ") chat_body_broken
           [JDict [("role"%string, JStr "user")]; message "user" "which tool is next?"]
           (JDict [("role"%string, JStr "user")])).
  - vm_compute. discriminate.
  - reflexivity.
  - apply list_elem_of_here.
  - intros [_ [content Hc]]. discriminate Hc.
Defined.

End ChatFacts.
